(** * MediaFire download proxy (api/index.js): a shallow embedding

    The worker answers one HTTP request: it validates the [require] query
    value, fetches the MediaFire landing page, recovers the direct download
    link with four regular expressions tried in order, fetches that link and
    relays the file with rewritten headers.

    JavaScript strings are sequences of UTF-16 code units; they are modelled
    as lists of [N].  Regular expressions are modelled by a small syntax and
    a backtracking matcher with the priorities of the ECMAScript matcher
    (leftmost start, greedy quantifiers tried longest first, lazy ones
    shortest first, alternatives left to right). *)

From Stdlib Require Import NArith Ascii String.
From stdpp Require Import gmap strings list.

Local Open Scope N_scope.

(** ** Strings *)

Abbreviation jsstring := (list N) (only parsing).

(** [u "..."] is the string of an ASCII literal of the source. *)
Definition u (s : string) : jsstring :=
  map N_of_ascii (list_ascii_of_string s).

(** Truthiness of a string value: the empty string is falsy. *)
Definition truthy (s : jsstring) : bool :=
  match s with [] => false | _ => true end.

Definition streq (a b : jsstring) : bool := bool_decide (a = b).

(** [String.prototype.startsWith]. *)
Fixpoint startsWith (s p : jsstring) {struct p} : bool :=
  match p, s with
  | [], _ => true
  | c :: p', d :: s' => (c =? d) && startsWith s' p'
  | _ :: _, [] => false
  end.

(** [String.prototype.includes]. *)
Fixpoint includes (s p : jsstring) : bool :=
  startsWith s p ||
  match s with
  | [] => false
  | _ :: s' => includes s' p
  end.

(** [String.prototype.split] with a one-character separator. *)
Fixpoint split (sep : N) (s : jsstring) : list jsstring :=
  match s with
  | [] => [[]]
  | c :: s' =>
      if c =? sep then [] :: split sep s'
      else match split sep s' with
           | seg :: segs => (c :: seg) :: segs
           | [] => [[c]]
           end
  end.

(** [s.replace(/\+/g, ' ')]. *)
Definition replace_plus_by_space (s : jsstring) : jsstring :=
  map (fun c => if c =? 43 then 32 else c) s.

(** Decimal rendering of a number inside a template literal. *)
Fixpoint digits (fuel : nat) (n : N) (acc : jsstring) : jsstring :=
  match fuel with
  | O => acc
  | S fuel' =>
      let acc' := (48 + n mod 10) :: acc in
      if n / 10 =? 0 then acc' else digits fuel' (n / 10) acc'
  end.

Definition toString (n : N) : jsstring := digits (S (N.to_nat (N.log2 n))) n [].

(** ** Regular expressions *)

(** Members of a character class. *)
Inductive citem :=
| CChar (c : string)        (* one literal character, given as a one-character literal *)
| CRange (lo hi : string)   (* lo-hi *)
| CSpace                    (* \s *)
| CNonSpace.                (* \S *)

Record cclass := Class { negated : bool; items : list citem }.

(** The syntax covers what the program's patterns use: quantifiers are
    applied to single character classes only, and there is one capturing
    group at most. *)
Inductive regex :=
| Lit (l : string)               (* literal characters *)
| Set1 (c : cclass)              (* [...] *)
| Star (c : cclass)              (* [...]*  greedy *)
| Plus (c : cclass)              (* [...]+  greedy *)
| LazyStar (c : cclass)          (* [...]*? *)
| Opt (r : regex)                (* r? greedy *)
| Alt (r1 r2 : regex)            (* r1|r2 *)
| Seq (r1 r2 : regex)            (* r1r2 *)
| Group (r : regex).             (* ( r ), capture 1 *)

Declare Scope regex_scope.
Delimit Scope regex_scope with re.
Bind Scope regex_scope with regex.
Infix "++" := Seq : regex_scope.
Infix "||" := Alt : regex_scope.

(** The double quote, and a double-quoted literal. *)
Definition dq : string := String (ascii_of_N 34) EmptyString.
Definition quoted (s : string) : string := dq +:+ s +:+ dq.

(** White space of [\s]: WhiteSpace and LineTerminator code points. *)
Definition is_space (c : N) : bool :=
  (c =? 9) || (c =? 10) || (c =? 11) || (c =? 12) || (c =? 13) || (c =? 32)
  || (c =? 160) || (c =? 5760) || ((8192 <=? c) && (c <=? 8202))
  || (c =? 8232) || (c =? 8233) || (c =? 8239) || (c =? 8287)
  || (c =? 12288) || (c =? 65279).

(** Canonicalize of the [i] flag without [u]: upper-casing, which never maps
    a character outside ASCII to an ASCII one.  Every literal and class
    member of the program's patterns is ASCII, so folding ASCII letters
    decides every comparison the patterns make. *)
Definition canon (ci : bool) (c : N) : N :=
  if ci && (97 <=? c) && (c <=? 122) then c - 32 else c.

Definition chr (s : string) : N :=
  match s with
  | String a _ => N_of_ascii a
  | EmptyString => 0
  end.

Definition in_range (ci : bool) (lo hi c : N) : bool :=
  ((lo <=? c) && (c <=? hi))
  || (ci && (((65 <=? c) && (c <=? 90) && (lo <=? c + 32) && (c + 32 <=? hi))
            || ((97 <=? c) && (c <=? 122) && (lo <=? c - 32) && (c - 32 <=? hi)))).

Definition in_item (ci : bool) (c : N) (it : citem) : bool :=
  match it with
  | CChar x => canon ci c =? canon ci (chr x)
  | CRange lo hi => in_range ci (chr lo) (chr hi) c
  | CSpace => is_space c
  | CNonSpace => negb (is_space c)
  end.

Definition in_class (ci : bool) (cl : cclass) (c : N) : bool :=
  xorb (negated cl) (existsb (in_item ci c) (items cl)).

Section Matcher.
Context {A : Type}.
Variable ci : bool.   (* the i flag *)

(** Literal characters at the head of the input. *)
Fixpoint lit_match (l : jsstring) (s : jsstring) : option jsstring :=
  match l, s with
  | [], _ => Some s
  | c :: l', d :: s' => if canon ci c =? canon ci d then lit_match l' s' else None
  | _ :: _, [] => None
  end.

(** Greedy repetition: the longest run first, then shorter ones. *)
Fixpoint star_g (p : N -> bool) (s : jsstring) (k : jsstring -> option A) : option A :=
  match s with
  | c :: s' =>
      if p c then
        match star_g p s' k with
        | Some a => Some a
        | None => k s
        end
      else k s
  | [] => k s
  end.

(** Lazy repetition: the shortest run first. *)
Fixpoint star_l (p : N -> bool) (s : jsstring) (k : jsstring -> option A) : option A :=
  match k s with
  | Some a => Some a
  | None =>
      match s with
      | c :: s' => if p c then star_l p s' k else None
      | [] => None
      end
  end.

(** [m r s cap k]: match [r] at the head of [s], then continue with [k] on
    the rest of the input and the capture; [None] makes the matcher
    backtrack. *)
Fixpoint m (r : regex) (s : jsstring) (cap : option jsstring)
    (k : jsstring -> option jsstring -> option A) : option A :=
  match r with
  | Lit l =>
      match lit_match (u l) s with
      | Some s' => k s' cap
      | None => None
      end
  | Set1 cl =>
      match s with
      | c :: s' => if in_class ci cl c then k s' cap else None
      | [] => None
      end
  | Star cl => star_g (in_class ci cl) s (fun s' => k s' cap)
  | Plus cl =>
      match s with
      | c :: s' =>
          if in_class ci cl c then star_g (in_class ci cl) s' (fun s' => k s' cap)
          else None
      | [] => None
      end
  | LazyStar cl => star_l (in_class ci cl) s (fun s' => k s' cap)
  | Opt r1 =>
      match m r1 s cap k with
      | Some a => Some a
      | None => k s cap
      end
  | Alt r1 r2 =>
      match m r1 s cap k with
      | Some a => Some a
      | None => m r2 s cap k
      end
  | Seq r1 r2 => m r1 s cap (fun s' cap' => m r2 s' cap' k)
  | Group r1 =>
      m r1 s cap (fun s' _ => k s' (Some (take (length s - length s') s)))
  end.
End Matcher.

(** A match anchored at the head of [s]: the value of capture 1
    ([None] when the group took no part). *)
Definition match_here (ci : bool) (r : regex) (s : jsstring) : option (option jsstring) :=
  m ci r s None (fun _ cap => Some cap).

(** [RegExp.prototype.exec] / [String.prototype.match] without the [g]
    flag: the leftmost start position that matches.  [None] is [null]. *)
Fixpoint exec (ci : bool) (r : regex) (s : jsstring) : option (option jsstring) :=
  match match_here ci r s with
  | Some cap => Some cap
  | None =>
      match s with
      | [] => None
      | _ :: s' => exec ci r s'
      end
  end.

(** [match && match[1]]: a match whose capture 1 is a non-empty string. *)
Definition capture1 (mt : option (option jsstring)) : option jsstring :=
  match mt with
  | Some (Some c) => if truthy c then Some c else None
  | _ => None
  end.

(** ** The four link patterns *)

Definition not_gt := Class true [CChar ">"].
Definition not_quote := Class true [CChar dq].
Definition space := Class false [CSpace].
Definition any := Class false [CSpace; CNonSpace].

(** Pattern 1, with the flag i (\x22 is the double quote):
    <a[^>]*id=\x22download-button\x22[^>]*href=\x22([^\x22]+)\x22 *)
Definition downloadLinkRegex1 : regex :=
  (Lit "<a" ++ Star not_gt ++ Lit ("id=" +:+ quoted "download-button") ++ Star not_gt
   ++ Lit ("href=" +:+ dq) ++ Group (Plus not_quote) ++ Lit dq)%re.

Definition http_url_head : regex := (Lit "http" ++ Opt (Lit "s") ++ Lit "://")%re.

(** Pattern 2, with the flag i:
    var\s+download_url\s*=\s*\x22(https?:\/\/[^\x22]+)\x22; *)
Definition jsDownloadLinkRegex2 : regex :=
  (Lit "var" ++ Plus space ++ Lit "download_url" ++ Star space ++ Lit "=" ++ Star space
   ++ Lit dq ++ Group (http_url_head ++ Plus not_quote) ++ Lit (dq +:+ ";"))%re.

(** Pattern 3, with the flag i:
    window\.dl_link\s*=\s*\x22(https?:\/\/[^\x22]+)\x22; *)
Definition dlLinkRegex3 : regex :=
  (Lit "window.dl_link" ++ Star space ++ Lit "=" ++ Star space
   ++ Lit dq ++ Group (http_url_head ++ Plus not_quote) ++ Lit (dq +:+ ";"))%re.

Definition url_char := Class true [CSpace; CChar dq; CChar "'"; CChar "<"; CChar ">"; CChar ";"].

Definition file_extension : regex :=
  (Lit "zip" || Lit "rar" || Lit "7z" || Lit "exe" || Lit "mp4" || Lit "mp3" || Lit "pdf"
   || Lit "doc" || Lit "docx" || Lit "xls" || Lit "xlsx" || Lit "ppt" || Lit "pptx"
   || Lit "jpg" || Lit "jpeg" || Lit "png" || Lit "gif" || Lit "txt" || Lit "iso"
   || Lit "apk" || Lit "dmg" || Lit "deb" || Lit "rpm" || Lit "tar.gz" || Lit "gz"
   || Lit "bz2" || Lit "xz")%re.

(** Pattern 4, with the flag i:
    <script[^>]*>[\s\S]*?(https?:\/\/[^\s\x22'<>;]+\.(?:zip|rar|...|xz))[\s\S]*?<\/script> *)
Definition directLinkInScriptRegex : regex :=
  (Lit "<script" ++ Star not_gt ++ Lit ">" ++ LazyStar any
   ++ Group (http_url_head ++ Plus url_char ++ Lit "." ++ file_extension)
   ++ LazyStar any ++ Lit "</script>")%re.

(** Step 4 of the handler: the direct link, [None] while
    [directDownloadUrl] stays [null]. *)
Definition extractDirectUrl (htmlContent : jsstring) : option jsstring :=
  match capture1 (exec true downloadLinkRegex1 htmlContent) with
  | Some url => Some url
  | None =>
      match capture1 (exec true jsDownloadLinkRegex2 htmlContent) with
      | Some url => Some url
      | None =>
          match capture1 (exec true dlLinkRegex3 htmlContent) with
          | Some url => Some url
          | None => capture1 (exec true directLinkInScriptRegex htmlContent)
          end
      end
  end.

(** ** Exceptions *)

(** A computation that returns or throws an error with a message. *)
Inductive result (A : Type) :=
| Ok (a : A)
| Throw (message : jsstring).
Arguments Ok {A} a.
Arguments Throw {A} message.

(** ** decodeURIComponent *)

Definition hexval (c : N) : option N :=
  if (48 <=? c) && (c <=? 57) then Some (c - 48)
  else if (65 <=? c) && (c <=? 70) then Some (c - 55)
  else if (97 <=? c) && (c <=? 102) then Some (c - 87)
  else None.

(** An escape [%XX] at the head of the input: its octet and the rest. *)
Definition escape_octet (s : jsstring) : option (N * jsstring) :=
  match s with
  | 37 :: h :: l :: rest =>
      match hexval h, hexval l with
      | Some a, Some b => Some (16 * a + b, rest)
      | _, _ => None
      end
  | _ => None
  end.

(** [n] further escapes, as the octets that follow a UTF-8 lead octet. *)
Fixpoint escape_octets (n : nat) (s : jsstring) : option (list N * jsstring) :=
  match n with
  | O => Some ([], s)
  | S n' =>
      match escape_octet s with
      | Some (b, rest) =>
          match escape_octets n' rest with
          | Some (bs, rest') => Some (b :: bs, rest')
          | None => None
          end
      | None => None
      end
  end.

(** Number of leading 1 bits of an octet. *)
Definition leading_ones (b : N) : nat :=
  if b <? 128 then 0%nat
  else if b <? 192 then 1%nat
  else if b <? 224 then 2%nat
  else if b <? 240 then 3%nat
  else if b <? 248 then 4%nat
  else 5%nat.

Definition is_continuation (b : N) : bool := (128 <=? b) && (b <=? 191).

(** The code point that [lead :: rest] encodes in UTF-8, if the octets are a
    well-formed encoding (shortest form, no surrogate, at most U+10FFFF). *)
Definition utf8_code_point (lead : N) (rest : list N) : option N :=
  if forallb is_continuation rest then
    let bits := fold_left (fun acc b => acc * 64 + (b - 128)) rest in
    match rest with
    | [_] =>
        let v := bits (lead - 192) in
        if 128 <=? v then Some v else None
    | [_; _] =>
        let v := bits (lead - 224) in
        if (2048 <=? v) && negb ((55296 <=? v) && (v <=? 57343)) then Some v else None
    | [_; _; _] =>
        let v := bits (lead - 240) in
        if (65536 <=? v) && (v <=? 1114111) then Some v else None
    | _ => None
    end
  else None.

(** UTF-16 code units of a code point. *)
Definition utf16_encode (v : N) : jsstring :=
  if v <? 65536 then [v]
  else [55296 + (v - 65536) / 1024; 56320 + (v - 65536) mod 1024].

Definition URIError : jsstring := u "URI malformed".

(** The Decode loop of ECMAScript with an empty set of preserved escapes.
    Every step consumes at least one code unit, so [length s] steps are
    enough. *)
Fixpoint decode (fuel : nat) (s : jsstring) : result jsstring :=
  match s with
  | [] => Ok []
  | c :: s' =>
      match fuel with
      | O => Throw URIError
      | S fuel' =>
          if c =? 37 then
            match escape_octet s with
            | None => Throw URIError
            | Some (b, rest) =>
                match leading_ones b with
                | O =>
                    match decode fuel' rest with
                    | Ok r => Ok (b :: r)
                    | Throw e => Throw e
                    end
                | S O => Throw URIError
                | S n' =>
                    if (3 <? n')%nat then Throw URIError
                    else
                      match escape_octets n' rest with
                      | None => Throw URIError
                      | Some (octets, rest') =>
                          match utf8_code_point b octets with
                          | None => Throw URIError
                          | Some v =>
                              match decode fuel' rest' with
                              | Ok r => Ok (utf16_encode v ++ r)
                              | Throw e => Throw e
                              end
                          end
                      end
                end
            end
          else
            match decode fuel' s' with
            | Ok r => Ok (c :: r)
            | Throw e => Throw e
            end
      end
  end.

Definition decodeURIComponent (s : jsstring) : result jsstring :=
  decode (length s) s.

(** ** The URL parser, as far as [new URL(link).pathname] needs it

    The handler parses the link only after it has checked that it starts
    with http://www.mediafire.com/ or https://www.mediafire.com/, so the
    scheme is special and the host is www.mediafire.com; any other input is
    outside what is modelled and is reported as a parse failure. *)

(** Scalar values of a string: a surrogate pair is one code point, a lone
    surrogate becomes U+FFFD. *)
Fixpoint scalar_values (s : jsstring) : list N :=
  match s with
  | [] => []
  | c :: s' =>
      if (55296 <=? c) && (c <=? 56319) then
        match s' with
        | d :: s'' =>
            if (56320 <=? d) && (d <=? 57343)
            then (65536 + (c - 55296) * 1024 + (d - 56320)) :: scalar_values s''
            else 65533 :: scalar_values s'
        | [] => [65533]
        end
      else if (56320 <=? c) && (c <=? 57343) then 65533 :: scalar_values s'
      else c :: scalar_values s'
  end.

Definition utf8_encode (v : N) : list N :=
  if v <? 128 then [v]
  else if v <? 2048 then [192 + v / 64; 128 + v mod 64]
  else if v <? 65536 then [224 + v / 4096; 128 + (v / 64) mod 64; 128 + v mod 64]
  else [240 + v / 262144; 128 + (v / 4096) mod 64; 128 + (v / 64) mod 64; 128 + v mod 64].

Definition hexdigit (d : N) : N := if d <? 10 then 48 + d else 55 + d.

Definition percent_encode_octet (b : N) : jsstring := [37; hexdigit (b / 16); hexdigit (b mod 16)].

(** The path percent-encode set. *)
Definition in_path_percent_encode_set (c : N) : bool :=
  (c <=? 31) || (126 <? c)
  || (c =? 32) || (c =? 34) || (c =? 35) || (c =? 60) || (c =? 62)
  || (c =? 63) || (c =? 94) || (c =? 96) || (c =? 123) || (c =? 125).

Definition percent_encode_path (c : N) : jsstring :=
  if in_path_percent_encode_set c then flat_map percent_encode_octet (utf8_encode c)
  else [c].

Definition lower (s : jsstring) : jsstring :=
  map (fun c => if (65 <=? c) && (c <=? 90) then c + 32 else c) s.

Definition is_single_dot (buffer : jsstring) : bool :=
  streq buffer (u ".") || streq (lower buffer) (u "%2e").

Definition is_double_dot (buffer : jsstring) : bool :=
  streq buffer (u "..") || streq (lower buffer) (u ".%2e")
  || streq (lower buffer) (u "%2e.") || streq (lower buffer) (u "%2e%2e").

(** End of a path segment; [slash] tells whether the segment was closed by
    a slash. *)
Definition close_segment (slash : bool) (buffer : jsstring) (path : list jsstring) : list jsstring :=
  if is_double_dot buffer then
    let path' := removelast path in
    if slash then path' else path' ++ [[]]
  else if is_single_dot buffer then
    if slash then path else path ++ [[]]
  else path ++ [buffer].

(** The path state, on the code points that follow the first slash of the
    path; it stops at the query or the fragment. *)
Fixpoint path_state (input : list N) (buffer : jsstring) (path : list jsstring) : list jsstring :=
  match input with
  | [] => close_segment false buffer path
  | c :: input' =>
      if (c =? 47) || (c =? 92) then path_state input' [] (close_segment true buffer path)
      else if (c =? 63) || (c =? 35) then close_segment false buffer path
      else path_state input' (buffer ++ percent_encode_path c) path
  end.

Definition is_c0_or_space (c : N) : bool := c <=? 32.
Definition is_tab_or_newline (c : N) : bool := (c =? 9) || (c =? 10) || (c =? 13).

Fixpoint drop_while (p : N -> bool) (s : jsstring) : jsstring :=
  match s with
  | c :: s' => if p c then drop_while p s' else s
  | [] => []
  end.

Definition url_input (s : jsstring) : jsstring :=
  filter (fun c => is_tab_or_newline c = false)
    (rev (drop_while is_c0_or_space (rev (drop_while is_c0_or_space s)))).

Fixpoint after_prefix (p s : jsstring) : option jsstring :=
  match p, s with
  | [], _ => Some s
  | c :: p', d :: s' => if c =? d then after_prefix p' s' else None
  | _ :: _, [] => None
  end.

(** [new URL(link).pathname]. *)
Definition URL_pathname (link : jsstring) : result jsstring :=
  let input := url_input link in
  let rest :=
    match after_prefix (u "http://www.mediafire.com/") input with
    | Some rest => Some rest
    | None => after_prefix (u "https://www.mediafire.com/") input
    end in
  match rest with
  | Some rest =>
      Ok (flat_map (fun seg => 47 :: seg) (path_state (scalar_values rest) [] []))
  | None => Throw (u "Invalid URL")
  end.

(** ** Headers *)

(** A [Headers] object: header names are case-insensitive, so the map is
    keyed by the lower-cased name.  The names that the program uses are
    literals, all of them header names. *)
Abbreviation Headers := (gmap string (list N)) (only parsing).

Definition lower_ascii (a : ascii) : ascii :=
  let n := N_of_ascii a in
  if (65 <=? n) && (n <=? 90) then ascii_of_N (n + 32) else a.

Fixpoint lower_name (name : string) : string :=
  match name with
  | EmptyString => EmptyString
  | String a rest => String (lower_ascii a) (lower_name rest)
  end.

(** [headers.set(name, value)] for a value that is a header value as it
    stands: a literal of the program, or a value read from another
    [Headers] object, which holds header values only. *)
Definition Headers_set (name : string) (value : jsstring) (h : Headers) : Headers :=
  <[lower_name name := value]> h.

Definition Headers_get (name : string) (h : Headers) : option jsstring :=
  h !! lower_name name.

Definition Headers_has (name : string) (h : Headers) : bool :=
  bool_decide (is_Some (h !! lower_name name)).

Definition Headers_delete (name : string) (h : Headers) : Headers :=
  delete (lower_name name) h.

(** [headers.set(name, value)] for any string, as the Fetch Standard has
    it: the value is converted to a ByteString, which throws a TypeError
    for a code unit above 255; leading and trailing HTTP whitespace is
    removed; and what is left must be a header value, without NUL, line
    feed and carriage return, or a TypeError is thrown.  The standard
    leaves the wording of the messages to the runtime: the texts given here
    stand for it, and no property below depends on them. *)
Definition is_byte_string (value : jsstring) : bool :=
  forallb (fun c => c <=? 255) value.

Definition is_http_whitespace (c : N) : bool :=
  (c =? 9) || (c =? 10) || (c =? 13) || (c =? 32).

Definition normalize_value (value : jsstring) : jsstring :=
  rev (drop_while is_http_whitespace (rev (drop_while is_http_whitespace value))).

Definition is_header_value (value : jsstring) : bool :=
  forallb (fun c => negb ((c =? 0) || (c =? 10) || (c =? 13))) value.

Definition byteStringError : jsstring :=
  u "Cannot convert argument to a ByteString because a character has a value greater than 255.".

Definition headerValueError : jsstring := u "Invalid header value.".

Definition Headers_set_any (name : string) (value : jsstring) (h : Headers) : result Headers :=
  if negb (is_byte_string value) then Throw byteStringError
  else if negb (is_header_value (normalize_value value)) then Throw headerValueError
  else Ok (Headers_set name (normalize_value value) h).

(** [value || fallback] on a nullable string. *)
Definition or_else (value : option jsstring) (fallback : jsstring) : jsstring :=
  match value with
  | Some v => if truthy v then v else fallback
  | None => fallback
  end.

(** ** Responses *)

Inductive Body :=
| NoBody                                             (* null *)
| JsonBody (error link_provided : jsstring)          (* JSON.stringify({ error, link_provided }) *)
| StreamBody (stream : list N).                      (* the body stream of an upstream response *)

Record Response := mkResponse {
  status : N;
  headers : Headers;
  body : Body
}.

(** The null body statuses of the Fetch Standard. *)
Definition null_body_status (status : N) : bool :=
  (status =? 101) || (status =? 103) || (status =? 204) || (status =? 205) || (status =? 304).

Definition has_body (body : Body) : bool :=
  match body with NoBody => false | _ => true end.

Definition statusRangeError : jsstring :=
  u "Responses may only be constructed with status codes in the range 200 to 599, inclusive.".

Definition nullBodyStatusError : jsstring :=
  u "Response with null body status (101, 204, 205, or 304) cannot have a body.".

(** [new Response(body, { status, headers })]: a RangeError unless the
    status is in the range 200 to 599, a TypeError for a body with a null
    body status.  The standard leaves the wording of the messages to the
    runtime: the texts given here stand for it, and no property below
    depends on them.  (A status is an unsigned short; the statuses of the
    program are literals or come from a fetched response, so the conversion
    changes nothing.) *)
Definition new_Response (body : Body) (status : N) (headers : Headers) : result Response :=
  if negb ((200 <=? status) && (status <=? 599)) then Throw statusRangeError
  else if has_body body && null_body_status status then Throw nullBodyStatusError
  else Ok (mkResponse status headers body).

(** The four CORS headers, as each response sets them. *)
Definition set_cors (h : Headers) : Headers :=
  Headers_set "Access-Control-Max-Age" (u "86400")
    (Headers_set "Access-Control-Allow-Headers" (u "Content-Type")
      (Headers_set "Access-Control-Allow-Methods" (u "GET, HEAD, OPTIONS")
        (Headers_set "Access-Control-Allow-Origin" (u "*") h))).

Definition createErrorResponse (message : jsstring) (status : N) (mediaFireLink : option jsstring)
  : result Response :=
  let headers := Headers_set "Content-Type" (u "application/json") ∅ in
  let headers := set_cors headers in
  new_Response (JsonBody message (or_else mediaFireLink (u "N/A"))) status headers.

(** ** File names *)

(** The pattern for the upstream Content-Disposition, with the flag i:
    filename\*?=['\x22]?(?:UTF-8'')?([^;\x22]+) *)
Definition filenameRegex : regex :=
  (Lit "filename" ++ Opt (Lit "*") ++ Lit "=" ++ Opt (Set1 (Class false [CChar "'"; CChar dq]))
   ++ Opt (Lit "UTF-8''") ++ Group (Plus (Class true [CChar ";"; CChar dq])))%re.

(** The pattern for the hash of the link, without flags:
    \/file\/([a-zA-Z0-9]+)\/ *)
Definition hashRegex : regex :=
  (Lit "/file/" ++ Group (Plus (Class false [CRange "a" "z"; CRange "A" "Z"; CRange "0" "9"]))
   ++ Lit "/")%re.

Definition extMap : list (string * string) :=
  [ ("image/jpeg", "jpg"); ("image/png", "png"); ("image/gif", "gif");
    ("application/pdf", "pdf"); ("application/zip", "zip");
    ("application/vnd.rar", "rar"); ("application/x-7z-compressed", "7z");
    ("audio/mpeg", "mp3"); ("video/mp4", "mp4");
    ("application/vnd.openxmlformats-officedocument.wordprocessingml.document", "docx");
    ("application/msword", "doc");
    ("application/vnd.openxmlformats-officedocument.spreadsheetml.sheet", "xlsx");
    ("application/vnd.ms-excel", "xls");
    ("application/vnd.openxmlformats-officedocument.presentationml.presentation", "pptx");
    ("application/vnd.ms-powerpoint", "ppt");
    ("application/x-bittorrent", "torrent");
    ("application/x-iso9660-image", "iso");
    ("application/vnd.android.package-archive", "apk");
    ("text/plain", "txt") ]%string.

(** The own entry of [extMap] for a key. *)
Fixpoint own_entry (table : list (string * string)) (key : jsstring) : option jsstring :=
  match table with
  | [] => None
  | (k, v) :: table' => if streq (u k) key then Some (u v) else own_entry table' key
  end.

(** [extMap] is an object literal, so a key that is not its own is looked
    up on Object.prototype.  What is found there is a function (or, for
    __proto__, Object.prototype itself); the program only ever converts it
    to a string, and this is that string as V8 prints it. *)
Definition inherited_functions : list string :=
  [ "constructor"; "hasOwnProperty"; "isPrototypeOf"; "propertyIsEnumerable";
    "toLocaleString"; "toString"; "valueOf"; "__defineGetter__"; "__defineSetter__";
    "__lookupGetter__"; "__lookupSetter__" ]%string.

Definition inherited_entry (key : jsstring) : option jsstring :=
  if streq key (u "__proto__") then Some (u "[object Object]")
  else
    match filter (fun name => streq (u name) key = true) inherited_functions with
    | name :: _ =>
        Some (u "function " ++ (if streq key (u "constructor") then u "Object" else u name)
              ++ u "() { [native code] }")
    | [] => None
    end.

(** [extMap[mime]], as the string the program uses it as. *)
Definition extMap_get (mime : jsstring) : option jsstring :=
  match own_entry extMap mime with
  | Some ext => Some ext
  | None => inherited_entry mime
  end.

(** Element [i] of an array, [None] for [undefined]. *)
Definition element (segments : list jsstring) (i : nat) : option jsstring := segments !! i.

(** [contentType.split(';')[0]]. *)
Definition mimeOf (contentType : jsstring) : jsstring :=
  default [] (element (split 59 contentType) 0).

(** The extension step: [contentType] is [headers.get('Content-Type')] of
    the response under construction. *)
Definition addExtension (filename : jsstring) (contentType : option jsstring) : jsstring :=
  match contentType with
  | Some ct =>
      if negb (includes filename (u ".")) && truthy ct then
        let mime := mimeOf ct in
        let ext :=
          match extMap_get mime with
          | Some e => if truthy e then Some e else element (split 47 mime) 1
          | None => element (split 47 mime) 1
          end in
        match ext with
        | Some e => if truthy e && negb (includes filename e) then filename ++ u "." ++ e else filename
        | None => filename
        end
      else filename
  | None => filename
  end.

(** The name recovered from the link inside the inner try block, which
    keeps the current name when anything throws. *)
Definition filenameFromLink (mediaFireLink : jsstring) (filename : jsstring) : jsstring :=
  match URL_pathname mediaFireLink with
  | Throw _ => filename
  | Ok pathname =>
      let segments := split 47 pathname in
      let lastSegment :=
        if (2 <=? length segments)%nat then element segments (length segments - 2) else None in
      let seg := default [] lastSegment in
      if truthy seg && negb (streq seg (u "file")) then
        match decodeURIComponent (replace_plus_by_space seg) with
        | Ok name => name
        | Throw _ => filename
        end
      else
        match capture1 (exec false hashRegex pathname) with
        | Some hash => u "mediafire_file_" ++ hash
        | None => filename
        end
  end.

(** The name taken from the upstream Content-Disposition; the decoding is
    not inside any local try block. *)
Definition filenameFromDisposition (contentDispositionHeader : option jsstring)
  : result jsstring :=
  let filename := u "downloaded_file" in
  match contentDispositionHeader with
  | Some cd =>
      if truthy cd then
        match capture1 (exec true filenameRegex cd) with
        | Some name => decodeURIComponent name
        | None => Ok filename
        end
      else Ok filename
  | None => Ok filename
  end.

(** The whole inference of the file name, given the Content-Type already
    set on the response under construction. *)
Definition inferFilename (contentDispositionHeader : option jsstring)
    (mediaFireLink : jsstring) (contentType : option jsstring) : result jsstring :=
  match filenameFromDisposition contentDispositionHeader with
  | Throw e => Throw e
  | Ok filename =>
      if streq filename (u "downloaded_file") then
        Ok (addExtension (filenameFromLink mediaFireLink filename) contentType)
      else Ok filename
  end.

(** ** The network *)

Record UpstreamResponse := mkUpstream {
  up_status : N;
  up_statusText : jsstring;
  up_headers : Headers;
  up_text : jsstring;        (* what text() resolves to; a failure while reading is not modelled *)
  up_body : list N           (* the bytes of the body stream *)
}.

Definition ok (r : UpstreamResponse) : bool :=
  (200 <=? up_status r) && (up_status r <=? 299).

(** [response.body] of a fetched response: null when the status is a null
    body status, the stream otherwise. *)
Definition fetched_body (r : UpstreamResponse) : Body :=
  if null_body_status (up_status r) then NoBody else StreamBody (up_body r).

(** An outbound [fetch(url, { headers })]: it resolves to a response or
    rejects.  The method of the incoming request is no part of it. *)
Record FetchCall := mkFetch {
  fetch_url : jsstring;
  fetch_headers : list (string * list N)
}.

Definition Network := FetchCall -> result UpstreamResponse.

(** ** The handler *)

Record Request := mkRequest {
  method : jsstring;
  require : option jsstring;     (* url.searchParams.get('require') *)
  user_agent : option jsstring   (* request.headers.get('User-Agent') *)
}.

(** Computations of the try block: they may throw, and they record the
    fetches they issue, oldest first. *)
Definition Try (A : Type) : Type := list FetchCall -> result A * list FetchCall.

Definition ret {A} (a : A) : Try A := fun log => (Ok a, log).

Definition bind {A B} (c : Try A) (f : A -> Try B) : Try B :=
  fun log =>
    match c log with
    | (Ok a, log') => f a log'
    | (Throw e, log') => (Throw e, log')
    end.

Definition lift {A} (r : result A) : Try A := fun log => (r, log).

Definition fetch (net : Network) (call : FetchCall) : Try UpstreamResponse :=
  fun log => (net call, log ++ [call]).

Notation "'let*' x ':=' c 'in' f" := (bind c (fun x => f))
  (at level 10, x name, c at level 100, f at level 200).

Definition browserUserAgent : jsstring :=
  u "Mozilla/5.0 (Windows NT 10.0; Win64; x64) AppleWebKit/537.36 (KHTML, like Gecko) Chrome/120.0.0.0 Safari/537.36".

Definition pageFetch (mediaFireLink : jsstring) : FetchCall :=
  mkFetch mediaFireLink
    [ ("User-Agent", browserUserAgent);
      ("Accept", u "text/html,application/xhtml+xml,application/xml;q=0.9,image/webp,*/*;q=0.8") ]%string.

Definition fileFetch (request : Request) (directDownloadUrl : jsstring) : FetchCall :=
  mkFetch directDownloadUrl
    [ ("User-Agent", or_else (user_agent request) (u "Mozilla/5.0 (Cloudflare Worker Download Proxy)")) ]%string.

Definition preflight : result Response :=
  new_Response NoBody 204 (set_cors ∅).

(** Step 6: the headers of the relayed response, before the file name. *)
Definition relayHeaders (fileResponse : UpstreamResponse) : Headers :=
  let headers := set_cors ∅ in
  let headers :=
    Headers_set "Content-Type"
      (or_else (Headers_get "Content-Type" (up_headers fileResponse)) (u "application/octet-stream"))
      headers in
  if Headers_has "Content-Length" (up_headers fileResponse) then
    Headers_set "Content-Length"
      (default [] (Headers_get "Content-Length" (up_headers fileResponse))) headers
  else headers.

Definition scrub (headers : Headers) : Headers :=
  Headers_delete "accept-ranges"
    (Headers_delete "content-encoding"
      (Headers_delete "etag"
        (Headers_delete "vary"
          (Headers_delete "alt-svc"
            (Headers_delete "cf-ray"
              (Headers_delete "set-cookie" headers)))))).

(** The value [attachment; filename=...] with the name in double quotes. *)
Definition attachment (filename : jsstring) : jsstring :=
  u "attachment; filename=" ++ u dq ++ filename ++ u dq.

(** Steps 6 and 7: the relayed response; it throws when the decoding of the
    upstream file name throws, and when the Content-Disposition put together
    from the name is refused by [headers.set].  The program relays a
    response with [ok] only: its status is in 200 to 299 and its body is
    null for 204 and 205, so the constructor of the last line accepts both
    and the response is the one given here. *)
Definition relay (fileResponse : UpstreamResponse) (mediaFireLink : jsstring) : result Response :=
  let headers := relayHeaders fileResponse in
  match inferFilename (Headers_get "Content-Disposition" (up_headers fileResponse))
          mediaFireLink (Headers_get "Content-Type" headers) with
  | Throw e => Throw e
  | Ok filename =>
      match Headers_set_any "Content-Disposition" (attachment filename) headers with
      | Throw e => Throw e
      | Ok headers =>
          Ok (mkResponse (up_status fileResponse) (scrub headers) (fetched_body fileResponse))
      end
  end.

Definition extractionFailedMessage : jsstring :=
  u "No se pudo encontrar el enlace de descarga directo en la p" ++ [225]
  ++ u "gina de MediaFire. La estructura de la p" ++ [225]
  ++ u "gina podr" ++ [237] ++ u "a haber cambiado.".

Definition internalErrorMessage (message : jsstring) : jsstring :=
  u "Error interno del servidor al procesar la solicitud: " ++ message.

(** The body of the try block. *)
Definition pipeline (net : Network) (request : Request) (mediaFireLink : jsstring) : Try Response :=
  let* mediafirePageResponse := fetch net (pageFetch mediaFireLink) in
  if negb (ok mediafirePageResponse) then
    lift (createErrorResponse
            (u "Error al obtener la p" ++ [225] ++ u "gina de MediaFire: "
             ++ toString (up_status mediafirePageResponse) ++ u " "
             ++ up_statusText mediafirePageResponse)
            (up_status mediafirePageResponse) (Some mediaFireLink))
  else
    let htmlContent := up_text mediafirePageResponse in
    match extractDirectUrl htmlContent with
    | None =>
        lift (createErrorResponse extractionFailedMessage 500 (Some mediaFireLink))
    | Some directDownloadUrl =>
        let* fileResponse := fetch net (fileFetch request directDownloadUrl) in
        if negb (ok fileResponse) then
          lift (createErrorResponse
                  (u "Error al descargar el archivo del enlace directo: "
                   ++ toString (up_status fileResponse) ++ u " " ++ up_statusText fileResponse)
                  (up_status fileResponse) (Some mediaFireLink))
        else lift (relay fileResponse mediaFireLink)
    end.

Definition validLink (mediaFireLink : jsstring) : bool :=
  startsWith mediaFireLink (u "http://www.mediafire.com/")
  || startsWith mediaFireLink (u "https://www.mediafire.com/").

(** The exported [fetch(request)]: the response that the promise resolves
    to, or the error that it rejects with, and the outbound fetches issued
    on the way. *)
Definition handle (net : Network) (request : Request)
  : result Response * list FetchCall :=
  if streq (method request) (u "OPTIONS") then (preflight, [])
  else
    let mediaFireLink := require request in
    if negb (truthy (default [] mediaFireLink)) then
      (createErrorResponse
         (u "Falta el par" ++ [225] ++ u "metro 'require'. Por favor, proporciona un enlace de MediaFire.")
         400 None, [])
    else
      let link := default [] mediaFireLink in
      if negb (validLink link) then
        (createErrorResponse
           (u "Enlace de MediaFire inv" ++ [225] ++ u "lido. Debe comenzar con http(s)://www.mediafire.com/")
           400 (Some link), [])
      else
        match pipeline net request link [] with
        | (Ok response, log) => (Ok response, log)
        | (Throw message, log) =>
            (createErrorResponse (internalErrorMessage message) 500 (Some link), log)
        end.

(** ** Vocabulary of the properties *)

Definition cors (h : Headers) : Prop :=
  Headers_get "Access-Control-Allow-Origin" h = Some (u "*")
  /\ Headers_get "Access-Control-Allow-Methods" h = Some (u "GET, HEAD, OPTIONS")
  /\ Headers_get "Access-Control-Allow-Headers" h = Some (u "Content-Type")
  /\ Headers_get "Access-Control-Max-Age" h = Some (u "86400").

(** The names of the CORS headers, lower-cased. *)
Definition cors_names : list string :=
  [ "access-control-allow-origin"; "access-control-allow-methods";
    "access-control-allow-headers"; "access-control-max-age" ]%string.

(** The upstream headers that the relay removes. *)
Definition removed_headers : list string :=
  [ "set-cookie"; "etag"; "vary"; "accept-ranges"; "content-encoding"; "cf-ray"; "alt-svc" ]%string.

Definition error_of (b : Body) : option jsstring :=
  match b with JsonBody e _ => Some e | _ => None end.

Definition link_provided_of (b : Body) : option jsstring :=
  match b with JsonBody _ l => Some l | _ => None end.

(** The Content-Type that the relay resolves for its response. *)
Definition resolvedContentType (fileResponse : UpstreamResponse) : jsstring :=
  or_else (Headers_get "Content-Type" (up_headers fileResponse)) (u "application/octet-stream").

(** Case-insensitive occurrence of literal characters in a string. *)
Fixpoint occurs (ci : bool) (l s : jsstring) : bool :=
  match lit_match ci l s with
  | Some _ => true
  | None =>
      match s with
      | [] => false
      | _ :: s' => occurs ci l s'
      end
  end.

(** A character that is not a letter is matched by itself only. *)
Definition not_letter (c : N) : bool :=
  (c <? 65) || ((90 <? c) && (c <? 97)) || (122 <? c).

(** Following the words of the claim: the text contains an anchor tag, its
    attributes between <a and the closing >, among them the id
    download-button and the href with value [X]. *)
Definition has_download_anchor (html X : jsstring) : Prop :=
  exists pre attrs post,
    html = pre ++ u "<a" ++ attrs ++ u ">" ++ post
    /\ (62 ∉ attrs)
    /\ includes attrs (u (" id=" +:+ quoted "download-button")) = true
    /\ includes attrs (u (" href=" +:+ dq) ++ X ++ u dq) = true.

(** Following the words of the claim: the text contains an assignment
    [download_url = X] with the http(s) link [X] in double quotes. *)
Definition has_download_url_assignment (html X : jsstring) : Prop :=
  exists pre post,
    html = pre ++ u ("download_url = " +:+ dq) ++ X ++ u dq ++ post
    /\ (u "http://" `prefix_of` X \/ u "https://" `prefix_of` X)
    /\ (34 ∉ X).

(** Sample inputs for the witnesses: a share link, a landing page with the
    download button, a file response, and networks that serve them. *)
Definition sample_link : jsstring := u "https://www.mediafire.com/file/abc123/My+Notes.txt/file".
Definition sample_direct : jsstring := u "https://download123.mediafire.com/xyz/notes.txt".

Definition sample_page : UpstreamResponse :=
  mkUpstream 200 (u "OK") ∅
    (u ("<html><a class='input' id=" +:+ quoted "download-button" +:+ " href="
        +:+ quoted "https://download123.mediafire.com/xyz/notes.txt" +:+ ">Download</a></html>"))
    [].

Definition sample_file : UpstreamResponse :=
  mkUpstream 200 (u "OK")
    (Headers_set "Content-Type" (u "text/plain")
      (Headers_set "Content-Length" (u "3")
        (Headers_set "ETag" (u "abc")
          (Headers_set "Set-Cookie" (u "session=1") ∅))))
    [] [104; 105; 10].

(** A network that answers the landing page with [page] and the direct
    link with [file]; any other fetch is rejected. *)
Definition sample_net (page file : result UpstreamResponse) : Network :=
  fun call =>
    if streq (fetch_url call) sample_link then page
    else if streq (fetch_url call) sample_direct then file
    else Throw (u "fetch failed").

Definition sample_request : Request := mkRequest (u "GET") (Some sample_link) (Some (u "curl/8.0")).

(** The header names that a relayed response can carry. *)
Definition relayed_names : list string :=
  [ "access-control-allow-origin"; "access-control-allow-methods";
    "access-control-allow-headers"; "access-control-max-age";
    "content-type"; "content-length"; "content-disposition" ]%string.

(** The three kinds of response: the answer to a preflight, a JSON error
    made by [createErrorResponse] with a status outside 200 to 299, and
    the relay of a file response with [ok]. *)
Definition response_kind (request : Request) (r : Response) : Prop :=
  (method request = u "OPTIONS" /\ r = mkResponse 204 (set_cors ∅) NoBody)
  \/ (method request <> u "OPTIONS"
      /\ exists message st link,
           createErrorResponse message st link = Ok r /\ message <> []
           /\ (link = None \/ link = require request)
           /\ (200 <=? st) && (st <=? 299) = false)
  \/ (method request <> u "OPTIONS"
      /\ exists file link, ok file = true /\ relay file link = Ok r).

(** The statuses with which a response that has a body can be
    constructed. *)
Definition constructible (status : N) : bool :=
  (200 <=? status) && (status <=? 599) && negb (null_body_status status).

Definition pageErrorMessage (page : UpstreamResponse) : jsstring :=
  u "Error al obtener la p" ++ [225] ++ u "gina de MediaFire: "
  ++ toString (up_status page) ++ u " " ++ up_statusText page.

Definition fileErrorMessage (file : UpstreamResponse) : jsstring :=
  u "Error al descargar el archivo del enlace directo: "
  ++ toString (up_status file) ++ u " " ++ up_statusText file.

(** The language of a pattern, independently of the order in which the
    matcher tries things: [Match ci r w cap cap'] says that the pattern [r]
    matches exactly the characters [w], turning the capture [cap] into
    [cap']. *)
Inductive Match (ci : bool) : regex -> jsstring -> option jsstring -> option jsstring -> Prop :=
| Match_Lit l w cap :
    lit_match ci (u l) w = Some [] -> Match ci (Lit l) w cap cap
| Match_Set1 cl c cap :
    in_class ci cl c = true -> Match ci (Set1 cl) [c] cap cap
| Match_Star cl w cap :
    forallb (in_class ci cl) w = true -> Match ci (Star cl) w cap cap
| Match_Plus cl w cap :
    w <> [] -> forallb (in_class ci cl) w = true -> Match ci (Plus cl) w cap cap
| Match_LazyStar cl w cap :
    forallb (in_class ci cl) w = true -> Match ci (LazyStar cl) w cap cap
| Match_Opt_taken r w cap cap' :
    Match ci r w cap cap' -> Match ci (Opt r) w cap cap'
| Match_Opt_skipped r cap :
    Match ci (Opt r) [] cap cap
| Match_Alt_left r1 r2 w cap cap' :
    Match ci r1 w cap cap' -> Match ci (Alt r1 r2) w cap cap'
| Match_Alt_right r1 r2 w cap cap' :
    Match ci r2 w cap cap' -> Match ci (Alt r1 r2) w cap cap'
| Match_Seq r1 r2 w1 w2 cap cap1 cap2 :
    Match ci r1 w1 cap cap1 -> Match ci r2 w2 cap1 cap2 ->
    Match ci (Seq r1 r2) (w1 ++ w2) cap cap2
| Match_Group r w cap cap' :
    Match ci r w cap cap' -> Match ci (Group r) w cap (Some w).

(** The pattern [r] matches somewhere in [s], with capture [cap]. *)
Definition matches_in (ci : bool) (r : regex) (s : jsstring) (cap : option jsstring) : Prop :=
  exists a w b, s = a ++ w ++ b /\ Match ci r w None cap.

(** The four link patterns, in the order of the handler. *)
Definition link_patterns : list regex :=
  [downloadLinkRegex1; jsDownloadLinkRegex2; dlLinkRegex3; directLinkInScriptRegex].

(** A link that starts with http:// or https://, in either case. *)
Definition is_http_link (c : jsstring) : Prop :=
  is_Some (lit_match true (u "http://") c) \/ is_Some (lit_match true (u "https://") c).

(** Characters of a link that the URL parser copies into the path as they
    are: visible ASCII other than the delimiters of the path, the percent
    sign and the characters of the path percent-encode set. *)
Definition plain_char (c : N) : bool :=
  (32 <? c) && (c <? 127) && negb (in_path_percent_encode_set c)
  && negb ((c =? 47) || (c =? 92) || (c =? 37)).

(** Visible ASCII. *)
Definition visible (c : N) : bool := (32 <? c) && (c <? 127).

(** Visible ASCII other than the question mark and the hash sign, which
    end the path. *)
Definition path_char (c : N) : bool :=
  (32 <? c) && (c <? 127) && negb ((c =? 63) || (c =? 35)).

(** The literals of a list, tried in order with the continuation [k]. *)
Fixpoint try_literals {A} (ci : bool) (k : jsstring -> option jsstring -> option A)
    (ls : list string) (s : jsstring) (cap : option jsstring) : option A :=
  match ls with
  | [] => None
  | e :: ls' =>
      match m ci (Lit e) s cap k with
      | Some a => Some a
      | None => try_literals ci k ls' s cap
      end
  end.

(** A segment that the URL parser copies and that is not a dot segment. *)
Definition plain_segment (seg : jsstring) : Prop :=
  forallb plain_char seg = true /\ seg <> u "." /\ seg <> u "..".

(** The characters of the class of [hashRegex]. *)
Definition alphanumeric (c : N) : bool :=
  ((48 <=? c) && (c <=? 57)) || ((65 <=? c) && (c <=? 90)) || ((97 <=? c) && (c <=? 122)).

(** The alternatives of [file_extension] without docx, xlsx and pptx, and
    pattern 4 with them, to compare with the pattern of the source. *)
Definition file_extension_short : regex :=
  (Lit "zip" || Lit "rar" || Lit "7z" || Lit "exe" || Lit "mp4" || Lit "mp3" || Lit "pdf"
   || Lit "doc" || Lit "xls" || Lit "ppt"
   || Lit "jpg" || Lit "jpeg" || Lit "png" || Lit "gif" || Lit "txt" || Lit "iso"
   || Lit "apk" || Lit "dmg" || Lit "deb" || Lit "rpm" || Lit "tar.gz" || Lit "gz"
   || Lit "bz2" || Lit "xz")%re.

Definition directLinkInScriptRegex_short : regex :=
  (Lit "<script" ++ Star not_gt ++ Lit ">" ++ LazyStar any
   ++ Group (http_url_head ++ Plus url_char ++ Lit "." ++ file_extension_short)
   ++ LazyStar any ++ Lit "</script>")%re.

(** Alternatives between literals, tried from left to right. *)
Definition literal_alternatives (first : string) (others : list string) : regex :=
  fold_left (fun r e => Alt r (Lit e)) others (Lit first).

(** * Properties *)

(** ** The matcher on small inputs *)

(** The priorities of the matcher on small inputs: the greedy run in front
    of the href makes pattern 1 take the last href of the tag; keywords and
    schemes match in either case; pattern 4 backs off to the longest link
    that ends in a listed extension. *)
Example greedy_run_takes_last_href :
  exec true downloadLinkRegex1
    (u ("<a id=" +:+ quoted "download-button" +:+ " href=" +:+ quoted "first"
        +:+ " data-href=" +:+ quoted "last" +:+ ">"))
  = Some (Some (u "last")).
Proof. vm_compute. reflexivity. Qed.

Example keywords_are_case_insensitive :
  extractDirectUrl (u ("VAR  Download_URL=" +:+ quoted "HTTP://d.example/f" +:+ ";"))
  = Some (u "HTTP://d.example/f").
Proof. vm_compute. reflexivity. Qed.

Example script_link_backs_off_to_extension :
  extractDirectUrl (u "<script type=a> x = 'https://d.example/a.tar.gz.zipper'; </script>")
  = Some (u "https://d.example/a.tar.gz.zip").
Proof. vm_compute. reflexivity. Qed.


(** ** Headers *)

Lemma get_set_ne name name' value (h : gmap string (list N)) :
  lower_name name <> lower_name name' ->
  Headers_get name (Headers_set name' value h) = Headers_get name h.
Proof.
  intros Hne. unfold Headers_get, Headers_set.
  rewrite lookup_insert_ne; [reflexivity | congruence].
Qed.

Lemma get_set_eq name name' value (h : gmap string (list N)) :
  lower_name name = lower_name name' ->
  Headers_get name (Headers_set name' value h) = Some value.
Proof.
  intros Heq. unfold Headers_get, Headers_set.
  rewrite Heq. apply lookup_insert_eq.
Qed.

Lemma get_delete_ne name name' (h : gmap string (list N)) :
  lower_name name <> lower_name name' ->
  Headers_get name (Headers_delete name' h) = Headers_get name h.
Proof.
  intros Hne. unfold Headers_get, Headers_delete.
  rewrite lookup_delete_ne; [reflexivity | congruence].
Qed.

Lemma get_delete_eq name name' (h : gmap string (list N)) :
  lower_name name = lower_name name' ->
  Headers_get name (Headers_delete name' h) = None.
Proof.
  intros Heq. unfold Headers_get, Headers_delete.
  rewrite Heq. apply lookup_delete_eq.
Qed.

Lemma cors_set_cors (h : gmap string (list N)) : cors (set_cors h).
Proof.
  unfold cors, set_cors.
  repeat split;
    repeat (first [ rewrite get_set_eq by reflexivity; reflexivity
                  | rewrite get_set_ne by (vm_compute; discriminate) ]).
Qed.

Lemma cors_set name value (h : gmap string (list N)) :
  lower_name name ∉ cors_names -> cors h -> cors (Headers_set name value h).
Proof.
  unfold cors, cors_names. intros Hn (H1 & H2 & H3 & H4).
  repeat split; rewrite get_set_ne; try assumption;
    intros Heq; apply Hn; rewrite <- Heq; apply (bool_decide_unpack _); vm_compute; reflexivity.
Qed.

Lemma cors_delete name (h : gmap string (list N)) :
  lower_name name ∉ cors_names -> cors h -> cors (Headers_delete name h).
Proof.
  unfold cors, cors_names. intros Hn (H1 & H2 & H3 & H4).
  repeat split; rewrite get_delete_ne; try assumption;
    intros Heq; apply Hn; rewrite <- Heq; apply (bool_decide_unpack _); vm_compute; reflexivity.
Qed.

Ltac not_a_cors_name := apply (bool_decide_unpack _); vm_compute; reflexivity.

(** ** The constructor of responses *)

Lemma new_Response_inv b st h r :
  new_Response b st h = Ok r -> r = mkResponse st h b.
Proof.
  unfold new_Response. destruct (negb _); [discriminate|].
  destruct (has_body b && _); [discriminate|]. intros [= <-]. reflexivity.
Qed.

Lemma createErrorResponse_inv message st link r :
  createErrorResponse message st link = Ok r ->
  r = mkResponse st (set_cors (Headers_set "Content-Type" (u "application/json") ∅))
        (JsonBody message (or_else link (u "N/A"))).
Proof. unfold createErrorResponse. apply new_Response_inv. Qed.

Lemma createErrorResponse_constructible message st link :
  constructible st = true ->
  createErrorResponse message st link
  = Ok (mkResponse st (set_cors (Headers_set "Content-Type" (u "application/json") ∅))
          (JsonBody message (or_else link (u "N/A")))).
Proof.
  unfold constructible, createErrorResponse, new_Response. intros H.
  apply andb_true_iff in H. destruct H as [Hr Hn]. rewrite Hr.
  apply negb_true_iff in Hn. rewrite Hn. reflexivity.
Qed.

Lemma createErrorResponse_not_constructible message st link :
  constructible st = false ->
  exists e, createErrorResponse message st link = Throw e.
Proof.
  unfold constructible, createErrorResponse, new_Response. intros H.
  destruct ((200 <=? st) && (st <=? 599)); [|eexists; reflexivity].
  cbn [andb negb] in *. apply negb_false_iff in H. rewrite H. eexists. reflexivity.
Qed.

(** A status outside 200 to 299 with which a response is constructed. *)
Lemma constructible_not_ok st :
  constructible st = true -> (200 <=? st) && (st <=? 299) = false ->
  (300 <=? st) && (st <=? 599) = true /\ st <> 304.
Proof.
  unfold constructible, null_body_status. intros H Hok.
  apply andb_true_iff in H. destruct H as [H Hn].
  apply andb_true_iff in H. destruct H as [H1 H2].
  apply N.leb_le in H1, H2. apply negb_true_iff in Hn.
  split.
  - apply andb_true_iff. split; apply N.leb_le; [|exact H2].
    apply andb_false_iff in Hok. destruct Hok as [Hok | Hok]; apply N.leb_gt in Hok; lia.
  - intros ->. discriminate Hn.
Qed.

Lemma cors_createErrorResponse message st link r :
  createErrorResponse message st link = Ok r -> cors (headers r).
Proof. intros H. apply createErrorResponse_inv in H. subst r. apply cors_set_cors. Qed.

Lemma cors_relayHeaders fileResponse : cors (relayHeaders fileResponse).
Proof.
  unfold relayHeaders.
  destruct (Headers_has _ _); repeat (apply cors_set; [not_a_cors_name|]); apply cors_set_cors.
Qed.

Lemma cors_scrub (h : gmap string (list N)) : cors h -> cors (scrub h).
Proof.
  intros H. unfold scrub. repeat (apply cors_delete; [not_a_cors_name|]). exact H.
Qed.

(** What [relay] returns: the headers of step 6 with the
    Content-Disposition of an inferred name, scrubbed, with the status and
    the body of the file response. *)
Lemma relay_inv fileResponse link r :
  relay fileResponse link = Ok r ->
  exists filename,
    inferFilename (Headers_get "Content-Disposition" (up_headers fileResponse)) link
      (Headers_get "Content-Type" (relayHeaders fileResponse)) = Ok filename
    /\ is_byte_string (attachment filename) = true
    /\ is_header_value (normalize_value (attachment filename)) = true
    /\ r = mkResponse (up_status fileResponse)
             (scrub (Headers_set "Content-Disposition" (normalize_value (attachment filename))
                       (relayHeaders fileResponse)))
             (fetched_body fileResponse).
Proof.
  unfold relay, Headers_set_any.
  destruct (inferFilename _ _ _) as [filename|e]; [|discriminate].
  destruct (is_byte_string _) eqn:Hb; [|discriminate].
  destruct (is_header_value _) eqn:Hv; [|discriminate].
  cbn [negb]. intros [= <-]. exists filename. repeat split; assumption.
Qed.

Lemma cors_relay fileResponse link r :
  relay fileResponse link = Ok r -> cors (headers r).
Proof.
  intros H. apply relay_inv in H. destruct H as (filename & _ & _ & _ & ->).
  cbn [headers]. apply cors_scrub. apply cors_set; [not_a_cors_name|].
  apply cors_relayHeaders.
Qed.

(** ** The kinds of response *)

(** The promise of the handler always resolves, and to one of the three
    kinds of response. *)
Lemma handle_cases net request :
  exists r, (handle net request).1 = Ok r /\ response_kind request r.
Proof.
  assert (Herr : forall message link st,
             message <> [] -> (link = None \/ link = require request) ->
             constructible st = true -> (200 <=? st) && (st <=? 299) = false ->
             method request <> u "OPTIONS" ->
             exists r, createErrorResponse message st link = Ok r /\ response_kind request r).
  { intros message link st Hmsg Hlink Hc Hst Hm.
    eexists. split; [apply createErrorResponse_constructible, Hc|].
    right. left. split; [exact Hm|]. exists message, st, link.
    split; [apply createErrorResponse_constructible, Hc|]. auto. }
  assert (Hcaught : forall e link,
             link = require request -> method request <> u "OPTIONS" ->
             exists r, createErrorResponse (internalErrorMessage e) 500 link = Ok r
                       /\ response_kind request r).
  { intros e link Hlink Hm. apply Herr; [discriminate | right; exact Hlink | | | exact Hm]; reflexivity. }
  assert (Hupstream : forall message link st,
             message <> [] -> link = require request -> method request <> u "OPTIONS" ->
             (200 <=? st) && (st <=? 299) = false ->
             exists r,
               match createErrorResponse message st link with
               | Ok response => Ok response
               | Throw e => createErrorResponse (internalErrorMessage e) 500 link
               end = Ok r /\ response_kind request r).
  { intros message link st Hmsg Hlink Hm Hst.
    destruct (constructible st) eqn:Hc.
    - destruct (Herr message link st) as (r & Hr & Hkind); try assumption;
        [right; exact Hlink|].
      rewrite Hr. exists r. auto.
    - destruct (createErrorResponse_not_constructible message st link Hc) as [e ->].
      apply Hcaught; assumption. }
  unfold handle.
  destruct (streq (method request) (u "OPTIONS")) eqn:Hm.
  { unfold streq in Hm. apply bool_decide_eq_true in Hm.
    eexists. split; [reflexivity|]. left. split; [exact Hm | reflexivity]. }
  unfold streq in Hm. apply bool_decide_eq_false in Hm.
  destruct (negb (truthy _)) eqn:Ht.
  { apply Herr; [discriminate | left; reflexivity | | | exact Hm]; reflexivity. }
  apply negb_false_iff in Ht.
  destruct (require request) as [link|] eqn:Hr; [|discriminate Ht]. simpl default in *.
  destruct (negb (validLink _)).
  { apply Herr; [discriminate | right; reflexivity | | | exact Hm]; reflexivity. }
  unfold pipeline, bind, fetch, lift.
  destruct (net (pageFetch link)) as [page|e]; [|apply Hcaught; auto].
  destruct (negb (ok page)) eqn:Hok.
  { apply negb_true_iff in Hok.
    destruct (Hupstream (pageErrorMessage page) (Some link) (up_status page))
      as (r & Hr' & Hkind); [discriminate | reflexivity | exact Hm | exact Hok |].
    unfold pageErrorMessage in Hr'.
    destruct (createErrorResponse _ (up_status page) _); exists r; auto. }
  destruct (extractDirectUrl _) as [direct|].
  2:{ destruct (Herr extractionFailedMessage (Some link) 500)
        as (r & Hr' & Hkind);
        [discriminate | right; reflexivity | reflexivity | reflexivity | exact Hm |].
      rewrite Hr'. exists r. auto. }
  destruct (net (fileFetch request direct)) as [file|e]; [|apply Hcaught; auto].
  destruct (negb (ok file)) eqn:Hokf.
  { apply negb_true_iff in Hokf.
    destruct (Hupstream (fileErrorMessage file) (Some link) (up_status file))
      as (r & Hr' & Hkind); [discriminate | reflexivity | exact Hm | exact Hokf |].
    unfold fileErrorMessage in Hr'.
    destruct (createErrorResponse _ (up_status file) _); exists r; auto. }
  apply negb_false_iff in Hokf.
  destruct (relay file link) as [r|e] eqn:E; [|apply Hcaught; auto].
  exists r. split; [reflexivity|]. right. right. split; [exact Hm|]. exists file, link. auto.
Qed.

(** C3: every response of the handler, whether the preflight answer, a JSON
    error or a relayed file, carries the four CORS headers with their
    values; and the handler always answers with a response. *)
Theorem every_response_has_cors net request :
  exists r, (handle net request).1 = Ok r /\ cors (headers r).
Proof.
  destruct (handle_cases net request) as (r & Hr & Hkind).
  exists r. split; [exact Hr|].
  destruct Hkind as [(_ & ->) | [(_ & message & st & link & Hc & _) | (_ & file & link & _ & Hrel)]].
  - apply cors_set_cors.
  - eapply cors_createErrorResponse, Hc.
  - eapply cors_relay, Hrel.
Qed.

Lemma removed_after_scrub (h : gmap string (list N)) :
  Forall (fun name => Headers_get name (scrub h) = None) removed_headers.
Proof.
  unfold removed_headers, scrub.
  repeat constructor;
    repeat (first [ rewrite get_delete_eq by reflexivity; reflexivity
                  | rewrite get_delete_ne by (vm_compute; discriminate) ]).
Qed.

Lemma removed_not_in_error message st link r :
  createErrorResponse message st link = Ok r ->
  Forall (fun name => Headers_get name (headers r) = None) removed_headers.
Proof.
  intros H. apply createErrorResponse_inv in H. subst r.
  unfold removed_headers, set_cors. cbn [headers].
  repeat constructor;
    repeat (rewrite get_set_ne by (vm_compute; discriminate)); reflexivity.
Qed.

(** C7: none of set-cookie, etag, vary, accept-ranges, content-encoding,
    cf-ray and alt-svc is a header of a relayed response, whatever headers
    the upstream file response has; the same holds for every response of the
    handler. *)
Theorem removed_headers_never_relayed :
  (forall fileResponse link r,
     relay fileResponse link = Ok r ->
     Forall (fun name => Headers_get name (headers r) = None) removed_headers)
  /\ (forall net request,
     exists r, (handle net request).1 = Ok r
               /\ Forall (fun name => Headers_get name (headers r) = None) removed_headers).
Proof.
  assert (Hrelay : forall fileResponse link r,
             relay fileResponse link = Ok r ->
             Forall (fun name => Headers_get name (headers r) = None) removed_headers).
  { intros fileResponse link r H. apply relay_inv in H.
    destruct H as (filename & _ & _ & _ & ->). apply removed_after_scrub. }
  split; [exact Hrelay|].
  intros net request. destruct (handle_cases net request) as (r & Hr & Hkind).
  exists r. split; [exact Hr|].
  destruct Hkind as [(_ & ->) | [(_ & message & st & link & Hc & _) | (_ & file & link & _ & Hrel)]].
  - unfold removed_headers, set_cors. cbn [headers].
    repeat constructor;
      repeat (rewrite get_set_ne by (vm_compute; discriminate)); reflexivity.
  - eapply removed_not_in_error, Hc.
  - eapply Hrelay, Hrel.
Qed.

Lemma removed_headers_never_relayed_witness :
  let link := u "https://www.mediafire.com/file/abc123/video.mp4/file" in
  let file := mkUpstream 200 (u "OK")
    (Headers_set "Set-Cookie" (u "session=1")
      (Headers_set "ETag" (u "abc")
        (Headers_set "Accept-Ranges" (u "bytes")
          (Headers_set "Content-Type" (u "video/mp4") ∅))))
    [] [0; 1; 2] in
  Headers_get "ETag" (up_headers file) = Some (u "abc")
  /\ exists r, relay file link = Ok r
             /\ Forall (fun name => Headers_get name (headers r) = None) removed_headers.
Proof.
  intros link file. split; [vm_compute; reflexivity|].
  destruct (relay file link) as [r|e] eqn:E; [|vm_compute in E; discriminate E].
  exists r. split; [reflexivity|].
  destruct removed_headers_never_relayed as [H _]. apply (H file link r E).
Defined.

(** ** Link validation *)

Lemma startsWith_prefix s p : startsWith s p = true <-> p `prefix_of` s.
Proof.
  revert s. induction p as [|c p IH]; intros s; simpl.
  - split; [intros _; apply prefix_nil | reflexivity].
  - destruct s as [|d s].
    + split; [discriminate | intros [k Hk]; discriminate].
    + rewrite andb_true_iff, N.eqb_eq, IH. split.
      * intros [-> Hp]. apply prefix_cons, Hp.
      * intros [k Hk]. injection Hk as -> ->. split; [reflexivity | eexists; reflexivity].
Qed.

Lemma streq_true a b : streq a b = true <-> a = b.
Proof. unfold streq. apply bool_decide_eq_true. Qed.

Lemma streq_false a b : streq a b = false <-> a <> b.
Proof. unfold streq. apply bool_decide_eq_false. Qed.

(** C9: on a request that is not a preflight, an absent or empty require
    value gives status 400, a non-empty error and link_provided N/A; a
    non-empty value that starts with neither http://www.mediafire.com/ nor
    https://www.mediafire.com/ gives status 400 with link_provided equal to
    the value; no fetch is issued in either case. *)
Theorem link_validation net request :
  method request <> u "OPTIONS" ->
  ((require request = None \/ require request = Some []) ->
     exists r,
       handle net request = (Ok r, [])
       /\ status r = 400
       /\ (exists e, error_of (body r) = Some e /\ e <> [])
       /\ link_provided_of (body r) = Some (u "N/A"))
  /\ (forall link,
        require request = Some link -> link <> [] ->
        ~ u "http://www.mediafire.com/" `prefix_of` link ->
        ~ u "https://www.mediafire.com/" `prefix_of` link ->
        exists r,
          handle net request = (Ok r, [])
          /\ status r = 400
          /\ link_provided_of (body r) = Some link).
Proof.
  intros Hm. apply streq_false in Hm. unfold handle. rewrite Hm. split.
  - intros [-> | ->]; simpl;
      (eexists; split; [reflexivity|]); (split; [reflexivity|]); (split; [|reflexivity]);
      eexists; (split; [reflexivity | discriminate]).
  - intros link -> Hne H1 H2. simpl.
    destruct link as [|c link]; [contradiction|]. simpl truthy. simpl negb.
    replace (validLink (c :: link)) with false.
    + simpl. eexists. split; [reflexivity|]. split; reflexivity.
    + symmetry. unfold validLink. apply orb_false_iff.
      split; apply not_true_iff_false; rewrite startsWith_prefix; assumption.
Qed.

Lemma link_validation_witness :
  let missing := mkRequest (u "GET") None None in
  let wrong := mkRequest (u "GET") (Some (u "https://mediafire.com/file/abc")) None in
  let net : Network := fun _ => Throw [] in
  (exists r, handle net missing = (Ok r, [])
             /\ status r = 400
             /\ link_provided_of (body r) = Some (u "N/A"))
  /\ (exists r, handle net wrong = (Ok r, [])
                /\ status r = 400
                /\ link_provided_of (body r) = Some (u "https://mediafire.com/file/abc")).
Proof.
  intros missing wrong net.
  assert (Hm : method missing <> u "OPTIONS") by (vm_compute; discriminate).
  assert (Hw : method wrong <> u "OPTIONS") by (vm_compute; discriminate).
  split.
  - destruct (link_validation net missing Hm) as [H _].
    destruct (H (or_introl eq_refl)) as (r & Hr & Hs & _ & Hl). exists r. auto.
  - destruct (link_validation net wrong Hw) as [_ H].
    apply (H (u "https://mediafire.com/file/abc")).
    + reflexivity.
    + vm_compute. discriminate.
    + rewrite <- startsWith_prefix. vm_compute. discriminate.
    + rewrite <- startsWith_prefix. vm_compute. discriminate.
Defined.

(** ** The method *)

(** C10: two requests whose methods are not OPTIONS and that agree on the
    require value and on the User-Agent get the same response, with the same
    fetches, from the same network. *)
Theorem method_only_selects_preflight net r1 r2 :
  method r1 <> u "OPTIONS" -> method r2 <> u "OPTIONS" ->
  require r1 = require r2 -> user_agent r1 = user_agent r2 ->
  handle net r1 = handle net r2.
Proof.
  intros H1 H2 Hr Hu. apply streq_false in H1, H2.
  unfold handle. rewrite H1, H2, Hr.
  destruct (negb (truthy _)); [reflexivity|].
  destruct (negb (validLink _)); [reflexivity|].
  replace (pipeline net r1) with (pipeline net r2); [reflexivity|].
  unfold pipeline, fileFetch. rewrite Hu. reflexivity.
Qed.

Lemma method_only_selects_preflight_witness :
  let net : Network := fun call =>
    if streq (fetch_url call) (u "https://www.mediafire.com/file/abc123/a.txt/file")
    then Ok (mkUpstream 200 (u "OK") ∅ (u "<html></html>") [])
    else Throw (u "unreachable") in
  let link := Some (u "https://www.mediafire.com/file/abc123/a.txt/file") in
  handle net (mkRequest (u "GET") link None) = handle net (mkRequest (u "DELETE") link None).
Proof.
  intros net link.
  apply (method_only_selects_preflight net (mkRequest (u "GET") link None)
           (mkRequest (u "DELETE") link None)).
  - vm_compute. discriminate.
  - vm_compute. discriminate.
  - reflexivity.
  - reflexivity.
Defined.

(** ** Extraction failure *)

Lemma validLink_truthy link : validLink link = true -> truthy link = true.
Proof.
  destruct link; [|reflexivity]. vm_compute. discriminate.
Qed.

(** C8: when the landing page is fetched with a 2xx status and none of the
    four patterns matches its text, the response is the JSON error with
    status 500 and the extraction-failure message, and the only fetch issued
    is the one of the landing page. *)
Theorem no_pattern_gives_extraction_failure net request link page :
  method request <> u "OPTIONS" ->
  require request = Some link ->
  validLink link = true ->
  net (pageFetch link) = Ok page ->
  ok page = true ->
  exec true downloadLinkRegex1 (up_text page) = None ->
  exec true jsDownloadLinkRegex2 (up_text page) = None ->
  exec true dlLinkRegex3 (up_text page) = None ->
  exec true directLinkInScriptRegex (up_text page) = None ->
  handle net request
  = (createErrorResponse extractionFailedMessage 500 (Some link), [pageFetch link])
  /\ exists r,
       createErrorResponse extractionFailedMessage 500 (Some link) = Ok r
       /\ status r = 500
       /\ error_of (body r) = Some extractionFailedMessage.
Proof.
  intros Hm Hr Hv Hn Hok H1 H2 H3 H4. apply streq_false in Hm. split.
  - unfold handle. rewrite Hm, Hr. simpl default.
    rewrite (validLink_truthy _ Hv), Hv. simpl negb. cbv iota.
    unfold pipeline, bind, fetch, lift. rewrite Hn, Hok. simpl negb. cbv iota.
    unfold extractDirectUrl. rewrite H1, H2, H3, H4. reflexivity.
  - rewrite createErrorResponse_constructible by reflexivity.
    eexists. split; [reflexivity|]. split; reflexivity.
Qed.

Lemma no_pattern_gives_extraction_failure_witness :
  let link := u "https://www.mediafire.com/file/abc123/a.txt/file" in
  let page := mkUpstream 200 (u "OK") ∅ (u "<html><body>gone</body></html>") [] in
  let net : Network := fun call =>
    if streq (fetch_url call) link then Ok page else Throw (u "unreachable") in
  let request := mkRequest (u "GET") (Some link) None in
  exists r,
    handle net request = (Ok r, [pageFetch link])
    /\ status r = 500
    /\ error_of (body r) = Some extractionFailedMessage.
Proof.
  intros link page net request.
  destruct (no_pattern_gives_extraction_failure net request link page)
    as (H & r & Hr & Hs & He).
  10: { exists r. rewrite H, Hr. split; [reflexivity|]. split; assumption. }
  - vm_compute. discriminate.
  - reflexivity.
  - vm_compute. reflexivity.
  - vm_compute. reflexivity.
  - vm_compute. reflexivity.
  - vm_compute. reflexivity.
  - vm_compute. reflexivity.
  - vm_compute. reflexivity.
  - vm_compute. reflexivity.
Defined.

(** ** File names *)

Lemma relayHeaders_content_type fileResponse :
  Headers_get "Content-Type" (relayHeaders fileResponse) = Some (resolvedContentType fileResponse).
Proof.
  unfold relayHeaders, resolvedContentType.
  destruct (Headers_has _ _).
  - rewrite get_set_ne by (vm_compute; discriminate). apply get_set_eq. reflexivity.
  - apply get_set_eq. reflexivity.
Qed.

(** The value [attachment; filename=...] starts and ends with characters
    that are not white space, so [headers.set] stores it as it is when it
    accepts the name. *)
Lemma normalize_attachment filename :
  normalize_value (attachment filename) = attachment filename.
Proof.
  unfold normalize_value, attachment.
  change (u "attachment; filename=" ++ u dq ++ filename ++ u dq)
    with (97 :: (u "ttachment; filename=" ++ u dq ++ filename ++ u dq)).
  cbn [drop_while]. change (is_http_whitespace 97) with false. cbv iota.
  change (97 :: (u "ttachment; filename=" ++ u dq ++ filename ++ u dq))
    with ((u "attachment; filename=" ++ u dq ++ filename) ++ [34] ++ []) at 1.
  rewrite app_assoc, app_nil_r, rev_app_distr. cbn [rev app drop_while].
  change (is_http_whitespace 34) with false. cbv iota.
  cbn [rev]. rewrite rev_involutive, <- !app_assoc. reflexivity.
Qed.

Lemma attachment_accepted filename :
  is_byte_string filename = true -> is_header_value filename = true ->
  is_byte_string (attachment filename) = true
  /\ is_header_value (normalize_value (attachment filename)) = true.
Proof.
  intros Hb Hv. rewrite normalize_attachment. unfold attachment, is_byte_string, is_header_value in *.
  rewrite !forallb_app, Hb, Hv. split; reflexivity.
Qed.

Lemma relay_disposition fileResponse link filename :
  inferFilename (Headers_get "Content-Disposition" (up_headers fileResponse)) link
    (Some (resolvedContentType fileResponse)) = Ok filename ->
  is_byte_string filename = true -> is_header_value filename = true ->
  exists r, relay fileResponse link = Ok r
            /\ status r = up_status fileResponse
            /\ Headers_get "Content-Disposition" (headers r) = Some (attachment filename).
Proof.
  intros H Hb Hv. destruct (attachment_accepted filename Hb Hv) as [Hb' Hv'].
  unfold relay, Headers_set_any. rewrite relayHeaders_content_type, H, Hb', Hv'.
  cbn [negb]. rewrite normalize_attachment.
  eexists. split; [reflexivity|]. split; [reflexivity|]. cbn [headers]. unfold scrub.
  repeat (rewrite get_delete_ne by (vm_compute; discriminate)).
  apply get_set_eq. reflexivity.
Qed.

Lemma own_entry_value table key ext :
  own_entry table key = Some ext -> In ext (map (fun kv => u kv.2) table).
Proof.
  induction table as [|[k v] table IH]; simpl; [discriminate|].
  destruct (streq (u k) key).
  - intros [= <-]. left. reflexivity.
  - intros H. right. apply IH, H.
Qed.

(** A Content-Type whose mime is a key of the table is not the empty
    string, and the extension found is not empty either. *)
Lemma known_mime_truthy ct ext :
  own_entry extMap (mimeOf ct) = Some ext -> truthy ct = true /\ truthy ext = true.
Proof.
  intros H. split.
  - destruct ct; [|reflexivity]. vm_compute in H. discriminate.
  - apply own_entry_value in H.
    assert (Hall : forallb truthy (map (fun kv => u kv.2) extMap) = true) by (vm_compute; reflexivity).
    rewrite forallb_forall in Hall. apply Hall, H.
Qed.

Lemma addExtension_known name ct ext :
  includes name (u ".") = false ->
  own_entry extMap (mimeOf ct) = Some ext ->
  addExtension name (Some ct) = if includes name ext then name else name ++ u "." ++ ext.
Proof.
  intros Hdot Hext. destruct (known_mime_truthy _ _ Hext) as [Hct He].
  unfold addExtension, extMap_get. rewrite Hdot, Hct, Hext. cbn [negb andb].
  rewrite He. cbn [negb andb]. rewrite He.
  destruct (includes name ext); reflexivity.
Qed.

Lemma inferFilename_given cd link ct given :
  filenameFromDisposition cd = Ok given -> given <> u "downloaded_file" ->
  inferFilename cd link ct = Ok given.
Proof.
  intros H Hne. unfold inferFilename. rewrite H.
  apply streq_false in Hne. rewrite Hne. reflexivity.
Qed.

Lemma inferFilename_fallback cd link ct :
  filenameFromDisposition cd = Ok (u "downloaded_file") ->
  inferFilename cd link ct
  = Ok (addExtension (filenameFromLink link (u "downloaded_file")) ct).
Proof.
  intros H. unfold inferFilename. rewrite H.
  replace (streq (u "downloaded_file") (u "downloaded_file")) with true; [reflexivity|].
  symmetry. apply streq_true. reflexivity.
Qed.

(** C2: with the upstream header Content-Disposition: attachment;
    filename=report.pdf (the name in double quotes) the relayed name is
    report.pdf; without that header and with the link path
    /file/abc123/My+File/file the name recovered from the link is My File,
    and the relayed name is My File followed by a dot and the extension that
    the table gives for the resolved Content-Type. *)
Theorem filename_inference_examples :
  (forall fileResponse link,
     Headers_get "Content-Disposition" (up_headers fileResponse)
       = Some (u ("attachment; filename=" +:+ quoted "report.pdf")) ->
     exists r, relay fileResponse link = Ok r
               /\ Headers_get "Content-Disposition" (headers r) = Some (attachment (u "report.pdf")))
  /\ (forall fileResponse link ext,
     Headers_get "Content-Disposition" (up_headers fileResponse) = None ->
     URL_pathname link = Ok (u "/file/abc123/My+File/file") ->
     own_entry extMap (mimeOf (resolvedContentType fileResponse)) = Some ext ->
     filenameFromLink link (u "downloaded_file") = u "My File"
     /\ exists r, relay fileResponse link = Ok r
               /\ Headers_get "Content-Disposition" (headers r)
                  = Some (attachment (u "My File." ++ ext))).
Proof.
  split.
  - intros fileResponse link Hcd.
    destruct (relay_disposition fileResponse link (u "report.pdf")) as (r & Hr & _ & Hh).
    + rewrite Hcd. apply inferFilename_given.
      * vm_compute. reflexivity.
      * vm_compute. discriminate.
    + reflexivity.
    + reflexivity.
    + exists r. split; assumption.
  - intros fileResponse link ext Hcd Hpath Hext.
    assert (Hname : filenameFromLink link (u "downloaded_file") = u "My File").
    { unfold filenameFromLink. rewrite Hpath. vm_compute. reflexivity. }
    split; [exact Hname|].
    destruct (relay_disposition fileResponse link (u "My File." ++ ext)) as (r & Hr & _ & Hh).
    + rewrite Hcd, inferFilename_fallback by reflexivity.
      rewrite Hname, (addExtension_known _ _ ext); [| vm_compute; reflexivity | exact Hext].
      assert (Hall : forallb (fun e => negb (includes (u "My File") e))
                       (map (fun kv => u kv.2) extMap) = true) by (vm_compute; reflexivity).
      rewrite forallb_forall in Hall.
      specialize (Hall ext (own_entry_value _ _ _ Hext)).
      apply negb_true_iff in Hall. rewrite Hall.
      reflexivity.
    + assert (Hall : forallb is_byte_string (map (fun kv => u kv.2) extMap) = true)
        by (vm_compute; reflexivity).
      rewrite forallb_forall in Hall.
      unfold is_byte_string. rewrite forallb_app. apply andb_true_iff.
      split; [reflexivity | apply (Hall ext (own_entry_value _ _ _ Hext))].
    + assert (Hall : forallb is_header_value (map (fun kv => u kv.2) extMap) = true)
        by (vm_compute; reflexivity).
      rewrite forallb_forall in Hall.
      unfold is_header_value. rewrite forallb_app. apply andb_true_iff.
      split; [reflexivity | apply (Hall ext (own_entry_value _ _ _ Hext))].
    + exists r. split; assumption.
Qed.

Lemma filename_inference_examples_witness :
  let link := u "https://www.mediafire.com/file/abc123/My+File/file" in
  let given := mkUpstream 200 (u "OK")
    (Headers_set "Content-Disposition" (u ("attachment; filename=" +:+ quoted "report.pdf")) ∅)
    [] [80; 68; 70] in
  let bare := mkUpstream 200 (u "OK") (Headers_set "Content-Type" (u "video/mp4") ∅)
    [] [0; 1; 2] in
  (exists r, relay given link = Ok r
             /\ Headers_get "Content-Disposition" (headers r) = Some (attachment (u "report.pdf")))
  /\ (exists r, relay bare link = Ok r
             /\ Headers_get "Content-Disposition" (headers r) = Some (attachment (u "My File.mp4"))).
Proof.
  intros link given bare.
  destruct filename_inference_examples as [HA HB]. split.
  - apply (HA given link). vm_compute. reflexivity.
  - apply (HB bare link (u "mp4")).
    + vm_compute. reflexivity.
    + vm_compute. reflexivity.
    + vm_compute. reflexivity.
Defined.




(** C4: the decoding of a name taken from the upstream Content-Disposition
    is outside the inner try block.  With the upstream header
    Content-Disposition: attachment; filename=100%.pdf (the name in double
    quotes) on a 200 file response, decodeURIComponent throws and the
    handler answers with the status 500 error, although the same malformed
    escape in the link path is swallowed and leaves the default name. *)
Theorem malformed_disposition_name_fails_request :
  let link := u "https://www.mediafire.com/file/abc123/100%25%.pdf/file" in
  let direct := u "https://download.example/100.pdf" in
  let page := mkUpstream 200 (u "OK") ∅
    (u ("<a id=" +:+ quoted "download-button" +:+ " href=" +:+ quoted "https://download.example/100.pdf" +:+ ">"))
    [] in
  let file := mkUpstream 200 (u "OK")
    (Headers_set "Content-Disposition" (u ("attachment; filename=" +:+ quoted "100%.pdf")) ∅)
    [] [37; 80; 68; 70] in
  let net : Network := fun call =>
    if streq (fetch_url call) link then Ok page
    else if streq (fetch_url call) direct then Ok file
    else Throw (u "unreachable") in
  let request := mkRequest (u "GET") (Some link) None in
  ok file = true
  /\ decodeURIComponent (u "100%.pdf") = Throw URIError
  /\ (exists r, (handle net request).1 = Ok r
                /\ status r = 500
                /\ error_of (body r) = Some (internalErrorMessage URIError))
  /\ filenameFromLink link (u "downloaded_file") = u "downloaded_file"
  /\ inferFilename None link (Some (u "application/pdf")) = Ok (u "downloaded_file.pdf").
Proof.
  intros link direct page file net request.
  split; [reflexivity|]. split; [vm_compute; reflexivity|]. split.
  { eexists. split; [vm_compute; reflexivity|]. split; reflexivity. }
  split; vm_compute; reflexivity.
Qed.

(** ** decodeURIComponent terminates within its fuel *)

Lemma escape_octet_length s b rest :
  escape_octet s = Some (b, rest) -> length s = (3 + length rest)%nat.
Proof.
  unfold escape_octet. destruct s as [|c [|h [|l s]]]; try discriminate;
    try (destruct c as [|p0]; [discriminate|]; repeat (destruct p0 as [p0|p0|]; try discriminate)).
  destruct (hexval h), (hexval l); try discriminate. intros [= _ <-]. reflexivity.
Qed.

Lemma escape_octets_length n s bs rest :
  escape_octets n s = Some (bs, rest) -> (length rest <= length s)%nat.
Proof.
  revert s bs rest. induction n as [|n IH]; intros s bs rest; simpl.
  - intros [= _ <-]. lia.
  - destruct (escape_octet s) as [[b s1]|] eqn:E; [|discriminate].
    destruct (escape_octets n s1) as [[bs' s2]|] eqn:E'; [|discriminate].
    intros [= _ <-]. apply escape_octet_length in E. apply IH in E'. lia.
Qed.

(** Any fuel of at least the length of the string gives the same result,
    so the exhaustion of the fuel is never what [decodeURIComponent]
    reports. *)
Lemma decode_fuel n1 n2 s :
  (length s <= n1)%nat -> (length s <= n2)%nat -> decode n1 s = decode n2 s.
Proof.
  revert n2 s. induction n1 as [|n1 IH]; intros n2 s H1 H2.
  - destruct s; [destruct n2; reflexivity | simpl in H1; lia].
  - destruct s as [|c s]; [destruct n2; reflexivity|].
    destruct n2 as [|n2]; [simpl in H2; lia|].
    simpl in H1, H2. cbn [decode].
    destruct (c =? 37).
    + destruct (escape_octet (c :: s)) as [[b rest]|] eqn:E; [|reflexivity].
      apply escape_octet_length in E. simpl in E.
      destruct (leading_ones b) as [|[|n']].
      * rewrite (IH n2 rest) by lia. reflexivity.
      * reflexivity.
      * destruct (3 <? S n')%nat; [reflexivity|].
        destruct (escape_octets (S n') rest) as [[octets rest']|] eqn:E'; [|reflexivity].
        apply escape_octets_length in E'.
        destruct (utf8_code_point b octets); [|reflexivity].
        rewrite (IH n2 rest') by lia. reflexivity.
    + rewrite (IH n2 s) by lia. reflexivity.
Qed.

(** ** The matcher *)

Lemma canon_not_letter ci c d :
  not_letter c = true -> (canon ci c =? canon ci d) = true -> d = c.
Proof.
  unfold not_letter, canon. intros Hc H. apply N.eqb_eq in H.
  destruct ci; cbn [andb] in H;
    repeat match type of H with
           | context [if ?b then _ else _] => destruct b eqn:?
           end;
    repeat match goal with
           | E : (_ && _) = true |- _ => apply andb_true_iff in E; destruct E
           | E : (_ && _) = false |- _ => apply andb_false_iff in E; destruct E
           | E : (_ || _) = true |- _ => apply orb_true_iff in E; destruct E
           | E : (_ <=? _) = true |- _ => apply N.leb_le in E
           | E : (_ <=? _) = false |- _ => apply N.leb_gt in E
           | E : (_ <? _) = true |- _ => apply N.ltb_lt in E
           | E : (_ <? _) = false |- _ => apply N.ltb_ge in E
           end;
    lia.
Qed.

Section MatcherFacts.
Context {A : Type}.
Variable ci : bool.

Lemma lit_match_suffix l s s' :
  lit_match ci l s = Some s' -> exists a, s = a ++ s' /\ length a = length l.
Proof.
  revert s. induction l as [|c l IH]; intros s; simpl.
  - intros [= <-]. exists []. split; reflexivity.
  - destruct s as [|d s]; [discriminate|].
    destruct (canon ci c =? canon ci d); [|discriminate].
    intros H. destruct (IH _ H) as (a & -> & Hlen).
    exists (d :: a). split; [reflexivity | simpl; congruence].
Qed.

(** A literal matched on [q ++ c :: R], where [q] is not empty and [c]
    matches no character of the literal after the first, lies within
    [q]. *)
Lemma lit_match_within l q c R s' :
  lit_match ci l (q ++ c :: R) = Some s' ->
  q <> [] ->
  Forall (fun x => (canon ci x =? canon ci c) = false) (tail l) ->
  exists q', lit_match ci l q = Some q' /\ s' = q' ++ c :: R.
Proof.
  revert q. induction l as [|x l IH]; intros q; simpl.
  - intros [= <-] _ _. exists q. split; reflexivity.
  - intros H Hq Hl. destruct q as [|d q]; [contradiction|]. simpl in H.
    destruct (canon ci x =? canon ci d); [|discriminate].
    destruct q as [|e q].
    + simpl in H. destruct l as [|y l].
      * injection H as <-. exists []. split; reflexivity.
      * simpl in H. apply Forall_cons in Hl. destruct Hl as [Hy _].
        rewrite Hy in H. discriminate.
    + apply IH in H; [exact H | discriminate |].
      destruct l; [constructor | apply Forall_cons in Hl; apply Hl].
Qed.

Lemma occurs_here l s : occurs ci l s = false -> lit_match ci l s = None.
Proof.
  destruct s; simpl; destruct (lit_match ci l _); congruence.
Qed.

Lemma occurs_tail l c s : occurs ci l (c :: s) = false -> occurs ci l s = false.
Proof.
  simpl. destruct (lit_match ci l (c :: s)); congruence.
Qed.

Lemma occurs_suffix l a s : occurs ci l (a ++ s) = false -> occurs ci l s = false.
Proof.
  induction a as [|c a IH]; simpl app; [tauto|].
  intros H. apply IH. eapply occurs_tail, H.
Qed.

(** What a literal leaves of a string in which it does not occur. *)
Lemma lit_match_keeps_absent l l' s s' :
  occurs ci l s = false -> lit_match ci l' s = Some s' -> occurs ci l s' = false.
Proof.
  intros H Hm. apply lit_match_suffix in Hm. destruct Hm as (a & -> & _).
  eapply occurs_suffix, H.
Qed.

Variable p : N -> bool.
Variable k : jsstring -> option A.

Lemma star_g_skip c s :
  k (c :: s) = None -> star_g p s k = None -> star_g p (c :: s) k = None.
Proof.
  intros Hk Hs. simpl. rewrite Hs. destruct (p c); exact Hk.
Qed.

Lemma star_g_pass c s a :
  p c = true -> star_g p s k = Some a -> star_g p (c :: s) k = Some a.
Proof.
  intros Hp Hs. simpl. rewrite Hp, Hs. reflexivity.
Qed.

Lemma star_g_stay c s :
  star_g p s k = None -> star_g p (c :: s) k = k (c :: s).
Proof.
  intros Hs. simpl. rewrite Hs. destruct (p c); reflexivity.
Qed.

Lemma star_g_stop c s :
  p c = false -> star_g p (c :: s) k = k (c :: s).
Proof.
  intros Hp. simpl. rewrite Hp. reflexivity.
Qed.

(** No continuation succeeds inside [q], nor after it. *)
Lemma star_g_none_app q R :
  (forall a q', q = a ++ q' -> q' <> [] -> k (q' ++ R) = None) ->
  star_g p R k = None ->
  star_g p (q ++ R) k = None.
Proof.
  intros Hk HR. induction q as [|c q IH]; [exact HR|].
  simpl app. apply star_g_skip.
  - apply (Hk [] (c :: q)); [reflexivity | discriminate].
  - apply IH. intros a q' -> Hq'. apply (Hk (c :: a) q'); [reflexivity | exact Hq'].
Qed.

(** The greedy run takes all of [q] when the continuation succeeds after
    it and [R] cannot extend the run. *)
Lemma star_g_all q R a :
  forallb p q = true ->
  star_g p R k = Some a ->
  star_g p (q ++ R) k = Some a.
Proof.
  intros Hq HR. induction q as [|c q IH]; [exact HR|].
  simpl in Hq. apply andb_true_iff in Hq. destruct Hq as [Hc Hq].
  simpl app. apply star_g_pass; [exact Hc | apply IH, Hq].
Qed.

(** Whatever is in front, the outcome is the one after [q] or a failure,
    as long as the continuation fails inside [q]. *)
Lemma star_g_front q R a :
  (forall b q', q = b ++ q' -> q' <> [] -> k (q' ++ R) = None) ->
  star_g p R k = Some a ->
  star_g p (q ++ R) k = Some a \/ star_g p (q ++ R) k = None.
Proof.
  intros Hk HR. induction q as [|c q IH]; [left; exact HR|].
  simpl app. simpl star_g.
  assert (Hc : k (c :: q ++ R) = None)
    by (apply (Hk [] (c :: q)); [reflexivity | discriminate]).
  destruct (p c); [|right; exact Hc].
  destruct IH as [-> | ->].
  - intros b q' -> Hq'. apply (Hk (c :: b) q'); [reflexivity | exact Hq'].
  - left. reflexivity.
  - right. exact Hc.
Qed.
End MatcherFacts.

Lemma lit_match_self ci l s : lit_match ci l (l ++ s) = Some s.
Proof.
  induction l as [|c l IH]; simpl; [reflexivity|].
  rewrite N.eqb_refl. exact IH.
Qed.

Lemma in_class_not_quote c : c <> 34 -> in_class true not_quote c = true.
Proof.
  intros Hc. unfold in_class, not_quote. cbn [negated items existsb in_item xorb orb].
  change (chr dq) with 34.
  destruct (canon true c =? canon true 34) eqn:E; [|reflexivity].
  rewrite N.eqb_sym in E. apply canon_not_letter in E; [contradiction | reflexivity].
Qed.

Lemma forallb_not_quote X : 34 ∉ X -> forallb (in_class true not_quote) X = true.
Proof.
  induction X as [|x X IH]; [reflexivity|].
  intros H. apply not_elem_of_cons in H. destruct H as [Hx HX].
  simpl. rewrite in_class_not_quote by congruence. apply IH, HX.
Qed.

Lemma take_captured (X R : list N) : take (length (X ++ R) - length R) (X ++ R) = X.
Proof.
  rewrite length_app. replace (length X + length R - length R)%nat with (length X) by lia.
  apply take_app_length.
Qed.

Lemma lit_match_cons_inv ci x l d s s' :
  lit_match ci (x :: l) (d :: s) = Some s' ->
  (canon ci x =? canon ci d) = true /\ lit_match ci l s = Some s'.
Proof.
  simpl. destruct (canon ci x =? canon ci d); [tauto | discriminate].
Qed.

(** Inversion of a literal matched on an input whose first characters are
    known: one equation for each pair of characters. *)
Ltac lit_inversion E :=
  repeat (let H := fresh "Hc" in
          apply lit_match_cons_inv in E; destruct E as [H E]).

(** A comparison of two given characters that fails. *)
Ltac absurd_comparison :=
  match goal with
  | H : (canon _ ?x =? canon _ ?y) = true |- _ =>
      tryif is_var y then fail else (vm_compute in H; discriminate H)
  end.

(** ** Pattern 1 on an anchor with the id before the href *)

Lemma in_class_not_gt c : c <> 62 -> in_class true not_gt c = true.
Proof.
  intros Hc. unfold in_class, not_gt. cbn [negated items existsb in_item xorb orb].
  change (chr ">") with 62.
  destruct (canon true c =? canon true 62) eqn:E; [|reflexivity].
  rewrite N.eqb_sym in E. apply canon_not_letter in E; [contradiction | reflexivity].
Qed.

Lemma forallb_not_gt l : 62 ∉ l -> forallb (in_class true not_gt) l = true.
Proof.
  induction l as [|x l IH]; [reflexivity|].
  intros H. apply not_elem_of_cons in H. destruct H as [Hx Hl].
  cbn [forallb]. rewrite in_class_not_gt by congruence. apply IH, Hl.
Qed.

Lemma occurs_found ci l s s' : lit_match ci l s = Some s' -> occurs ci l s = true.
Proof. intros H. destruct s; cbn [occurs]; rewrite H; reflexivity. Qed.

Lemma occurs_app_r ci l a s : occurs ci l s = true -> occurs ci l (a ++ s) = true.
Proof.
  intros H. destruct (occurs ci l (a ++ s)) eqn:E; [reflexivity|].
  apply occurs_suffix in E. congruence.
Qed.

(** The outcome of a greedy run whose continuation gives [a] or fails,
    wherever it is tried. *)
Lemma star_g_either {A} (p : N -> bool) (k : jsstring -> option A) q R a :
  (forall b q', q = b ++ q' -> k (q' ++ R) = Some a \/ k (q' ++ R) = None) ->
  star_g p R k = Some a \/ star_g p R k = None ->
  star_g p (q ++ R) k = Some a \/ star_g p (q ++ R) k = None.
Proof.
  intros Hk HR. induction q as [|c q IH]; [exact HR|].
  cbn [app star_g].
  assert (Hc : k (c :: q ++ R) = Some a \/ k (c :: q ++ R) = None)
    by apply (Hk [] (c :: q) eq_refl).
  destruct (p c); [|exact Hc].
  destruct IH as [-> | ->]; [|left; reflexivity | exact Hc].
  intros b q' ->. apply (Hk (c :: b) q' eq_refl).
Qed.

Lemma star_g_first {A} (p : N -> bool) (k : jsstring -> option A) c s a :
  p c = true -> star_g p s k = Some a \/ star_g p s k = None ->
  k (c :: s) = Some a -> star_g p (c :: s) k = Some a.
Proof.
  intros Hp Hs Hk. cbn [star_g]. rewrite Hp. destruct Hs as [-> | ->]; [reflexivity | exact Hk].
Qed.

(** A suffix of [l1 ++ l2] contains [l2], or is a proper suffix of it. *)
Lemma suffix_cases {A} (l1 l2 a q : list A) :
  l1 ++ l2 = a ++ q ->
  (exists b, l1 = a ++ b /\ q = b ++ l2)
  \/ (exists a2, a2 <> [] /\ l2 = a2 ++ q).
Proof.
  intros H. apply app_eq_app in H. destruct H as [l [[-> ->] | [-> ->]]].
  - left. exists l. split; reflexivity.
  - destruct l as [|x l].
    + left. exists []. rewrite !app_nil_r. split; reflexivity.
    + right. exists (x :: l). split; [discriminate | reflexivity].
Qed.

Section DownloadButtonAnchor.
Variables A1 A2 X T post : list N.
Hypothesis A1_in_tag : 62 ∉ A1.
Hypothesis A2_in_tag : 62 ∉ A2.
Hypothesis X_not_empty : X <> [].
Hypothesis X_no_quote : 34 ∉ X.
Hypothesis href_is_last : occurs true (u ("href=" +:+ dq)) (X ++ 34 :: T) = false.

Let R : list N := 62 :: post.
Let ID : list N := u ("id=" +:+ quoted "download-button").
Let HREF : list N := u ("href=" +:+ dq).
Let r_href : regex := (Lit ("href=" +:+ dq) ++ Group (Plus not_quote) ++ Lit dq)%re.
Let r_id : regex :=
  (Lit ("id=" +:+ quoted "download-button") ++ Star not_gt ++ r_href)%re.
Let k0 : jsstring -> option jsstring -> option (option jsstring) := fun _ cap => Some cap.
Let gt := in_class true not_gt.

(** The tag from its href on, what comes before in the tag, and the tag. *)
Let from_href : list N := HREF ++ X ++ 34 :: T.
Let front : list N := 60 :: 97 :: A1 ++ ID ++ A2.
Let anchor : list N := front ++ from_href ++ R.

Lemma front_in_tag : 62 ∉ front.
Proof.
  unfold front. apply not_elem_of_cons. split; [discriminate|].
  apply not_elem_of_cons. split; [discriminate|].
  apply not_elem_of_app. split; [exact A1_in_tag|].
  apply not_elem_of_app. split; [|exact A2_in_tag].
  apply (bool_decide_unpack _). vm_compute. reflexivity.
Qed.

(** After the href of the tag, the href literal matches nowhere. *)
Lemma href_not_after a q cap :
  from_href = a ++ q -> a <> [] -> m true r_href (q ++ R) cap k0 = None.
Proof.
  intros Hq Ha. cbn [m r_href].
  destruct (lit_match true (u ("href=" +:+ dq)) (q ++ R)) as [s'|] eqn:E; [exfalso|reflexivity].
  unfold from_href, HREF in Hq.
  let l := eval vm_compute in (u ("href=" +:+ dq)) in
  change (u ("href=" +:+ dq) ++ X ++ 34 :: T) with (l ++ X ++ 34 :: T) in Hq.
  cbn [app] in Hq.
  destruct a as [|c1 [|c2 [|c3 [|c4 [|c5 [|c6 a]]]]]]; [contradiction|..];
    cbn [app] in Hq; injection Hq; clear Hq; intros; subst.
  1-5: let l := eval vm_compute in (u ("href=" +:+ dq)) in
       change (u ("href=" +:+ dq)) with l in E;
       cbn [app] in E; apply lit_match_cons_inv in E; destruct E as [Hc _];
       vm_compute in Hc; discriminate Hc.
  destruct q as [|d q].
  - let l := eval vm_compute in (u ("href=" +:+ dq)) in
    change (u ("href=" +:+ dq)) with l in E.
    unfold R in E. cbn [app] in E. apply lit_match_cons_inv in E. destruct E as [Hc _].
    vm_compute in Hc. discriminate Hc.
  - unfold R in E. apply lit_match_within in E; [|discriminate|].
    + destruct E as (q' & E & _). apply occurs_found in E.
      apply (occurs_app_r true _ a) in E.
      match goal with Hq : X ++ 34 :: T = a ++ d :: q |- _ => rewrite <- Hq in E end.
      congruence.
    + apply (bool_decide_unpack _). vm_compute. reflexivity.
Qed.

Lemma href_not_at_end cap : m true r_href R cap k0 = None.
Proof. reflexivity. Qed.

(** At the href, the group captures the value. *)
Lemma href_here cap : m true r_href (from_href ++ R) cap k0 = Some (Some X).
Proof.
  cbn [m r_href]. unfold from_href, HREF. rewrite <- !app_assoc. rewrite lit_match_self.
  destruct X as [|x X'] eqn:EX; [contradiction|].
  apply not_elem_of_cons in X_no_quote. destruct X_no_quote as [Hx HX'].
  cbn [app]. rewrite in_class_not_quote by congruence.
  apply star_g_all; [apply forallb_not_quote, HX'|].
  rewrite star_g_stop by reflexivity.
  change (lit_match true (u dq) (34 :: T ++ R)) with (Some (T ++ R)).
  cbv beta iota. unfold k0. do 2 f_equal.
  apply (take_captured (x :: X') (34 :: T ++ R)).
Qed.

(** From a later place of the tag, the second greedy run finds no href. *)
Lemma no_href_after a q cap :
  from_href = a ++ q -> a <> [] ->
  star_g gt (q ++ R) (fun s' => m true r_href s' cap k0) = None.
Proof.
  intros Hq Ha. apply star_g_none_app.
  - intros a' q' -> Hq'. apply (href_not_after (a ++ a') q').
    + rewrite Hq, app_assoc. reflexivity.
    + destruct a; [contradiction | discriminate].
  - unfold R. rewrite star_g_stop by reflexivity. reflexivity.
Qed.

(** From the href or from anywhere before it in the tag, the second greedy
    run stops in front of the href of the tag, the last one. *)
Lemma last_href_found b cap :
  62 ∉ b ->
  star_g gt (b ++ from_href ++ R) (fun s' => m true r_href s' cap k0) = Some (Some X).
Proof.
  intros Hb. apply star_g_all; [apply forallb_not_gt, Hb|].
  pose proof (href_here cap) as Hhere. revert Hhere.
  pose proof (no_href_after [104]) as Hafter. revert Hafter.
  unfold from_href, HREF.
  let l := eval vm_compute in (u ("href=" +:+ dq)) in change (u ("href=" +:+ dq)) with l.
  cbn [app]. intros Hafter Hhere.
  rewrite star_g_stay; [exact Hhere|].
  apply (Hafter _ cap eq_refl). discriminate.
Qed.

(** Wherever the id literal matches in the tag, the rest of the pattern
    captures the value or fails. *)
Lemma id_anywhere a q :
  front ++ from_href = a ++ q ->
  m true r_id (q ++ R) None k0 = Some (Some X) \/ m true r_id (q ++ R) None k0 = None.
Proof.
  intros Hq. cbn [m r_id].
  destruct (lit_match true (u ("id=" +:+ quoted "download-button")) (q ++ R))
    as [s'|] eqn:E; [|right; reflexivity].
  destruct q as [|d q].
  { exfalso.
    let l := eval vm_compute in (u ("id=" +:+ quoted "download-button")) in
    change (u ("id=" +:+ quoted "download-button")) with l in E.
    unfold R in E. cbn [app] in E. apply lit_match_cons_inv in E. destruct E as [Hc _].
    vm_compute in Hc. discriminate Hc. }
  unfold R in E. apply lit_match_within in E; [|discriminate|].
  2:{ apply (bool_decide_unpack _). vm_compute. reflexivity. }
  destruct E as (q' & E & ->). apply lit_match_suffix in E. destruct E as (w & Hw & _).
  rewrite Hw, app_assoc in Hq.
  destruct (suffix_cases _ _ _ _ Hq) as [(b & Hfront & ->) | (a2 & Ha2 & Hfrom)].
  - left. rewrite <- app_assoc. apply last_href_found.
    pose proof front_in_tag as Hf. rewrite Hfront in Hf.
    apply not_elem_of_app in Hf. apply Hf.
  - right. apply (no_href_after a2 q' None Hfrom Ha2).
Qed.

(** The first greedy run, from the id or from anywhere before it in the
    tag. *)
Lemma id_found b :
  62 ∉ b -> front = b ++ ID ++ A2 ->
  star_g gt (ID ++ A2 ++ from_href ++ R) (fun s' => m true r_id s' None k0) = Some (Some X).
Proof.
  intros Hb Hfront.
  assert (Hhere : m true r_id (ID ++ A2 ++ from_href ++ R) None k0 = Some (Some X)).
  { cbn [m r_id]. unfold ID. rewrite lit_match_self. apply last_href_found, A2_in_tag. }
  assert (Hlater : forall a q, ID ++ A2 ++ from_href = a ++ q ->
             m true r_id (q ++ R) None k0 = Some (Some X)
             \/ m true r_id (q ++ R) None k0 = None).
  { intros a q Hq. apply (id_anywhere (b ++ a) q).
    rewrite Hfront, <- !app_assoc, Hq. reflexivity. }
  change (ID ++ A2 ++ from_href ++ R)
    with (105 :: u ("d=" +:+ quoted "download-button") ++ A2 ++ from_href ++ R).
  apply star_g_first; [reflexivity | | exact Hhere].
  replace (u ("d=" +:+ quoted "download-button") ++ A2 ++ from_href ++ R)
    with ((u ("d=" +:+ quoted "download-button") ++ A2 ++ from_href) ++ R)
    by (rewrite <- !app_assoc; reflexivity).
  apply star_g_either.
  - intros b' q' Hq'. apply (Hlater (105 :: b') q').
    change (ID ++ A2 ++ from_href)
      with (105 :: u ("d=" +:+ quoted "download-button") ++ A2 ++ from_href).
    rewrite Hq'. reflexivity.
  - unfold R. rewrite star_g_stop by reflexivity. right. reflexivity.
Qed.

Lemma tag_found b :
  62 ∉ b -> (exists b', front = b' ++ b ++ ID ++ A2) ->
  star_g gt (b ++ ID ++ A2 ++ from_href ++ R) (fun s' => m true r_id s' None k0)
  = Some (Some X).
Proof.
  intros Hb (b' & Hfront). apply star_g_all; [apply forallb_not_gt, Hb|].
  apply (id_found (b' ++ b)).
  - pose proof front_in_tag as Hf. rewrite Hfront, !app_assoc in Hf.
    apply not_elem_of_app in Hf. destruct Hf as [Hf _].
    apply not_elem_of_app in Hf. apply Hf.
  - rewrite Hfront, <- app_assoc. reflexivity.
Qed.

Lemma anchor_eq : anchor = 60 :: 97 :: A1 ++ ID ++ A2 ++ from_href ++ R.
Proof.
  unfold anchor, front.
  change ((60 :: 97 :: A1 ++ ID ++ A2) ++ from_href ++ R)
    with (60 :: 97 :: (A1 ++ ID ++ A2) ++ from_href ++ R).
  rewrite <- !app_assoc. reflexivity.
Qed.

Lemma pattern1_at_anchor : match_here true downloadLinkRegex1 anchor = Some (Some X).
Proof.
  rewrite anchor_eq. unfold match_here.
  change (m true downloadLinkRegex1 (60 :: 97 :: A1 ++ ID ++ A2 ++ from_href ++ R) None
            (fun _ cap => Some cap))
    with (star_g gt (A1 ++ ID ++ A2 ++ from_href ++ R) (fun s' => m true r_id s' None k0)).
  apply tag_found; [exact A1_in_tag|]. exists [60; 97]. reflexivity.
Qed.

(** In front of the anchor, where the id literal does not occur, the
    pattern finds this anchor or nothing. *)
Lemma pattern1_before_anchor q :
  occurs true ID q = false -> q <> [] ->
  match_here true downloadLinkRegex1 (q ++ anchor) = Some (Some X)
  \/ match_here true downloadLinkRegex1 (q ++ anchor) = None.
Proof.
  intros Hocc Hq. unfold match_here. cbn [m downloadLinkRegex1].
  destruct (lit_match true (u "<a") (q ++ anchor)) as [s'|] eqn:E; [|right; reflexivity].
  rewrite anchor_eq in E.
  apply lit_match_within in E; [|exact Hq|repeat constructor].
  destruct E as (q' & Hq' & ->).
  pose proof (lit_match_keeps_absent _ _ _ _ _ Hocc Hq') as Hocc'.
  apply (star_g_front (in_class true not_gt) (fun s' => m true r_id s' None k0)
           q' (60 :: 97 :: A1 ++ ID ++ A2 ++ from_href ++ R)).
  - intros b q'' -> Hne. cbn [m r_id].
    destruct (lit_match true (u ("id=" +:+ quoted "download-button"))
                (q'' ++ 60 :: 97 :: A1 ++ ID ++ A2 ++ from_href ++ R)) as [s'|] eqn:E;
      [exfalso|reflexivity].
    apply lit_match_within in E; [|exact Hne|].
    + destruct E as (q3 & E & _).
      apply occurs_suffix, occurs_here in Hocc'. unfold ID in Hocc'. congruence.
    + apply (bool_decide_unpack _). vm_compute. reflexivity.
  - apply (tag_found (60 :: 97 :: A1)).
    + apply not_elem_of_cons. split; [discriminate|].
      apply not_elem_of_cons. split; [discriminate | exact A1_in_tag].
    + exists []. reflexivity.
Qed.

Lemma pattern1_finds_anchor pre :
  occurs true ID pre = false ->
  exec true downloadLinkRegex1 (pre ++ anchor) = Some (Some X).
Proof.
  induction pre as [|c pre IH]; intros Hocc.
  - change ([] ++ anchor) with anchor. pose proof pattern1_at_anchor as H.
    rewrite anchor_eq in *. cbn [exec]. rewrite H. reflexivity.
  - cbn [app exec].
    destruct (pattern1_before_anchor (c :: pre) Hocc) as [H | H]; [discriminate|..];
      cbn [app] in H; rewrite H; [reflexivity|].
    apply IH. eapply occurs_tail, Hocc.
Qed.
End DownloadButtonAnchor.

Lemma capture1_found X : X <> [] -> capture1 (Some (Some X)) = Some X.
Proof. destruct X; [contradiction | reflexivity]. Qed.

(** The claim C1 fails when the href comes before the id: pattern 1 wants
    the id first, so the anchor is missed and, no other pattern matching
    here, nothing is extracted.  It also fails when another attribute that
    ends in href follows: the greedy run in front of the href reaches the
    last one of the tag. *)
Lemma href_before_id_is_missed :
  let X := u "https://download.example/f.bin" in
  let html := u ("<a href=" +:+ quoted "https://download.example/f.bin"
                 +:+ " id=" +:+ quoted "download-button" +:+ ">Download</a>") in
  let html' := u ("<a id=" +:+ quoted "download-button"
                  +:+ " href=" +:+ quoted "https://download.example/f.bin"
                  +:+ " data-href=" +:+ quoted "#top" +:+ ">Download</a>") in
  (has_download_anchor html X /\ extractDirectUrl html = None)
  /\ (has_download_anchor html' X /\ extractDirectUrl html' = Some (u "#top")).
Proof.
  intros X html html'. split; split.
  - exists [], (u (" href=" +:+ quoted "https://download.example/f.bin"
                   +:+ " id=" +:+ quoted "download-button")), (u "Download</a>").
    split; [reflexivity|]. split; [|split; vm_compute; reflexivity].
    apply (bool_decide_unpack _). vm_compute. reflexivity.
  - vm_compute. reflexivity.
  - exists [], (u (" id=" +:+ quoted "download-button"
                   +:+ " href=" +:+ quoted "https://download.example/f.bin"
                   +:+ " data-href=" +:+ quoted "#top")), (u "Download</a>").
    split; [reflexivity|]. split; [|split; vm_compute; reflexivity].
    apply (bool_decide_unpack _). vm_compute. reflexivity.
  - vm_compute. reflexivity.
Qed.

(** C1, amended: on a text that contains an anchor tag with the id before
    the href, [<a ... id=download-button ... href=X ...>] with both values
    in double quotes, where no [>] stands between [<a] and the href, X is
    not empty and has no double quote, the characters [href=] followed by a
    double quote do not occur again, in any letter case, in X, its closing
    quote and what follows it in the tag, and the id attribute does not
    occur, in any letter case, in the text in front of the tag, the
    extractor returns X: whatever other attributes the tag has in front of
    the id, between the id and the href, and after the href, whatever the
    rest of the text is and whichever other patterns it matches. *)
Theorem download_button_anchor_wins pre A1 A2 X T post :
  X <> [] -> (34 ∉ X) -> (62 ∉ A1) -> (62 ∉ A2) ->
  occurs true (u ("href=" +:+ dq)) (X ++ 34 :: T) = false ->
  occurs true (u ("id=" +:+ quoted "download-button")) pre = false ->
  extractDirectUrl
    (pre ++ u "<a" ++ A1 ++ u ("id=" +:+ quoted "download-button") ++ A2
         ++ u ("href=" +:+ dq) ++ X ++ u dq ++ T ++ u ">" ++ post)
  = Some X.
Proof.
  intros HX Hq H1 H2 Hlast Hpre. unfold extractDirectUrl.
  pose proof (pattern1_finds_anchor A1 A2 X T post H1 H2 HX Hq Hlast pre Hpre) as H.
  cbv zeta in H.
  replace (pre ++ u "<a" ++ A1 ++ u ("id=" +:+ quoted "download-button") ++ A2
               ++ u ("href=" +:+ dq) ++ X ++ u dq ++ T ++ u ">" ++ post)
    with (pre ++ (60 :: 97 :: A1 ++ u ("id=" +:+ quoted "download-button") ++ A2)
              ++ (u ("href=" +:+ dq) ++ X ++ 34 :: T) ++ 62 :: post)
    by (cbn [app]; rewrite <- !app_assoc; reflexivity).
  rewrite H, capture1_found by exact HX. reflexivity.
Qed.

Lemma download_button_anchor_wins_witness :
  let pre := u ("<html><script>var download_url = " +:+ quoted "https://other.example/a.zip"
                +:+ ";</script>") in
  let A1 := u " class='input popsok' aria-label='Download file' " in
  let A2 := u (" data-href=" +:+ quoted "#" +:+ " ") in
  let X := u "https://download123.mediafire.com/xyz/video.mp4?token=abc=" in
  let T := u (" rel=" +:+ quoted "nofollow") in
  extractDirectUrl
    (pre ++ u "<a" ++ A1 ++ u ("id=" +:+ quoted "download-button") ++ A2
         ++ u ("href=" +:+ dq) ++ X ++ u dq ++ T ++ u ">" ++ u "Download</a></html>")
  = Some X.
Proof.
  intros pre A1 A2 X T. apply (download_button_anchor_wins pre A1 A2 X T).
  - discriminate.
  - apply (bool_decide_unpack _). vm_compute. reflexivity.
  - apply (bool_decide_unpack _). vm_compute. reflexivity.
  - apply (bool_decide_unpack _). vm_compute. reflexivity.
  - vm_compute. reflexivity.
  - vm_compute. reflexivity.
Defined.

(** ** Pattern 2 on an assignment introduced by var *)

Lemma star_g_stop_at {A} (p : N -> bool) (k : jsstring -> option A) l s :
  match l with c :: _ => negb (p c) | [] => false end = true ->
  star_g p (l ++ s) k = k (l ++ s).
Proof.
  destruct l as [|c l]; [discriminate|]. intros H. apply negb_true_iff in H.
  cbn [app]. apply star_g_stop, H.
Qed.

Lemma lit_match_mismatch ci l l' s :
  match l, l' with
  | x :: _, d :: _ => negb (canon ci x =? canon ci d)
  | _, _ => false
  end = true ->
  lit_match ci l (l' ++ s) = None.
Proof.
  destruct l as [|x l], l' as [|d l']; try discriminate.
  intros H. apply negb_true_iff in H. cbn [app lit_match]. rewrite H. reflexivity.
Qed.

(** Equations of the matcher, one for each construct. *)
Section MatcherEquations.
Context {A : Type}.
Variable ci : bool.
Implicit Types (k : jsstring -> option jsstring -> option A).

Lemma m_seq r1 r2 s cap k :
  m ci (r1 ++ r2) s cap k = m ci r1 s cap (fun s' cap' => m ci r2 s' cap' k).
Proof. reflexivity. Qed.

Lemma m_group r s cap k :
  m ci (Group r) s cap k
  = m ci r s cap (fun s' _ => k s' (Some (take (length s - length s') s))).
Proof. reflexivity. Qed.

Lemma m_lit l s cap k : m ci (Lit l) (u l ++ s) cap k = k s cap.
Proof. cbn [m]. rewrite lit_match_self. reflexivity. Qed.

Lemma m_lit_fail l s cap k : lit_match ci (u l) s = None -> m ci (Lit l) s cap k = None.
Proof. intros H. cbn [m]. rewrite H. reflexivity. Qed.

Lemma m_opt_taken r s cap k a :
  m ci r s cap k = Some a -> m ci (Opt r) s cap k = Some a.
Proof. intros H. cbn [m]. rewrite H. reflexivity. Qed.

Lemma m_opt_skipped r s cap k :
  m ci r s cap k = None -> m ci (Opt r) s cap k = k s cap.
Proof. intros H. cbn [m]. rewrite H. reflexivity. Qed.

Lemma m_lit_unfold l s cap k :
  m ci (Lit l) s cap k
  = match lit_match ci (u l) s with Some s' => k s' cap | None => None end.
Proof. reflexivity. Qed.

Lemma m_plus_cons cl c s cap k :
  m ci (Plus cl) (c :: s) cap k
  = if in_class ci cl c then star_g (in_class ci cl) s (fun s' => k s' cap) else None.
Proof. reflexivity. Qed.

(** A greedy run over all of [q], which [R] cannot extend. *)
Lemma m_star_all cl q R cap k a :
  forallb (in_class ci cl) q = true ->
  match R with c :: _ => negb (in_class ci cl c) | [] => true end = true ->
  k R cap = Some a ->
  m ci (Star cl) (q ++ R) cap k = Some a.
Proof.
  intros Hall HR Ha. cbn [m]. apply star_g_all; [exact Hall|].
  destruct R as [|d R]; [exact Ha|].
  apply negb_true_iff in HR. rewrite star_g_stop by exact HR. exact Ha.
Qed.

Lemma m_plus_all cl q R cap k a :
  q <> [] -> forallb (in_class ci cl) q = true ->
  match R with c :: _ => negb (in_class ci cl c) | [] => true end = true ->
  k R cap = Some a ->
  m ci (Plus cl) (q ++ R) cap k = Some a.
Proof.
  intros Hq Hall HR Ha. destruct q as [|c q]; [contradiction|].
  cbn [forallb] in Hall. apply andb_true_iff in Hall. destruct Hall as [Hc Hall].
  cbn [app]. rewrite m_plus_cons, Hc. apply (m_star_all cl q R cap k a Hall HR Ha).
Qed.
End MatcherEquations.

Section VarAssignment.
Variables scheme Y post : list N.
Hypothesis scheme_http : scheme = u "http" \/ scheme = u "https".
Hypothesis Y_not_empty : Y <> [].
Hypothesis Y_no_quote : 34 ∉ Y.

Let k0 : jsstring -> option jsstring -> option (option jsstring) := fun _ cap => Some cap.
Let X : list N := scheme ++ u "://" ++ Y.
Let R : list N := u (dq +:+ ";") ++ post.
Let assignment : list N :=
  u "var" ++ 32 :: u "download_url" ++ 32 :: u "=" ++ 32 :: u dq ++ X ++ R.

Lemma link_group_on whole cap :
  take (length whole - length R) whole = X ->
  m true (http_url_head ++ Plus not_quote) (X ++ R) cap
    (fun s' _ => m true (Lit (dq +:+ ";")) s'
                   (Some (take (length whole - length s') whole)) k0)
  = Some (Some X).
Proof.
  intros Hcap.
  assert (Hrun : forall cap',
    m true (Lit "://" ++ Plus not_quote) (u "://" ++ Y ++ R) cap'
      (fun s' _ => m true (Lit (dq +:+ ";")) s'
                     (Some (take (length whole - length s') whole)) k0)
    = Some (Some X)).
  { intros cap'. rewrite m_seq, m_lit. apply m_plus_all.
    - exact Y_not_empty.
    - apply forallb_not_quote, Y_no_quote.
    - reflexivity.
    - unfold R at 1. rewrite m_lit. rewrite Hcap. reflexivity. }
  unfold http_url_head, X at 1. rewrite !m_seq.
  destruct scheme_http as [-> | ->].
  - rewrite <- !app_assoc, m_lit. cbv beta. rewrite m_seq, m_opt_skipped.
    + apply Hrun.
    + apply m_lit_fail. reflexivity.
  - change (u "https") with (u "http" ++ u "s").
    rewrite <- !app_assoc, m_lit. cbv beta. rewrite m_seq. apply m_opt_taken.
    rewrite m_lit. apply Hrun.
Qed.

(** The group of patterns 2 and 3 captures the link in front of the
    closing quote. *)
Lemma link_group_here cap :
  m true (Group (http_url_head ++ Plus not_quote) ++ Lit (dq +:+ ";")) (X ++ R) cap k0
  = Some (Some X).
Proof.
  rewrite m_seq, m_group. apply link_group_on, take_captured.
Qed.

Lemma pattern2_at_assignment :
  match_here true jsDownloadLinkRegex2 assignment = Some (Some X).
Proof.
  unfold match_here, jsDownloadLinkRegex2, assignment.
  rewrite m_seq, m_lit. cbv beta. rewrite m_seq.
  apply (m_plus_all true space [32]); [discriminate | reflexivity | reflexivity |].
  rewrite m_seq, m_lit. cbv beta. rewrite m_seq.
  apply (m_star_all true space [32]); [reflexivity | reflexivity |].
  rewrite m_seq, m_lit. cbv beta. rewrite m_seq.
  apply (m_star_all true space [32]); [reflexivity | reflexivity |].
  rewrite m_seq, m_lit. cbv beta. apply link_group_here.
Qed.

(** In front of the assignment, where download_url does not occur,
    pattern 2 finds nothing. *)
Lemma pattern2_before_assignment q :
  occurs true (u "download_url") q = false -> q <> [] ->
  match_here true jsDownloadLinkRegex2 (q ++ assignment) = None.
Proof.
  intros Hocc Hq. unfold match_here, jsDownloadLinkRegex2.
  rewrite m_seq, m_lit_unfold.
  destruct (lit_match true (u "var") (q ++ assignment)) as [s'|] eqn:E; [|reflexivity].
  change assignment with (118 :: 97 :: 114 :: 32 :: u "download_url" ++ 32 :: u "=" ++ 32 :: u dq ++ X ++ R) in *.
  apply lit_match_within in E; [|exact Hq|repeat constructor].
  destruct E as (q' & Hq' & ->).
  pose proof (lit_match_keeps_absent _ _ _ _ _ Hocc Hq') as Hocc'.
  destruct q' as [|c q']; [reflexivity|].
  cbn [app]. rewrite m_seq, m_plus_cons.
  destruct (in_class true space c); [|reflexivity].
  apply star_g_none_app; [|reflexivity].
  intros b q'' Hb Hne. rewrite m_seq, m_lit_unfold.
  destruct (lit_match true (u "download_url") (q'' ++ _)) as [s'|] eqn:E; [exfalso|reflexivity].
  apply lit_match_within in E; [|exact Hne|].
  - destruct E as (q3 & E & _). apply occurs_tail in Hocc'. rewrite Hb in Hocc'.
    apply occurs_suffix, occurs_here in Hocc'. congruence.
  - apply (bool_decide_unpack _). vm_compute. reflexivity.
Qed.

Lemma pattern2_finds_assignment pre :
  occurs true (u "download_url") pre = false ->
  exec true jsDownloadLinkRegex2 (pre ++ assignment) = Some (Some X).
Proof.
  induction pre as [|c pre IH]; intros Hocc.
  - change ([] ++ assignment) with (118 :: 97 :: 114 :: 32 :: u "download_url" ++ 32 :: u "=" ++ 32 :: u dq ++ X ++ R).
    cbn [exec].
    change (118 :: 97 :: 114 :: 32 :: u "download_url" ++ 32 :: u "=" ++ 32 :: u dq ++ X ++ R) with assignment.
    rewrite pattern2_at_assignment. reflexivity.
  - cbn [app exec].
    pose proof (pattern2_before_assignment (c :: pre) Hocc) as H.
    cbn [app] in H. rewrite H by discriminate.
    apply IH. eapply occurs_tail, Hocc.
Qed.
End VarAssignment.

(** The claim C5 fails for the assignment without the var keyword: the text
    has no download-button anchor (download-button does not even occur in
    it), it has the assignment, and nothing is extracted. *)
Lemma bare_assignment_is_missed :
  let X := u "https://download.example/get?id=1" in
  let html := u ("<script>download_url = " +:+ quoted "https://download.example/get?id=1"
                 +:+ ";</script>") in
  has_download_url_assignment html X
  /\ occurs true (u "download-button") html = false
  /\ exec true downloadLinkRegex1 html = None
  /\ extractDirectUrl html = None.
Proof.
  intros X html. split; [|vm_compute; repeat split; reflexivity].
  exists (u "<script>"), (u ";</script>"). split; [reflexivity|]. split.
  - right. apply startsWith_prefix. vm_compute. reflexivity.
  - apply (bool_decide_unpack _). vm_compute. reflexivity.
Qed.

(** C5, amended: on a text that pattern 1 does not match and that contains
    the assignment introduced by the keyword var and closed by a semicolon,
    [var download_url = X;] with X in double quotes, where X is http:// or
    https:// followed by at least one character and has no double quote,
    and where download_url does not occur in front of the assignment, the
    extractor returns X. *)
Theorem var_assignment_is_found pre scheme Y post :
  scheme = u "http" \/ scheme = u "https" ->
  Y <> [] -> (34 ∉ Y) ->
  occurs true (u "download_url") pre = false ->
  exec true downloadLinkRegex1
    (pre ++ u ("var download_url = " +:+ dq) ++ (scheme ++ u "://" ++ Y)
         ++ u (dq +:+ ";") ++ post) = None ->
  extractDirectUrl
    (pre ++ u ("var download_url = " +:+ dq) ++ (scheme ++ u "://" ++ Y)
         ++ u (dq +:+ ";") ++ post)
  = Some (scheme ++ u "://" ++ Y).
Proof.
  intros Hs HY Hq Hpre H1. unfold extractDirectUrl. rewrite H1. cbn [capture1].
  pose proof (pattern2_finds_assignment scheme Y post Hs HY Hq pre Hpre) as H.
  cbv zeta in H.
  change (exec true jsDownloadLinkRegex2
            (pre ++ u ("var download_url = " +:+ dq) ++ (scheme ++ u "://" ++ Y)
                 ++ u (dq +:+ ";") ++ post) = Some (Some (scheme ++ u "://" ++ Y))) in H.
  rewrite H, capture1_found; [reflexivity|].
  destruct Hs as [-> | ->]; discriminate.
Qed.

Lemma var_assignment_is_found_witness :
  let pre := u "<html><script>" in
  let Y := u "download.example/get?id=1" in
  extractDirectUrl
    (pre ++ u ("var download_url = " +:+ dq) ++ (u "https" ++ u "://" ++ Y)
         ++ u (dq +:+ ";") ++ u "</script></html>")
  = Some (u "https" ++ u "://" ++ Y).
Proof.
  intros pre Y. apply (var_assignment_is_found pre (u "https") Y).
  - right. reflexivity.
  - discriminate.
  - apply (bool_decide_unpack _). vm_compute. reflexivity.
  - vm_compute. reflexivity.
  - vm_compute. reflexivity.
Defined.


(** * Further properties of the handler *)

(** ** The paths through the handler *)

(** A request that passes the validation runs the try block. *)
Lemma handle_valid net request link :
  method request <> u "OPTIONS" -> require request = Some link -> validLink link = true ->
  handle net request
  = match pipeline net request link [] with
    | (Ok response, log) => (Ok response, log)
    | (Throw message, log) =>
        (createErrorResponse (internalErrorMessage message) 500 (Some link), log)
    end.
Proof.
  intros Hm Hr Hv. apply streq_false in Hm.
  unfold handle. rewrite Hm, Hr. simpl default.
  rewrite (validLink_truthy _ Hv), Hv. reflexivity.
Qed.

Lemma pipeline_page_rejected net request link e :
  net (pageFetch link) = Throw e ->
  pipeline net request link [] = (Throw e, [pageFetch link]).
Proof. intros H. unfold pipeline, bind, fetch. rewrite H. reflexivity. Qed.

Lemma pipeline_page_answered net request link page :
  net (pageFetch link) = Ok page ->
  pipeline net request link []
  = if negb (ok page)
    then (createErrorResponse (pageErrorMessage page) (up_status page) (Some link),
          [pageFetch link])
    else match extractDirectUrl (up_text page) with
         | None => (createErrorResponse extractionFailedMessage 500 (Some link),
                    [pageFetch link])
         | Some direct =>
             match net (fileFetch request direct) with
             | Throw e => (Throw e, [pageFetch link; fileFetch request direct])
             | Ok file =>
                 if negb (ok file)
                 then (createErrorResponse (fileErrorMessage file) (up_status file) (Some link),
                       [pageFetch link; fileFetch request direct])
                 else (relay file link, [pageFetch link; fileFetch request direct])
             end
         end.
Proof.
  intros H. unfold pipeline, bind, fetch, ret, lift. rewrite H. cbn [app].
  destruct (negb (ok page)); [reflexivity|].
  destruct (extractDirectUrl (up_text page)) as [direct|]; [|reflexivity].
  destruct (net (fileFetch request direct)) as [file|e]; [|reflexivity].
  destruct (negb (ok file)); reflexivity.
Qed.

(** The fetches of a request that passes the validation are those of the
    try block, whatever it returns or throws. *)
Lemma handle_valid_log net request link :
  method request <> u "OPTIONS" -> require request = Some link -> validLink link = true ->
  (handle net request).2 = (pipeline net request link []).2.
Proof.
  intros Hm Hr Hv. rewrite (handle_valid _ _ _ Hm Hr Hv).
  destruct (pipeline net request link []) as [[r|e] log]; reflexivity.
Qed.

(** What the catch block answers. *)
Lemma caught_response e link :
  truthy link = true ->
  exists r, createErrorResponse (internalErrorMessage e) 500 (Some link) = Ok r
            /\ status r = 500 /\ body r = JsonBody (internalErrorMessage e) link.
Proof.
  intros Hl. rewrite createErrorResponse_constructible by reflexivity.
  eexists. split; [reflexivity|]. split; [reflexivity|].
  cbn [body or_else]. rewrite Hl. reflexivity.
Qed.

(** An error response made inside the try block with the status of an
    upstream response: the constructor accepts the status and the
    response has it, or the constructor throws and the catch block answers
    with status 500. *)
Lemma upstream_error_response message st link (log : list FetchCall) :
  truthy link = true ->
  (constructible st = true ->
     exists r,
       match createErrorResponse message st (Some link) with
       | Ok response => (Ok response, log)
       | Throw e => (createErrorResponse (internalErrorMessage e) 500 (Some link), log)
       end = (Ok r, log)
       /\ status r = st /\ body r = JsonBody message link)
  /\ (constructible st = false ->
     exists e r,
       match createErrorResponse message st (Some link) with
       | Ok response => (Ok response, log)
       | Throw e => (createErrorResponse (internalErrorMessage e) 500 (Some link), log)
       end = (Ok r, log)
       /\ status r = 500 /\ body r = JsonBody (internalErrorMessage e) link).
Proof.
  intros Hl. split; intros Hc.
  - rewrite createErrorResponse_constructible by exact Hc.
    eexists. split; [reflexivity|]. split; [reflexivity|].
    cbn [body or_else]. rewrite Hl. reflexivity.
  - destruct (createErrorResponse_not_constructible message st (Some link) Hc) as [e ->].
    destruct (caught_response e link Hl) as (r & -> & Hs & Hb).
    exists e, r. auto.
Qed.

(** ** Upstream failures *)

(** X1: when MediaFire answers the landing page with a status outside
    200-299, the response is the JSON error with that same status, a message
    that quotes the status and its text, and the link, provided that a
    response with a body can be constructed with that status: 300 to 599
    other than 304.  With 304 or a status outside 200-599 the constructor
    throws inside the try block and the answer is the JSON error with
    status 500.  In both cases the direct link is never fetched.  When the
    landing page is fine and the direct link is answered with a status
    outside 200-299, the response mirrors that status, or is the 500 one,
    in the same way. *)
Theorem upstream_status_is_mirrored net request link page :
  method request <> u "OPTIONS" -> require request = Some link -> validLink link = true ->
  net (pageFetch link) = Ok page ->
  (ok page = false ->
     (constructible (up_status page) = true ->
        exists r,
          handle net request = (Ok r, [pageFetch link])
          /\ status r = up_status page
          /\ body r = JsonBody (pageErrorMessage page) link)
     /\ (constructible (up_status page) = false ->
        exists e r,
          handle net request = (Ok r, [pageFetch link])
          /\ status r = 500
          /\ body r = JsonBody (internalErrorMessage e) link))
  /\ (forall direct file,
        ok page = true -> extractDirectUrl (up_text page) = Some direct ->
        net (fileFetch request direct) = Ok file -> ok file = false ->
        (constructible (up_status file) = true ->
           exists r,
             handle net request = (Ok r, [pageFetch link; fileFetch request direct])
             /\ status r = up_status file
             /\ body r = JsonBody (fileErrorMessage file) link)
        /\ (constructible (up_status file) = false ->
           exists e r,
             handle net request = (Ok r, [pageFetch link; fileFetch request direct])
             /\ status r = 500
             /\ body r = JsonBody (internalErrorMessage e) link))
  /\ (forall st, (200 <=? st) && (st <=? 299) = false ->
        (constructible st = true <-> (300 <=? st) && (st <=? 599) = true /\ st <> 304)).
Proof.
  intros Hm Hr Hv Hp. pose proof (validLink_truthy _ Hv) as Hl.
  rewrite (handle_valid _ _ _ Hm Hr Hv), (pipeline_page_answered _ _ _ _ Hp).
  split; [|split].
  - intros ->. cbn [negb].
    apply (upstream_error_response (pageErrorMessage page) (up_status page) link _ Hl).
  - intros direct file -> -> -> ->. cbn [negb].
    apply (upstream_error_response (fileErrorMessage file) (up_status file) link _ Hl).
  - intros st Hst. split; [intros Hc; apply constructible_not_ok; assumption|].
    intros [Hrange Hne]. unfold constructible, null_body_status.
    apply andb_true_iff in Hrange. destruct Hrange as [H1 H2]. apply N.leb_le in H1, H2.
    replace (200 <=? st) with true by (symmetry; apply N.leb_le; lia).
    replace (st <=? 599) with true by (symmetry; apply N.leb_le; lia).
    replace (st =? 101) with false by (symmetry; apply N.eqb_neq; lia).
    replace (st =? 103) with false by (symmetry; apply N.eqb_neq; lia).
    replace (st =? 204) with false by (symmetry; apply N.eqb_neq; lia).
    replace (st =? 205) with false by (symmetry; apply N.eqb_neq; lia).
    replace (st =? 304) with false by (symmetry; apply N.eqb_neq; lia).
    reflexivity.
Qed.

Lemma upstream_status_is_mirrored_witness :
  let gone := mkUpstream 404 (u "Not Found") ∅ [] [] in
  let unchanged := mkUpstream 304 (u "Not Modified") ∅ [] [] in
  let denied := mkUpstream 403 (u "Forbidden") ∅ [] [] in
  (exists r,
     handle (sample_net (Ok gone) (Ok sample_file)) sample_request
     = (Ok r, [pageFetch sample_link])
     /\ status r = 404
     /\ body r = JsonBody (u "Error al obtener la p" ++ [225] ++ u "gina de MediaFire: 404 Not Found")
                   sample_link)
  /\ (exists e r,
        handle (sample_net (Ok unchanged) (Ok sample_file)) sample_request
        = (Ok r, [pageFetch sample_link])
        /\ status r = 500
        /\ body r = JsonBody (internalErrorMessage e) sample_link)
  /\ (exists r,
        handle (sample_net (Ok sample_page) (Ok denied)) sample_request
        = (Ok r, [pageFetch sample_link; fileFetch sample_request sample_direct])
        /\ status r = 403).
Proof.
  intros gone unchanged denied. split; [|split].
  - destruct (upstream_status_is_mirrored (sample_net (Ok gone) (Ok sample_file))
                sample_request sample_link gone) as [H _];
      [vm_compute; discriminate | reflexivity | vm_compute; reflexivity | vm_compute; reflexivity |].
    destruct (H eq_refl) as [H1 _]. apply (H1 eq_refl).
  - destruct (upstream_status_is_mirrored (sample_net (Ok unchanged) (Ok sample_file))
                sample_request sample_link unchanged) as [H _];
      [vm_compute; discriminate | reflexivity | vm_compute; reflexivity | vm_compute; reflexivity |].
    destruct (H eq_refl) as [_ H2]. apply (H2 eq_refl).
  - destruct (upstream_status_is_mirrored (sample_net (Ok sample_page) (Ok denied))
                sample_request sample_link sample_page) as (_ & H & _);
      [vm_compute; discriminate | reflexivity | vm_compute; reflexivity | vm_compute; reflexivity |].
    destruct (H sample_direct denied) as [H1 _]; try (vm_compute; reflexivity).
    destruct (H1 eq_refl) as (r & Hr & Hs & _). exists r. split; [exact Hr | exact Hs].
Defined.

(** X2: a fetch that rejects, of the landing page or of the direct link,
    is caught: the response is the JSON error with status 500, the message
    of the rejection after the fixed prefix, and the link. *)
Theorem rejected_fetch_gives_500 net request link e :
  method request <> u "OPTIONS" -> require request = Some link -> validLink link = true ->
  (net (pageFetch link) = Throw e ->
     handle net request
     = (createErrorResponse (internalErrorMessage e) 500 (Some link), [pageFetch link]))
  /\ (forall page direct,
        net (pageFetch link) = Ok page -> ok page = true ->
        extractDirectUrl (up_text page) = Some direct ->
        net (fileFetch request direct) = Throw e ->
        handle net request
        = (createErrorResponse (internalErrorMessage e) 500 (Some link),
           [pageFetch link; fileFetch request direct]))
  /\ exists r,
       createErrorResponse (internalErrorMessage e) 500 (Some link) = Ok r
       /\ status r = 500
       /\ body r = JsonBody (internalErrorMessage e) link.
Proof.
  intros Hm Hr Hv. rewrite (handle_valid _ _ _ Hm Hr Hv). split; [|split].
  - intros Hp. rewrite (pipeline_page_rejected _ _ _ _ Hp). reflexivity.
  - intros page direct Hp Hok Hd Hf.
    rewrite (pipeline_page_answered _ _ _ _ Hp), Hok, Hd, Hf. reflexivity.
  - apply caught_response, validLink_truthy, Hv.
Qed.

Lemma rejected_fetch_gives_500_witness :
  let down : result UpstreamResponse := Throw (u "connection reset") in
  (exists r,
     (handle (sample_net down down) sample_request).1 = Ok r
     /\ status r = 500
     /\ error_of (body r)
        = Some (u "Error interno del servidor al procesar la solicitud: connection reset"))
  /\ (exists r,
        (handle (sample_net (Ok sample_page) down) sample_request).1 = Ok r
        /\ status r = 500
        /\ link_provided_of (body r) = Some sample_link).
Proof.
  intros down. split.
  - destruct (rejected_fetch_gives_500 (sample_net down down) sample_request sample_link
                (u "connection reset")) as (H & _ & _);
      [vm_compute; discriminate | reflexivity | vm_compute; reflexivity |].
    rewrite H by (vm_compute; reflexivity).
    eexists. split; [reflexivity|]. split; reflexivity.
  - destruct (rejected_fetch_gives_500 (sample_net (Ok sample_page) down) sample_request
                sample_link (u "connection reset")) as (_ & H & _);
      [vm_compute; discriminate | reflexivity | vm_compute; reflexivity |].
    rewrite (H sample_page sample_direct); try (vm_compute; reflexivity).
    eexists. split; [reflexivity|]. split; reflexivity.
Defined.

(** ** The relayed response *)



(** The constructor accepts what [relay] puts together for a file response
    with [ok]. *)
Lemma constructor_accepts_relay file h :
  ok file = true ->
  new_Response (fetched_body file) (up_status file) h
  = Ok (mkResponse (up_status file) h (fetched_body file)).
Proof.
  unfold ok, new_Response, fetched_body. intros Hok.
  apply andb_true_iff in Hok. destruct Hok as [H1 H2]. apply N.leb_le in H1, H2.
  replace (200 <=? up_status file) with true by (symmetry; apply N.leb_le; lia).
  replace (up_status file <=? 599) with true by (symmetry; apply N.leb_le; lia).
  cbn [andb negb]. destruct (null_body_status (up_status file)); reflexivity.
Qed.




Lemma set_lookup name' value (h : gmap string (list N)) name v :
  Headers_set name' value h !! name = Some v ->
  name = lower_name name' \/ h !! name = Some v.
Proof.
  unfold Headers_set. destruct (decide (lower_name name' = name)) as [<- | Hne].
  - left. reflexivity.
  - rewrite lookup_insert_ne by exact Hne. right. assumption.
Qed.

Lemma delete_lookup name' (h : gmap string (list N)) name v :
  Headers_delete name' h !! name = Some v -> h !! name = Some v.
Proof.
  unfold Headers_delete. destruct (decide (lower_name name' = name)) as [<- | Hne].
  - rewrite lookup_delete_eq. discriminate.
  - rewrite lookup_delete_ne by exact Hne. tauto.
Qed.

Ltac header_names H :=
  repeat (apply delete_lookup in H);
  repeat (apply set_lookup in H;
          destruct H as [-> | H];
          [apply (bool_decide_unpack _); vm_compute; reflexivity|]);
  try (rewrite lookup_empty in H; discriminate H).

Lemma error_header_names message st link r name v :
  createErrorResponse message st link = Ok r ->
  headers r !! name = Some v -> name ∈ relayed_names.
Proof.
  intros Hr. apply createErrorResponse_inv in Hr. subst r.
  unfold set_cors. cbn [headers]. intros H. header_names H.
Qed.

Lemma relay_header_names file link r name v :
  relay file link = Ok r -> headers r !! name = Some v -> name ∈ relayed_names.
Proof.
  intros Hr. apply relay_inv in Hr. destruct Hr as (filename & _ & _ & _ & ->).
  cbn [headers]. unfold scrub, relayHeaders, set_cors.
  destruct (Headers_has _ _); intros H; header_names H.
Qed.

(** X4: whatever headers the upstream responses carry, a response of the
    handler has no header other than the four CORS headers, Content-Type,
    Content-Length and Content-Disposition: of the upstream headers only
    Content-Type and Content-Length are ever forwarded. *)
Theorem only_known_headers_are_sent net request :
  exists r,
    (handle net request).1 = Ok r
    /\ forall name v, headers r !! name = Some v -> name ∈ relayed_names.
Proof.
  destruct (handle_cases net request) as (r & Hr & Hkind).
  exists r. split; [exact Hr|]. intros name v.
  destruct Hkind as [(_ & ->) | [(_ & message & st & link & Hc & _) | (_ & file & link & _ & Hrel)]].
  - unfold set_cors. cbn [headers]. intros H. header_names H.
  - apply (error_header_names _ _ _ _ _ _ Hc).
  - apply (relay_header_names _ _ _ _ _ Hrel).
Qed.

Lemma only_known_headers_are_sent_witness :
  let net := sample_net (Ok sample_page) (Ok sample_file) in
  up_headers sample_file !! "etag"%string = Some (u "abc")
  /\ exists r,
       (handle net sample_request).1 = Ok r
       /\ headers r !! "content-length"%string = Some (u "3")
       /\ headers r !! "etag"%string = None.
Proof.
  intros net. split; [vm_compute; reflexivity|].
  destruct (only_known_headers_are_sent net sample_request) as (r & Hr & Hnames).
  exists r. split; [exact Hr|].
  assert (E : (handle net sample_request).1 = Ok r) by exact Hr.
  vm_compute in E. injection E as <-.
  split; [vm_compute; reflexivity|].
  destruct (headers _ !! "etag"%string) as [v|] eqn:Hv; [|reflexivity].
  apply Hnames in Hv. exfalso. revert Hv. apply (bool_decide_unpack _). vm_compute. reflexivity.
Defined.

(** ** The fetches *)

(** X5: the handler issues at most two fetches.  The first one, if any,
    is the fetch of the require value, which then starts with
    http://www.mediafire.com/ or https://www.mediafire.com/, with the fixed
    browser headers; the second one, if any, is the fetch of the link
    extracted from the text of a landing page answered with a 2xx status,
    with the caller's User-Agent or the fixed one of the proxy. *)
Theorem fetch_discipline net request :
  match (handle net request).2 with
  | [] => True
  | first :: more =>
      exists link,
        require request = Some link /\ validLink link = true
        /\ method request <> u "OPTIONS"
        /\ first = pageFetch link
        /\ match more with
           | [] => True
           | [second] =>
               exists page direct,
                 net first = Ok page /\ ok page = true
                 /\ extractDirectUrl (up_text page) = Some direct
                 /\ second = fileFetch request direct
           | _ => False
           end
  end.
Proof.
  destruct (streq (method request) (u "OPTIONS")) eqn:Hm.
  { unfold handle. rewrite Hm. exact I. }
  destruct (negb (truthy (default [] (require request)))) eqn:Ht.
  { unfold handle. rewrite Hm, Ht. exact I. }
  destruct (negb (validLink (default [] (require request)))) eqn:Hv.
  { unfold handle. rewrite Hm, Ht, Hv. exact I. }
  apply streq_false in Hm. apply negb_false_iff in Ht, Hv.
  destruct (require request) as [link|] eqn:Hr; [|discriminate Ht]. simpl default in *.
  rewrite (handle_valid_log net request link Hm Hr Hv).
  destruct (net (pageFetch link)) as [page|e] eqn:Hp.
  - rewrite (pipeline_page_answered _ _ _ _ Hp).
    destruct (negb (ok page)) eqn:Hok; [exists link; auto|].
    apply negb_false_iff in Hok.
    destruct (extractDirectUrl (up_text page)) as [direct|] eqn:Hd; [|exists link; auto].
    assert (Hsecond : exists page0 direct0,
               net (pageFetch link) = Ok page0 /\ ok page0 = true
               /\ extractDirectUrl (up_text page0) = Some direct0
               /\ fileFetch request direct = fileFetch request direct0)
      by (exists page, direct; auto).
    destruct (net (fileFetch request direct)) as [file|e]; [|exists link; auto 6].
    destruct (negb (ok file)); exists link; auto 6.
  - rewrite (pipeline_page_rejected _ _ _ _ Hp). exists link. auto.
Qed.

(** ** The three kinds of response *)

Lemma createErrorResponse_status message st link r :
  createErrorResponse message st link = Ok r -> constructible st = true.
Proof.
  intros H. destruct (constructible st) eqn:Hc; [reflexivity|].
  destruct (createErrorResponse_not_constructible message st link Hc) as [e He]. congruence.
Qed.

(** X6: the handler always answers with a response, and the status tells
    its kind.  A response without body has status 204 or 205: it is the
    answer to OPTIONS, with 204, or the relay of an upstream response that
    has one of these statuses and hence no body.  A JSON error has a status
    in 300-599 other than 304, never one in 200-299.  A relayed stream always
    has a status in 200-299, other than 204 and 205, and is never the answer
    to OPTIONS. *)
Theorem status_tells_the_kind net request :
  exists r,
    (handle net request).1 = Ok r
    /\ match body r with
       | NoBody =>
           status r = 204 \/ (method request <> u "OPTIONS" /\ status r = 205)
       | JsonBody _ _ =>
           method request <> u "OPTIONS"
           /\ (300 <=? status r) && (status r <=? 599) = true /\ status r <> 304
       | StreamBody _ =>
           method request <> u "OPTIONS"
           /\ (200 <=? status r) && (status r <=? 299) = true
           /\ status r <> 204 /\ status r <> 205
       end.
Proof.
  destruct (handle_cases net request) as (r & Hr & Hkind).
  exists r. split; [exact Hr|].
  destruct Hkind as [(Hm & ->) | [(Hm & message & st & link & Hc & _ & _ & Hst)
                                 | (Hm & file & link & Hok & Hrel)]].
  - cbn [body status]. left. reflexivity.
  - pose proof (createErrorResponse_status _ _ _ _ Hc) as Hcon.
    apply createErrorResponse_inv in Hc. subst r. cbn [body status].
    split; [exact Hm|]. apply constructible_not_ok; assumption.
  - apply relay_inv in Hrel. destruct Hrel as (name & _ & _ & _ & ->).
    cbn [body status]. unfold fetched_body, null_body_status. unfold ok in Hok.
    pose proof Hok as Hok'.
    apply andb_true_iff in Hok'. destruct Hok' as [H1 H2]. apply N.leb_le in H1, H2.
    replace (up_status file =? 101) with false by (symmetry; apply N.eqb_neq; lia).
    replace (up_status file =? 103) with false by (symmetry; apply N.eqb_neq; lia).
    replace (up_status file =? 304) with false by (symmetry; apply N.eqb_neq; lia).
    rewrite orb_false_r. cbn [orb].
    destruct (up_status file =? 204) eqn:E4; [apply N.eqb_eq in E4|apply N.eqb_neq in E4].
    { cbn [orb]. left. exact E4. }
    destruct (up_status file =? 205) eqn:E5; [apply N.eqb_eq in E5|apply N.eqb_neq in E5].
    { cbn [orb]. right. split; [exact Hm | exact E5]. }
    cbn [orb]. auto.
Qed.

Lemma or_else_not_empty value fallback : fallback <> [] -> or_else value fallback <> [].
Proof.
  intros Hf. unfold or_else. destruct value as [[|c v]|]; simpl; try exact Hf. discriminate.
Qed.

Lemma error_envelope message st link r :
  message <> [] ->
  createErrorResponse message st link = Ok r ->
  Headers_get "Content-Type" (headers r) = Some (u "application/json")
  /\ exists e l, body r = JsonBody e l /\ e <> [] /\ l <> []
                 /\ (l = u "N/A" \/ link = Some l).
Proof.
  intros Hm Hr. apply createErrorResponse_inv in Hr. subst r. split.
  - unfold set_cors. cbn [headers].
    repeat (rewrite get_set_ne by (vm_compute; discriminate)). apply get_set_eq. reflexivity.
  - exists message, (or_else link (u "N/A")). split; [reflexivity|]. split; [exact Hm|].
    split; [apply or_else_not_empty; discriminate|].
    unfold or_else. destruct link as [[|c l]|]; simpl; auto.
Qed.

(** X7: every JSON error of the handler is sent as application/json and
    has a non-empty error message and a non-empty link_provided, which is
    either N/A or the require value of the request. *)
Theorem error_envelope_is_filled net request :
  exists r,
    (handle net request).1 = Ok r
    /\ forall e l,
         body r = JsonBody e l ->
         Headers_get "Content-Type" (headers r) = Some (u "application/json")
         /\ e <> [] /\ l <> [] /\ (l = u "N/A" \/ require request = Some l).
Proof.
  destruct (handle_cases net request) as (r & Hr & Hkind).
  exists r. split; [exact Hr|]. intros e l Hb.
  destruct Hkind as [(_ & ->) | [(_ & message & st & link & Hc & Hmsg & Hlink & _)
                                | (_ & file & link & Hok & Hrel)]].
  - discriminate Hb.
  - destruct (error_envelope message st link r Hmsg Hc) as (Hct & e' & l' & Hb' & He & Hl' & Hor).
    rewrite Hb in Hb'. injection Hb' as <- <-.
    split; [exact Hct|]. split; [exact He|]. split; [exact Hl'|].
    destruct Hor as [-> | Hs]; [left; reflexivity|].
    destruct Hlink as [-> | ->]; [discriminate Hs | right; exact Hs].
  - apply relay_inv in Hrel. destruct Hrel as (name & _ & _ & _ & ->).
    cbn [body] in Hb. unfold fetched_body in Hb.
    destruct (null_body_status _); discriminate Hb.
Qed.

Lemma error_envelope_is_filled_witness :
  let request := mkRequest (u "GET") (Some (u "ftp://www.mediafire.com/x")) None in
  let net := sample_net (Ok sample_page) (Ok sample_file) in
  exists r e l,
    (handle net request).1 = Ok r
    /\ body r = JsonBody e l
    /\ e <> [] /\ l = u "ftp://www.mediafire.com/x".
Proof.
  intros request net.
  destruct (error_envelope_is_filled net request) as (r & Hr & H).
  assert (E : (handle net request).1 = Ok r) by exact Hr.
  vm_compute in E. injection E as <-.
  eexists _, _, _. split; [exact Hr|]. split; [reflexivity|].
  split; [|reflexivity]. discriminate.
Defined.


(** * The matcher and the languages of the patterns *)

Section MatcherSemantics.
Context {A : Type}.
Variable ci : bool.

Lemma lit_match_split l s s' :
  lit_match ci l s = Some s' -> exists w, s = w ++ s' /\ lit_match ci l w = Some [].
Proof.
  revert s. induction l as [|c l IH]; intros s; simpl.
  - intros [= <-]. exists []. split; reflexivity.
  - destruct s as [|d s]; [discriminate|].
    destruct (canon ci c =? canon ci d) eqn:E; [|discriminate].
    intros H. destruct (IH _ H) as (w & -> & Hw).
    exists (d :: w). split; [reflexivity|]. simpl. rewrite E. exact Hw.
Qed.

Lemma lit_match_extend l w s' :
  lit_match ci l w = Some [] -> lit_match ci l (w ++ s') = Some s'.
Proof.
  revert w. induction l as [|c l IH]; intros w; simpl.
  - intros [= ->]. reflexivity.
  - destruct w as [|d w]; [discriminate|]. simpl.
    destruct (canon ci c =? canon ci d); [apply IH | discriminate].
Qed.

Lemma star_g_sound p s (k : jsstring -> option A) a :
  star_g p s k = Some a ->
  exists w s', s = w ++ s' /\ forallb p w = true /\ k s' = Some a.
Proof.
  induction s as [|c s IH]; simpl.
  - intros H. exists [], []. auto.
  - destruct (p c) eqn:Hp.
    + destruct (star_g p s k) as [a'|] eqn:E.
      * intros [= ->]. destruct (IH eq_refl) as (w & s' & -> & Hw & Hk).
        exists (c :: w), s'. simpl. rewrite Hp, Hw. auto.
      * intros H. exists [], (c :: s). auto.
    + intros H. exists [], (c :: s). auto.
Qed.

Lemma star_l_sound p s (k : jsstring -> option A) a :
  star_l p s k = Some a ->
  exists w s', s = w ++ s' /\ forallb p w = true /\ k s' = Some a.
Proof.
  induction s as [|c s IH]; simpl.
  - destruct (k []) eqn:E; [|discriminate]. intros [= ->]. exists [], []. auto.
  - destruct (k (c :: s)) eqn:E.
    + intros [= ->]. exists [], (c :: s). auto.
    + destruct (p c) eqn:Hp; [|discriminate].
      intros H. destruct (IH H) as (w & s' & -> & Hw & Hk).
      exists (c :: w), s'. simpl. rewrite Hp, Hw. auto.
Qed.

Lemma star_g_complete p w s' (k : jsstring -> option A) :
  forallb p w = true -> is_Some (k s') -> is_Some (star_g p (w ++ s') k).
Proof.
  intros Hw Hk. induction w as [|c w IH]; simpl.
  - destruct s' as [|d s']; simpl; [exact Hk|].
    destruct (p d); [|exact Hk]. destruct (star_g p s' k); [eexists; reflexivity | exact Hk].
  - simpl in Hw. apply andb_true_iff in Hw. destruct Hw as [Hc Hw]. rewrite Hc.
    destruct (IH Hw) as [a ->]. eexists. reflexivity.
Qed.

Lemma star_l_complete p w s' (k : jsstring -> option A) :
  forallb p w = true -> is_Some (k s') -> is_Some (star_l p (w ++ s') k).
Proof.
  intros Hw Hk. induction w as [|c w IH]; simpl.
  - destruct Hk as [a Ha]. destruct s'; simpl; rewrite Ha; eexists; reflexivity.
  - simpl in Hw. apply andb_true_iff in Hw. destruct Hw as [Hc Hw].
    destruct (k (c :: w ++ s')); [eexists; reflexivity|]. rewrite Hc. apply IH, Hw.
Qed.

(** Soundness: a success of the matcher is a match of the language, with
    the capture handed to the continuation. *)
Lemma m_sound r : forall s cap (k : jsstring -> option jsstring -> option A) a,
  m ci r s cap k = Some a ->
  exists w s' cap', s = w ++ s' /\ Match ci r w cap cap' /\ k s' cap' = Some a.
Proof.
  induction r as [l|cl|cl|cl|cl|r IH|r1 IH1 r2 IH2|r1 IH1 r2 IH2|r IH]; intros s cap k a; cbn [m].
  - destruct (lit_match ci (u l) s) as [s'|] eqn:E; [|discriminate].
    intros H. destruct (lit_match_split _ _ _ E) as (w & -> & Hw).
    exists w, s', cap. split; [reflexivity|]. split; [constructor; exact Hw | exact H].
  - destruct s as [|c s]; [discriminate|].
    destruct (in_class ci cl c) eqn:E; [|discriminate].
    intros H. exists [c], s, cap. split; [reflexivity|]. split; [constructor; exact E | exact H].
  - intros H. apply star_g_sound in H. destruct H as (w & s' & -> & Hw & Hk).
    exists w, s', cap. split; [reflexivity|]. split; [constructor; exact Hw | exact Hk].
  - destruct s as [|c s]; [discriminate|].
    destruct (in_class ci cl c) eqn:E; [|discriminate].
    intros H. apply star_g_sound in H. destruct H as (w & s' & -> & Hw & Hk).
    exists (c :: w), s', cap. split; [reflexivity|]. split; [|exact Hk].
    constructor; [discriminate|]. simpl. rewrite E. exact Hw.
  - intros H. apply star_l_sound in H. destruct H as (w & s' & -> & Hw & Hk).
    exists w, s', cap. split; [reflexivity|]. split; [constructor; exact Hw | exact Hk].
  - destruct (m ci r s cap k) as [a'|] eqn:E.
    + intros [= ->]. destruct (IH _ _ _ _ E) as (w & s' & cap' & -> & Hm & Hk).
      exists w, s', cap'. split; [reflexivity|]. split; [apply Match_Opt_taken; exact Hm | exact Hk].
    + intros H. exists [], s, cap. split; [reflexivity|]. split; [apply Match_Opt_skipped | exact H].
  - destruct (m ci r1 s cap k) as [a'|] eqn:E.
    + intros [= ->]. destruct (IH1 _ _ _ _ E) as (w & s' & cap' & -> & Hm & Hk).
      exists w, s', cap'. split; [reflexivity|]. split; [apply Match_Alt_left; exact Hm | exact Hk].
    + intros H. destruct (IH2 _ _ _ _ H) as (w & s' & cap' & -> & Hm & Hk).
      exists w, s', cap'. split; [reflexivity|]. split; [apply Match_Alt_right; exact Hm | exact Hk].
  - intros H. destruct (IH1 _ _ _ _ H) as (w1 & s1 & cap1 & -> & Hm1 & Hk1).
    destruct (IH2 _ _ _ _ Hk1) as (w2 & s2 & cap2 & -> & Hm2 & Hk2).
    exists (w1 ++ w2), s2, cap2. split; [apply app_assoc|].
    split; [econstructor; eassumption | exact Hk2].
  - intros H. destruct (IH _ _ _ _ H) as (w & s' & cap' & -> & Hm & Hk).
    rewrite take_captured in Hk.
    exists w, s', (Some w). split; [reflexivity|]. split; [econstructor; exact Hm | exact Hk].
Qed.

(** Completeness: where the language has a match after which the
    continuation succeeds whatever the capture, the matcher succeeds. *)
Lemma m_complete r : forall w cap cap',
  Match ci r w cap cap' ->
  forall cap0 s' (k : jsstring -> option jsstring -> option A),
    (forall c, is_Some (k s' c)) -> is_Some (m ci r (w ++ s') cap0 k).
Proof.
  induction r as [l|cl|cl|cl|cl|r IH|r1 IH1 r2 IH2|r1 IH1 r2 IH2|r IH];
    intros w cap cap' HM cap0 s' k Hk; inversion HM; subst; cbn [m].
  - erewrite lit_match_extend by eassumption. apply Hk.
  - cbn [app]. match goal with H : in_class _ _ _ = true |- _ => rewrite H end. apply Hk.
  - apply star_g_complete; [assumption | apply Hk].
  - destruct w as [|c w]; [contradiction|]. cbn [app].
    match goal with H : forallb _ _ = true |- _ =>
      simpl in H; apply andb_true_iff in H; destruct H as [Hc Hw] end.
    rewrite Hc. apply star_g_complete; [assumption | apply Hk].
  - apply star_l_complete; [assumption | apply Hk].
  - match goal with H : Match _ _ _ _ _ |- _ =>
      destruct (IH _ _ _ H cap0 s' k Hk) as [a ->] end.
    eexists. reflexivity.
  - cbn [app]. destruct (m ci r s' cap0 k); [eexists; reflexivity | apply Hk].
  - match goal with H : Match _ _ _ _ _ |- _ =>
      destruct (IH1 _ _ _ H cap0 s' k Hk) as [a ->] end.
    eexists. reflexivity.
  - destruct (m ci r1 (w ++ s') cap0 k); [eexists; reflexivity|].
    match goal with H : Match _ _ _ _ _ |- _ => apply (IH2 _ _ _ H cap0 s' k Hk) end.
  - rewrite <- app_assoc.
    match goal with
    | H1 : Match _ r1 _ _ _, H2 : Match _ r2 _ _ _ |- _ =>
        apply (IH1 _ _ _ H1); intros c; apply (IH2 _ _ _ H2); exact Hk
    end.
  - match goal with H : Match _ _ _ _ _ |- _ => apply (IH _ _ _ H) end.
    intros c. apply Hk.
Qed.
End MatcherSemantics.

Lemma exec_sound ci r s cap : exec ci r s = Some cap -> matches_in ci r s cap.
Proof.
  induction s as [|c s IH]; cbn [exec]; unfold match_here.
  - destruct (m ci r [] None _) as [cap'|] eqn:E; [|discriminate].
    intros [= ->]. apply m_sound in E. destruct E as (w & s' & cap' & Hs & HM & [= ->]).
    exists [], w, s'. split; [exact Hs | exact HM].
  - destruct (m ci r (c :: s) None _) as [cap'|] eqn:E.
    + intros [= ->]. apply m_sound in E. destruct E as (w & s' & cap' & Hs & HM & [= ->]).
      exists [], w, s'. split; [exact Hs | exact HM].
    + intros H. destruct (IH H) as (a & w & b & -> & HM).
      exists (c :: a), w, b. split; [reflexivity | exact HM].
Qed.

Lemma exec_complete ci r s cap : matches_in ci r s cap -> is_Some (exec ci r s).
Proof.
  intros (a & w & b & -> & HM). induction a as [|c a IH].
  - cbn [app].
    assert (H : is_Some (match_here ci r (w ++ b))).
    { unfold match_here. apply (m_complete ci r _ _ _ HM). intros c. eexists. reflexivity. }
    destruct H as [cap' H]. destruct (w ++ b); cbn [exec]; rewrite H; eexists; reflexivity.
  - cbn [app exec]. destruct (match_here ci r (c :: a ++ w ++ b)); [eexists; reflexivity | exact IH].
Qed.

(** X8: for every pattern and every text, match returns null exactly when
    no part of the text belongs to the language of the pattern, and the
    capture it returns is the capture of a match of that language. *)
Theorem exec_finds_a_match ci r s :
  (exec ci r s = None <-> forall cap, ~ matches_in ci r s cap)
  /\ (forall cap, exec ci r s = Some cap -> matches_in ci r s cap).
Proof.
  split; [split|].
  - intros H cap HM. apply exec_complete in HM. rewrite H in HM. destruct HM; discriminate.
  - intros H. destruct (exec ci r s) as [cap|] eqn:E; [|reflexivity].
    exfalso. apply (H cap), exec_sound, E.
  - intros cap. apply exec_sound.
Qed.

(** ** What the patterns capture *)

Lemma Match_capture ci r w cap cap' :
  Match ci r w cap cap' -> cap' = cap \/ exists c x y, cap' = Some c /\ w = x ++ c ++ y.
Proof.
  induction 1; try (left; reflexivity); try assumption.
  - destruct IHMatch2 as [-> | (c & x & y & -> & ->)].
    + destruct IHMatch1 as [-> | (c & x & y & -> & ->)]; [left; reflexivity|].
      right. exists c, x, (y ++ w2). split; [reflexivity|]. rewrite <- !app_assoc. reflexivity.
    + right. exists c, (w1 ++ x), y. split; [reflexivity|]. rewrite <- !app_assoc. reflexivity.
  - right. exists w, [], []. split; [reflexivity|]. rewrite app_nil_r. reflexivity.
Qed.

Lemma lit_match_chars ci l w :
  lit_match ci l w = Some [] ->
  Forall2 (fun c d => (canon ci c =? canon ci d) = true) l w.
Proof.
  revert w. induction l as [|c l IH]; intros w; simpl.
  - intros [= ->]. constructor.
  - destruct w as [|d w]; [discriminate|].
    destruct (canon ci c =? canon ci d) eqn:E; [|discriminate].
    intros H. constructor; [exact E | apply IH, H].
Qed.

(** A literal without the character [x], which is not a letter, matches
    no text with [x]. *)
Lemma lit_match_excludes ci l w x :
  not_letter x = true -> x ∉ l -> lit_match ci l w = Some [] -> x ∉ w.
Proof.
  intros Hx Hl H. apply lit_match_chars in H.
  induction H as [|c d l w Hcd H IH]; [apply not_elem_of_nil|].
  apply not_elem_of_cons in Hl. destruct Hl as [Hc Hl].
  apply not_elem_of_cons. split; [|apply IH, Hl].
  intros ->. rewrite N.eqb_sym in Hcd. apply canon_not_letter in Hcd; [|exact Hx]. congruence.
Qed.

Lemma lit_match_not_empty ci l w : l <> [] -> lit_match ci l w = Some [] -> w <> [].
Proof. destruct l, w; simpl; congruence. Qed.

(** A negated class with the character [x] among its members accepts no
    [x]. *)
Lemma negated_class_excludes ci cl c x :
  negated cl = true -> In (CChar x) (items cl) -> in_class ci cl c = true -> c <> chr x.
Proof.
  intros Hneg Hin H E. unfold in_class in H. rewrite Hneg in H.
  apply negb_true_iff in H.
  assert (E' : existsb (in_item ci c) (items cl) = true).
  { apply existsb_exists. exists (CChar x). split; [exact Hin|].
    cbn [in_item]. rewrite E. apply N.eqb_refl. }
  congruence.
Qed.

Lemma run_excludes ci cl w x :
  negated cl = true -> In (CChar x) (items cl) ->
  forallb (in_class ci cl) w = true -> chr x ∉ w.
Proof.
  intros Hneg Hin. induction w as [|c w IH]; cbn [forallb]; [intros _; apply not_elem_of_nil|].
  intros H. apply andb_true_iff in H. destruct H as [Hc Hw].
  apply not_elem_of_cons. split; [|apply IH, Hw].
  intros E. eapply negated_class_excludes in Hc; [|exact Hneg|exact Hin]. congruence.
Qed.

Lemma lit_match_app ci l1 l2 w1 rest :
  lit_match ci l1 w1 = Some [] ->
  lit_match ci (l1 ++ l2) (w1 ++ rest) = lit_match ci l2 rest.
Proof.
  revert w1. induction l1 as [|c l1 IH]; intros w1; simpl.
  - intros [= ->]. reflexivity.
  - destruct w1 as [|d w1]; [discriminate|]. simpl.
    destruct (canon ci c =? canon ci d); [apply IH | discriminate].
Qed.

Ltac invert_match :=
  repeat match goal with
         | H : Match _ (Seq _ _) _ _ _ |- _ => inversion H; subst; clear H
         | H : Match _ (Group _) _ _ _ |- _ => inversion H; subst; clear H
         | H : Match _ (Lit _) _ _ _ |- _ => inversion H; subst; clear H
         | H : Match _ (Star _) _ _ _ |- _ => inversion H; subst; clear H
         | H : Match _ (Plus _) _ _ _ |- _ => inversion H; subst; clear H
         | H : Match _ (LazyStar _) _ _ _ |- _ => inversion H; subst; clear H
         | H : Match _ (Opt _) _ _ _ |- _ => inversion H; subst; clear H
         | H : Match _ (Alt _ _) _ _ _ |- _ => inversion H; subst; clear H
         | H : Match _ (Set1 _) _ _ _ |- _ => inversion H; subst; clear H
         end.

(** No double quote in a text put together from literals without one and
    from runs of a class that excludes it. *)
Ltac no_quote :=
  repeat (apply not_elem_of_app; split);
  first [ apply not_elem_of_nil
        | eapply lit_match_excludes; [ | | eassumption];
          [reflexivity | apply (bool_decide_unpack _); vm_compute; reflexivity]
        | eapply (run_excludes true _ _ dq); [ | | eassumption]; [reflexivity | simpl; tauto] ].

Lemma pattern1_capture w cap :
  Match true downloadLinkRegex1 w None cap ->
  exists c, cap = Some c /\ c <> [] /\ (34 ∉ c).
Proof.
  unfold downloadLinkRegex1. intros H. invert_match.
  eexists. split; [reflexivity|]. split; [assumption | no_quote].
Qed.

Lemma http_head_scheme w cap cap' rest :
  Match true http_url_head w cap cap' ->
  cap' = cap /\ w <> [] /\ (34 ∉ w) /\ is_http_link (w ++ rest).
Proof.
  unfold http_url_head. intros H. invert_match;
    match goal with
    | Hh : lit_match true (u "http") ?a = Some [] |- _ =>
        assert (Ha : a <> []) by (eapply lit_match_not_empty; [|exact Hh]; discriminate)
    end;
    (split; [reflexivity|]); (split; [destruct w1; [contradiction | discriminate]|]);
    (split; [no_quote|]).
  - right.
    match goal with
    | Hh : lit_match true (u "http") _ = Some [],
      Hs : lit_match true (u "s") _ = Some [],
      Hc : lit_match true (u "://") _ = Some [] |- _ =>
        change (u "https://") with (u "http" ++ u "s" ++ u "://");
        rewrite <- !app_assoc;
        rewrite (lit_match_app _ _ _ _ _ Hh), (lit_match_app _ _ _ _ _ Hs);
        rewrite (lit_match_extend _ _ _ _ Hc)
    end.
    eexists. reflexivity.
  - left.
    match goal with
    | Hh : lit_match true (u "http") _ = Some [],
      Hc : lit_match true (u "://") _ = Some [] |- _ =>
        change (u "http://") with (u "http" ++ u "://");
        rewrite <- !app_assoc; cbn [app];
        rewrite (lit_match_app _ _ _ _ _ Hh);
        rewrite (lit_match_extend _ _ _ _ Hc)
    end.
    eexists. reflexivity.
Qed.

Lemma file_extension_text w cap cap' :
  Match true file_extension w cap cap' -> cap' = cap /\ (34 ∉ w).
Proof.
  unfold file_extension. intros H. invert_match; (split; [reflexivity | no_quote]).
Qed.

Lemma assignment_capture r w cap :
  r = jsDownloadLinkRegex2 \/ r = dlLinkRegex3 ->
  Match true r w None cap ->
  exists c, cap = Some c /\ c <> [] /\ (34 ∉ c) /\ is_http_link c.
Proof.
  intros [-> | ->]; unfold jsDownloadLinkRegex2, dlLinkRegex3; intros H; invert_match;
    match goal with
    | Hh : Match true http_url_head ?a _ _, Hp : forallb _ ?b = true |- _ =>
        destruct (http_head_scheme a _ _ b Hh) as (_ & Ha & Hq & Hs);
        exists (a ++ b); split; [reflexivity|]; split; [|split; [|exact Hs]];
        [destruct a; [contradiction | discriminate]
        |apply not_elem_of_app; split; [exact Hq | no_quote]]
    end.
Qed.

Lemma script_link_capture w cap :
  Match true directLinkInScriptRegex w None cap ->
  exists c, cap = Some c /\ c <> [] /\ (34 ∉ c) /\ is_http_link c.
Proof.
  unfold directLinkInScriptRegex. intros H. invert_match.
  match goal with
  | Hh : Match true http_url_head ?a _ _, He : Match true file_extension ?e _ _ |- _ =>
      destruct (file_extension_text _ _ _ He) as [_ Hq'];
      match goal with
      | |- exists c, Some (a ++ ?rest) = Some c /\ _ =>
          destruct (http_head_scheme a _ _ rest Hh) as (_ & Ha & Hq & Hs);
          exists (a ++ rest); split; [reflexivity|]; split; [|split; [|exact Hs]];
          [destruct a; [contradiction | discriminate]|]
      end
  end.
  - apply not_elem_of_app. split; [exact Hq|].
    apply not_elem_of_app. split; [no_quote|].
    apply not_elem_of_app. split; [no_quote | exact Hq'].
Qed.

Lemma capture1_inv mt d : capture1 mt = Some d -> mt = Some (Some d) /\ d <> [].
Proof.
  unfold capture1. destruct mt as [[c|]|]; try discriminate.
  destruct c as [|x c]; [discriminate|]. intros [= <-]. split; [reflexivity | discriminate].
Qed.

(** What each pattern captures, wherever it matches. *)
Lemma link_pattern_capture r html cap :
  In r link_patterns -> matches_in true r html cap ->
  exists c a b, cap = Some c /\ c <> [] /\ (34 ∉ c) /\ html = a ++ c ++ b
                /\ (r <> downloadLinkRegex1 -> is_http_link c).
Proof.
  intros Hr (a & w & b & -> & HM).
  assert (Hc : exists c, cap = Some c /\ c <> [] /\ (34 ∉ c)
                         /\ (r <> downloadLinkRegex1 -> is_http_link c)).
  { unfold link_patterns in Hr. cbn [In] in Hr.
    destruct Hr as [<- | [<- | [<- | [<- | []]]]].
    - destruct (pattern1_capture _ _ HM) as (c & -> & H1 & H2).
      exists c. split; [reflexivity|]. split; [exact H1|]. split; [exact H2|]. contradiction.
    - destruct (assignment_capture _ _ _ (or_introl eq_refl) HM) as (c & -> & H1 & H2 & H3).
      exists c. split; [reflexivity|]. split; [exact H1|]. split; [exact H2|]. intros _. exact H3.
    - destruct (assignment_capture _ _ _ (or_intror eq_refl) HM) as (c & -> & H1 & H2 & H3).
      exists c. split; [reflexivity|]. split; [exact H1|]. split; [exact H2|]. intros _. exact H3.
    - destruct (script_link_capture _ _ HM) as (c & -> & H1 & H2 & H3).
      exists c. split; [reflexivity|]. split; [exact H1|]. split; [exact H2|]. intros _. exact H3. }
  destruct Hc as (c & -> & H1 & H2 & H3).
  destruct (Match_capture _ _ _ _ _ HM) as [[=] | (c' & x & y & [= <-] & ->)].
  exists c, (a ++ x), (y ++ b).
  split; [reflexivity|]. split; [exact H1|]. split; [exact H2|]. split; [|exact H3].
  rewrite <- !app_assoc. reflexivity.
Qed.

(** The pattern whose capture [extractDirectUrl] returns. *)
Lemma extractDirectUrl_source html d :
  extractDirectUrl html = Some d ->
  exists r, In r link_patterns /\ exec true r html = Some (Some d)
            /\ (r <> downloadLinkRegex1 ->
                capture1 (exec true downloadLinkRegex1 html) = None).
Proof.
  unfold extractDirectUrl, link_patterns.
  destruct (capture1 (exec true downloadLinkRegex1 html)) as [d1|] eqn:E1.
  { intros [= ->]. apply capture1_inv in E1. exists downloadLinkRegex1.
    split; [simpl; tauto|]. split; [apply E1 | contradiction]. }
  destruct (capture1 (exec true jsDownloadLinkRegex2 html)) as [d2|] eqn:E2.
  { intros [= ->]. apply capture1_inv in E2. exists jsDownloadLinkRegex2.
    split; [simpl; tauto|]. split; [apply E2 | reflexivity]. }
  destruct (capture1 (exec true dlLinkRegex3 html)) as [d3|] eqn:E3.
  { intros [= ->]. apply capture1_inv in E3. exists dlLinkRegex3.
    split; [simpl; tauto|]. split; [apply E3 | reflexivity]. }
  intros E4. apply capture1_inv in E4. exists directLinkInScriptRegex.
  split; [simpl; tauto|]. split; [apply E4 | reflexivity].
Qed.

(** X9: a link that the extractor returns is never made up: it is a
    non-empty part of the landing page, as it stands there, and it contains
    no double quote. *)
Theorem extracted_link_is_text_of_the_page html d :
  extractDirectUrl html = Some d ->
  d <> [] /\ (34 ∉ d) /\ exists a b, html = a ++ d ++ b.
Proof.
  intros H. destruct (extractDirectUrl_source _ _ H) as (r & Hr & He & _).
  apply exec_sound in He.
  destruct (link_pattern_capture _ _ _ Hr He) as (c & a & b & [= <-] & H1 & H2 & H3 & _).
  split; [exact H1|]. split; [exact H2|]. exists a, b. exact H3.
Qed.

Lemma extracted_link_is_text_of_the_page_witness :
  let d := u "https://download123.mediafire.com/xyz/notes.txt" in
  extractDirectUrl (up_text sample_page) = Some d
  /\ d <> [] /\ (34 ∉ d) /\ exists a b, up_text sample_page = a ++ d ++ b.
Proof.
  intros d.
  assert (H : extractDirectUrl (up_text sample_page) = Some d) by (vm_compute; reflexivity).
  split; [exact H|]. exact (extracted_link_is_text_of_the_page _ _ H).
Defined.

Lemma extractDirectUrl_none html :
  extractDirectUrl html = None <->
  (forall r, In r link_patterns -> capture1 (exec true r html) = None).
Proof.
  unfold extractDirectUrl, link_patterns. split.
  - intros H r Hr. cbn [In] in Hr.
    destruct (capture1 (exec true downloadLinkRegex1 html)) eqn:E1; [discriminate|].
    destruct (capture1 (exec true jsDownloadLinkRegex2 html)) eqn:E2; [discriminate|].
    destruct (capture1 (exec true dlLinkRegex3 html)) eqn:E3; [discriminate|].
    destruct Hr as [<- | [<- | [<- | [<- | []]]]]; assumption.
  - intros H.
    rewrite (H downloadLinkRegex1), (H jsDownloadLinkRegex2), (H dlLinkRegex3) by (simpl; tauto).
    apply H. simpl. tauto.
Qed.

(** X10: the extraction fails exactly when no part of the landing page
    belongs to the language of any of the four patterns; a pattern that
    matches always yields a link. *)
Theorem extraction_fails_only_without_match html :
  extractDirectUrl html = None <->
  (forall r cap, In r link_patterns -> ~ matches_in true r html cap).
Proof.
  rewrite extractDirectUrl_none. split.
  - intros H r cap Hr HM. specialize (H r Hr).
    destruct (exec_complete _ _ _ _ HM) as [cap' He].
    pose proof (exec_sound _ _ _ _ He) as HM'.
    destruct (link_pattern_capture _ _ _ Hr HM') as (c & a & b & -> & Hc & _).
    rewrite He in H. destruct c; [contradiction | discriminate H].
  - intros H r Hr. destruct (exec true r html) as [cap|] eqn:He; [|reflexivity].
    exfalso. apply (H r cap Hr), exec_sound, He.
Qed.

(** X11: only the download button can yield a link of another kind: when
    pattern 1 does not match, the link that the extractor returns starts
    with http:// or https://, in either case. *)
Theorem fallback_links_are_http html d :
  exec true downloadLinkRegex1 html = None ->
  extractDirectUrl html = Some d ->
  is_http_link d.
Proof.
  intros H1 H. destruct (extractDirectUrl_source _ _ H) as (r & Hr & He & _).
  pose proof (exec_sound _ _ _ _ He) as HM.
  destruct (link_pattern_capture _ _ _ Hr HM) as (c & a & b & [= <-] & _ & _ & _ & Hhttp).
  apply Hhttp. intros ->. congruence.
Qed.

Lemma fallback_links_are_http_witness :
  let html := u ("<script>window.dl_link = " +:+ quoted "HTTPS://download.example/get?id=1"
                 +:+ ";</script>") in
  extractDirectUrl html = Some (u "HTTPS://download.example/get?id=1")
  /\ is_http_link (u "HTTPS://download.example/get?id=1").
Proof.
  intros html.
  assert (H : extractDirectUrl html = Some (u "HTTPS://download.example/get?id=1"))
    by (vm_compute; reflexivity).
  split; [exact H|].
  apply (fallback_links_are_http html _); [vm_compute; reflexivity | exact H].
Defined.

(** ** Pattern 3 on an assignment to window.dl_link *)

(** A literal matched on [q ++ R], where [q] is not empty and no proper end
    of the literal matches at the head of [R], lies within [q]. *)
Lemma lit_match_inside ci l q R s' :
  lit_match ci l (q ++ R) = Some s' ->
  q <> [] ->
  (forall n, (0 < n < length l)%nat -> lit_match ci (drop n l) R = None) ->
  exists q', lit_match ci l q = Some q' /\ s' = q' ++ R.
Proof.
  revert q. induction l as [|x l IH]; intros q.
  - cbn [lit_match]. intros [= <-] _ _. exists q. split; reflexivity.
  - intros H Hq Hl. destruct q as [|d q]; [contradiction|]. cbn [app lit_match] in H |- *.
    destruct (canon ci x =? canon ci d); [|discriminate].
    destruct q as [|e q].
    + cbn [app] in H. destruct l as [|y l].
      * cbn [lit_match] in H |- *. injection H as <-. exists []. split; reflexivity.
      * assert (Hn : lit_match ci (drop 1 (x :: y :: l)) R = None)
          by (apply Hl; cbn [length]; lia).
        cbn [drop] in Hn. rewrite Hn in H. discriminate.
    + apply IH in H; [exact H | discriminate |].
      intros n Hn. apply (Hl (S n)). cbn [length]. lia.
Qed.

Section DlLinkAssignment.
Variables scheme Y post : list N.
Hypothesis scheme_http : scheme = u "http" \/ scheme = u "https".
Hypothesis Y_not_empty : Y <> [].
Hypothesis Y_no_quote : 34 ∉ Y.

Let X : list N := scheme ++ u "://" ++ Y.
Let R : list N := u (dq +:+ ";") ++ post.
Let assignment : list N := u "window.dl_link" ++ 32 :: u "=" ++ 32 :: u dq ++ X ++ R.

Lemma pattern3_at_assignment :
  match_here true dlLinkRegex3 assignment = Some (Some X).
Proof.
  unfold match_here, dlLinkRegex3, assignment.
  rewrite m_seq, m_lit. cbv beta. rewrite m_seq.
  apply (m_star_all true space [32]); [reflexivity | reflexivity |].
  rewrite m_seq, m_lit. cbv beta. rewrite m_seq.
  apply (m_star_all true space [32]); [reflexivity | reflexivity |].
  rewrite m_seq, m_lit. cbv beta.
  apply (link_group_here scheme Y post scheme_http Y_not_empty Y_no_quote).
Qed.

Lemma no_end_of_the_name_at_assignment n :
  (0 < n < length (u "window.dl_link"))%nat ->
  lit_match true (drop n (u "window.dl_link")) assignment = None.
Proof.
  intros Hn. unfold assignment.
  do 14 (destruct n as [|n]; [first [lia | reflexivity]|]).
  simpl in Hn. lia.
Qed.

(** In front of the assignment, where window.dl_link does not occur,
    pattern 3 finds nothing. *)
Lemma pattern3_before_assignment q :
  occurs true (u "window.dl_link") q = false -> q <> [] ->
  match_here true dlLinkRegex3 (q ++ assignment) = None.
Proof.
  intros Hocc Hq. unfold match_here, dlLinkRegex3.
  rewrite m_seq, m_lit_unfold.
  destruct (lit_match true (u "window.dl_link") (q ++ assignment)) as [s'|] eqn:E;
    [exfalso|reflexivity].
  apply lit_match_inside in E; [|exact Hq|apply no_end_of_the_name_at_assignment].
  destruct E as (q' & E & _). apply occurs_here in Hocc. congruence.
Qed.

Lemma pattern3_finds_assignment pre :
  occurs true (u "window.dl_link") pre = false ->
  exec true dlLinkRegex3 (pre ++ assignment) = Some (Some X).
Proof.
  induction pre as [|c pre IH]; intros Hocc.
  - cbn [app]. pose proof pattern3_at_assignment as H.
    destruct assignment; cbn [exec]; rewrite H; reflexivity.
  - cbn [app exec].
    pose proof (pattern3_before_assignment (c :: pre) Hocc) as H.
    cbn [app] in H. rewrite H by discriminate.
    apply IH. eapply occurs_tail, Hocc.
Qed.
End DlLinkAssignment.

(** X12: on a text that patterns 1 and 2 do not match and that contains
    the assignment [window.dl_link = X;] with X in double quotes, where X is
    http:// or https:// followed by at least one character and has no double
    quote, and where window.dl_link does not occur in front of the
    assignment, the extractor returns X. *)
Theorem dl_link_assignment_is_found pre scheme Y post :
  scheme = u "http" \/ scheme = u "https" ->
  Y <> [] -> (34 ∉ Y) ->
  occurs true (u "window.dl_link") pre = false ->
  exec true downloadLinkRegex1
    (pre ++ u ("window.dl_link = " +:+ dq) ++ (scheme ++ u "://" ++ Y)
         ++ u (dq +:+ ";") ++ post) = None ->
  exec true jsDownloadLinkRegex2
    (pre ++ u ("window.dl_link = " +:+ dq) ++ (scheme ++ u "://" ++ Y)
         ++ u (dq +:+ ";") ++ post) = None ->
  extractDirectUrl
    (pre ++ u ("window.dl_link = " +:+ dq) ++ (scheme ++ u "://" ++ Y)
         ++ u (dq +:+ ";") ++ post)
  = Some (scheme ++ u "://" ++ Y).
Proof.
  intros Hs HY Hq Hpre H1 H2. unfold extractDirectUrl. rewrite H1, H2. cbn [capture1].
  pose proof (pattern3_finds_assignment scheme Y post Hs HY Hq pre Hpre) as H.
  cbv zeta in H.
  change (exec true dlLinkRegex3
            (pre ++ u ("window.dl_link = " +:+ dq) ++ (scheme ++ u "://" ++ Y)
                 ++ u (dq +:+ ";") ++ post) = Some (Some (scheme ++ u "://" ++ Y))) in H.
  rewrite H, capture1_found; [reflexivity|].
  destruct Hs as [-> | ->]; discriminate.
Qed.

Lemma dl_link_assignment_is_found_witness :
  let pre := u "<html><script>var x = 1; " in
  let Y := u "download.example/get?id=1" in
  extractDirectUrl
    (pre ++ u ("window.dl_link = " +:+ dq) ++ (u "http" ++ u "://" ++ Y)
         ++ u (dq +:+ ";") ++ u "</script></html>")
  = Some (u "http" ++ u "://" ++ Y).
Proof.
  intros pre Y. apply (dl_link_assignment_is_found pre (u "http") Y).
  - left. reflexivity.
  - discriminate.
  - apply (bool_decide_unpack _). vm_compute. reflexivity.
  - vm_compute. reflexivity.
  - vm_compute. reflexivity.
  - vm_compute. reflexivity.
Defined.

(** * decodeURIComponent *)

Lemma decode_plain n s : (37 ∉ s) -> (length s <= n)%nat -> decode n s = Ok s.
Proof.
  revert n. induction s as [|c s IH]; intros n Hs Hn; [destruct n; reflexivity|].
  apply not_elem_of_cons in Hs. destruct Hs as [Hc Hs].
  destruct n as [|n]; [simpl in Hn; lia|]. cbn [decode].
  replace (c =? 37) with false by (symmetry; apply N.eqb_neq; congruence).
  rewrite IH; [reflexivity | exact Hs | simpl in Hn; lia].
Qed.

Lemma utf16_encode_not_empty v r : utf16_encode v ++ r <> [].
Proof. unfold utf16_encode. destruct (v <? 65536); discriminate. Qed.

Lemma decode_not_empty n c s r : decode (S n) (c :: s) = Ok r -> r <> [].
Proof.
  cbn [decode]. destruct (c =? 37).
  - destruct (escape_octet (c :: s)) as [[b rest]|]; [|discriminate].
    destruct (leading_ones b) as [|[|n']].
    + destruct (decode n rest); [|discriminate]. intros [= <-]. discriminate.
    + discriminate.
    + destruct (3 <? S n')%nat; [discriminate|].
      destruct (escape_octets (S n') rest) as [[octets rest']|]; [|discriminate].
      destruct (utf8_code_point b octets); [|discriminate].
      destruct (decode n rest'); [|discriminate]. intros [= <-]. apply utf16_encode_not_empty.
  - destruct (decode n s); [|discriminate]. intros [= <-]. discriminate.
Qed.

Lemma decode_throws_URIError n s e : decode n s = Throw e -> e = URIError.
Proof.
  revert s. induction n as [|n IH]; intros s; destruct s as [|c s]; cbn [decode];
    try discriminate; [intros [= <-]; reflexivity|].
  destruct (c =? 37).
  - destruct (escape_octet (c :: s)) as [[b rest]|]; [|intros [= <-]; reflexivity].
    destruct (leading_ones b) as [|[|n']].
    + destruct (decode n rest) eqn:E; [discriminate|]. intros [= <-]. apply (IH _ E).
    + intros [= <-]. reflexivity.
    + destruct (3 <? S n')%nat; [intros [= <-]; reflexivity|].
      destruct (escape_octets (S n') rest) as [[octets rest']|]; [|intros [= <-]; reflexivity].
      destruct (utf8_code_point b octets); [|intros [= <-]; reflexivity].
      destruct (decode n rest') eqn:E; [discriminate|]. intros [= <-]. apply (IH _ E).
  - destruct (decode n s) eqn:E; [discriminate|]. intros [= <-]. apply (IH _ E).
Qed.

Lemma hexval_percent : hexval 37 = None.
Proof. reflexivity. Qed.

Lemma escape_octet_eq s :
  escape_octet s
  = match s with
    | c :: h :: l :: rest =>
        if c =? 37 then
          match hexval h, hexval l with
          | Some x, Some y => Some (16 * x + y, rest)
          | _, _ => None
          end
        else None
    | _ => None
    end.
Proof.
  unfold escape_octet. destruct s as [|c [|h [|l rest]]]; [reflexivity|..];
    (destruct c as [|p0]; [reflexivity|]);
    repeat (destruct p0 as [p0|p0|]; try reflexivity).
Qed.

Section MalformedEscape.
Variable b : list N.
Hypothesis bad : escape_octet (37 :: b) = None.

(** An escape read in front of the malformed one lies in front of it. *)
Lemma escape_octet_within a o rest :
  escape_octet (a ++ 37 :: b) = Some (o, rest) ->
  exists a', rest = a' ++ 37 :: b /\ (length a' < length a)%nat.
Proof.
  destruct a as [|c [|h [|l a]]]; cbn [app].
  - rewrite bad. discriminate.
  - rewrite escape_octet_eq. destruct b as [|l b']; [discriminate|].
    destruct (c =? 37); [|discriminate]. rewrite hexval_percent. discriminate.
  - rewrite escape_octet_eq. destruct (c =? 37); [|discriminate].
    rewrite hexval_percent. destruct (hexval h); discriminate.
  - rewrite escape_octet_eq. destruct (c =? 37); [|discriminate].
    destruct (hexval h), (hexval l); try discriminate.
    intros [= _ <-]. exists a. split; [reflexivity | simpl; lia].
Qed.

Lemma escape_octets_within n a os rest :
  escape_octets n (a ++ 37 :: b) = Some (os, rest) ->
  exists a', rest = a' ++ 37 :: b /\ (length a' <= length a)%nat.
Proof.
  revert a os rest. induction n as [|n IH]; intros a os rest; cbn [escape_octets].
  - intros [= _ <-]. exists a. split; [reflexivity | lia].
  - destruct (escape_octet (a ++ 37 :: b)) as [[o s1]|] eqn:E; [|discriminate].
    apply escape_octet_within in E. destruct E as (a1 & -> & Hlen).
    destruct (escape_octets n (a1 ++ 37 :: b)) as [[os' s2]|] eqn:E'; [|discriminate].
    apply IH in E'. destruct E' as (a2 & -> & Hlen').
    intros [= _ <-]. exists a2. split; [reflexivity | lia].
Qed.

(** A percent sign that is not followed by two hexadecimal digits makes the
    decoding throw, wherever it stands. *)
Lemma decode_malformed n a : decode n (a ++ 37 :: b) = Throw URIError.
Proof.
  revert a. induction n as [|n IH]; intros a.
  - destruct a; reflexivity.
  - destruct a as [|c a].
    + cbn [app decode]. rewrite N.eqb_refl, bad. reflexivity.
    + cbn [app decode]. destruct (c =? 37).
      * destruct (escape_octet (c :: a ++ 37 :: b)) as [[o rest]|] eqn:E; [|reflexivity].
        apply (escape_octet_within (c :: a)) in E. destruct E as (a1 & -> & _).
        destruct (leading_ones o) as [|[|n']].
        -- rewrite IH. reflexivity.
        -- reflexivity.
        -- destruct (3 <? S n')%nat; [reflexivity|].
           destruct (escape_octets (S n') (a1 ++ 37 :: b)) as [[os rest']|] eqn:E'; [|reflexivity].
           apply escape_octets_within in E'. destruct E' as (a2 & -> & _).
           destruct (utf8_code_point o os); [|reflexivity]. rewrite IH. reflexivity.
      * rewrite IH. reflexivity.
Qed.
End MalformedEscape.

(** X13: decodeURIComponent leaves a string without percent sign as it
    is; it throws URIError, and nothing else, on every string with a percent
    sign that is not followed by two hexadecimal digits; and what it returns
    for a non-empty string is never empty. *)
Theorem decodeURIComponent_edges :
  (forall s, (37 ∉ s) -> decodeURIComponent s = Ok s)
  /\ (forall a b, escape_octet (37 :: b) = None ->
                  decodeURIComponent (a ++ 37 :: b) = Throw URIError)
  /\ (forall s e, decodeURIComponent s = Throw e -> e = URIError)
  /\ (forall s r, s <> [] -> decodeURIComponent s = Ok r -> r <> []).
Proof.
  unfold decodeURIComponent. repeat split.
  - intros s Hs. apply decode_plain; [exact Hs | lia].
  - intros a b Hb. apply decode_malformed, Hb.
  - intros s e. apply decode_throws_URIError.
  - intros s r Hs. destruct s as [|c s]; [contradiction|]. apply decode_not_empty.
Qed.

Lemma decodeURIComponent_edges_witness :
  decodeURIComponent (u "My File.pdf") = Ok (u "My File.pdf")
  /\ decodeURIComponent (u "100%" ++ 37 :: u " off") = Throw URIError.
Proof.
  destruct decodeURIComponent_edges as (H1 & H2 & _). split.
  - apply H1. apply (bool_decide_unpack _). vm_compute. reflexivity.
  - apply H2. reflexivity.
Defined.

(** * The file name, in general *)

Lemma exec_here ci r s cap : match_here ci r s = Some cap -> exec ci r s = Some cap.
Proof. intros H. destruct s; cbn [exec]; rewrite H; reflexivity. Qed.

Lemma m_set1_cons {A} ci cl c s cap (k : jsstring -> option jsstring -> option A) :
  in_class ci cl c = true -> m ci (Set1 cl) (c :: s) cap k = k s cap.
Proof. intros H. cbn [m]. rewrite H. reflexivity. Qed.

Lemma in_name_class c :
  c <> 59 -> c <> 34 -> in_class true (Class true [CChar ";"; CChar dq]) c = true.
Proof.
  intros H1 H2. unfold in_class. cbn [negated items existsb in_item xorb].
  change (chr ";") with 59. change (chr dq) with 34.
  destruct (canon true c =? canon true 59) eqn:E1.
  { rewrite N.eqb_sym in E1. apply canon_not_letter in E1; [contradiction | reflexivity]. }
  destruct (canon true c =? canon true 34) eqn:E2.
  { rewrite N.eqb_sym in E2. apply canon_not_letter in E2; [contradiction | reflexivity]. }
  reflexivity.
Qed.

Lemma forallb_name_class name :
  (59 ∉ name) -> (34 ∉ name) ->
  forallb (in_class true (Class true [CChar ";"; CChar dq])) name = true.
Proof.
  induction name as [|c name IH]; [reflexivity|].
  intros H1 H2. apply not_elem_of_cons in H1, H2. destruct H1 as [Hc1 H1], H2 as [Hc2 H2].
  cbn [forallb]. rewrite in_name_class by congruence. apply IH; assumption.
Qed.

(** The upstream header [attachment; filename=name], with the name in
    double quotes: the pattern captures the name. *)
Lemma filenameRegex_captures name :
  name <> [] -> (34 ∉ name) -> (59 ∉ name) ->
  lit_match true (u "UTF-8''") name = None ->
  exec true filenameRegex (u "attachment; " ++ u "filename" ++ u "=" ++ 34 :: name ++ [34])
  = Some (Some name).
Proof.
  intros Hne Hq Hs Hutf.
  change (exec true filenameRegex
            (u "attachment; " ++ u "filename" ++ u "=" ++ 34 :: name ++ [34]))
    with (exec true filenameRegex (u "filename" ++ u "=" ++ 34 :: name ++ [34])).
  apply exec_here. unfold match_here, filenameRegex.
  rewrite m_seq, m_lit. cbv beta. rewrite m_seq, m_opt_skipped by (apply m_lit_fail; reflexivity).
  rewrite m_seq, m_lit. cbv beta. rewrite m_seq. apply m_opt_taken.
  rewrite m_set1_cons by reflexivity. rewrite m_seq, m_opt_skipped.
  - cbv beta. rewrite m_group. apply m_plus_all.
    + exact Hne.
    + apply forallb_name_class; assumption.
    + reflexivity.
    + cbv beta. f_equal. f_equal. apply (take_captured name [34]).
  - apply m_lit_fail.
    destruct (lit_match true (u "UTF-8''") (name ++ [34])) as [s'|] eqn:E; [exfalso|reflexivity].
    apply lit_match_within in E; [|exact Hne|apply (bool_decide_unpack _); vm_compute; reflexivity].
    destruct E as (q' & E & _). congruence.
Qed.

(** X14: for the upstream header Content-Disposition: attachment;
    filename=NAME, with the name in double quotes, where NAME is not empty,
    has neither a double quote nor a semicolon and does not start with
    UTF-8'': the name is decoded with decodeURIComponent and taken as it
    comes out, so a name without percent sign, other than downloaded_file,
    is relayed unchanged whatever the link and the Content-Type are, and a
    name with a percent sign that is not followed by two hexadecimal digits
    makes the inference throw URIError. *)
Theorem disposition_name_is_decoded name link ct :
  name <> [] -> (34 ∉ name) -> (59 ∉ name) ->
  lit_match true (u "UTF-8''") name = None ->
  let cd := Some (u ("attachment; filename=" +:+ dq) ++ name ++ u dq) in
  filenameFromDisposition cd = decodeURIComponent name
  /\ ((37 ∉ name) -> name <> u "downloaded_file" -> inferFilename cd link ct = Ok name)
  /\ (forall a b, name = a ++ 37 :: b -> escape_octet (37 :: b) = None ->
                  inferFilename cd link ct = Throw URIError).
Proof.
  intros Hne Hq Hs Hutf cd.
  assert (Hcd : filenameFromDisposition cd = decodeURIComponent name).
  { unfold cd, filenameFromDisposition.
    change (truthy (u ("attachment; filename=" +:+ dq) ++ name ++ u dq)) with true.
    cbv iota.
    change (u ("attachment; filename=" +:+ dq) ++ name ++ u dq)
      with (u "attachment; " ++ u "filename" ++ u "=" ++ 34 :: name ++ [34]).
    rewrite (filenameRegex_captures name Hne Hq Hs Hutf), capture1_found by exact Hne.
    reflexivity. }
  split; [exact Hcd|]. split.
  - intros Hp Hdf. apply inferFilename_given; [|exact Hdf].
    rewrite Hcd. unfold decodeURIComponent. apply decode_plain; [exact Hp | lia].
  - intros a b -> Hb. unfold inferFilename. rewrite Hcd.
    unfold decodeURIComponent. rewrite (decode_malformed b Hb). reflexivity.
Qed.

Lemma disposition_name_is_decoded_witness :
  let link := sample_link in
  inferFilename (Some (u ("attachment; filename=" +:+ dq) ++ u "Quarterly report.xlsx" ++ u dq))
    link (Some (u "application/pdf")) = Ok (u "Quarterly report.xlsx")
  /\ inferFilename (Some (u ("attachment; filename=" +:+ dq) ++ (u "50" ++ 37 :: u " off.pdf") ++ u dq))
       link None = Throw URIError.
Proof.
  intros link. split.
  - destruct (disposition_name_is_decoded (u "Quarterly report.xlsx") link
                (Some (u "application/pdf"))) as (_ & H & _);
      [discriminate
      | apply (bool_decide_unpack _); vm_compute; reflexivity
      | apply (bool_decide_unpack _); vm_compute; reflexivity
      | reflexivity |].
    apply H; [apply (bool_decide_unpack _); vm_compute; reflexivity | discriminate].
  - destruct (disposition_name_is_decoded (u "50" ++ 37 :: u " off.pdf") link None)
      as (_ & _ & H);
      [discriminate
      | apply (bool_decide_unpack _); vm_compute; reflexivity
      | apply (bool_decide_unpack _); vm_compute; reflexivity
      | reflexivity |].
    apply (H (u "50") (u " off.pdf")); reflexivity.
Defined.

Lemma capture1_not_empty mt d : capture1 mt = Some d -> d <> [].
Proof. intros H. apply capture1_inv in H. apply H. Qed.

Lemma decodeURIComponent_not_empty s r : s <> [] -> decodeURIComponent s = Ok r -> r <> [].
Proof. destruct s as [|c s]; [contradiction|]. intros _. apply decode_not_empty. Qed.

Lemma filenameFromDisposition_not_empty cd name :
  filenameFromDisposition cd = Ok name -> name <> [].
Proof.
  unfold filenameFromDisposition.
  destruct cd as [cd|]; [|intros [= <-]; discriminate].
  destruct (truthy cd); [|intros [= <-]; discriminate].
  destruct (capture1 (exec true filenameRegex cd)) as [c|] eqn:E; [|intros [= <-]; discriminate].
  apply decodeURIComponent_not_empty. eapply capture1_not_empty, E.
Qed.

Lemma filenameFromLink_not_empty link filename :
  filename <> [] -> filenameFromLink link filename <> [].
Proof.
  intros Hf. unfold filenameFromLink.
  destruct (URL_pathname link) as [pathname|e]; [|exact Hf]. cbv zeta.
  destruct (truthy _ && negb _) eqn:E.
  - apply andb_true_iff in E. destruct E as [E _].
    destruct (decodeURIComponent _) as [name|e] eqn:Ed; [|exact Hf].
    apply decodeURIComponent_not_empty in Ed; [exact Ed|].
    destruct (default [] (if (2 <=? length (split 47 pathname))%nat then _ else _));
      [discriminate E | simpl; discriminate].
  - destruct (capture1 _); [discriminate | exact Hf].
Qed.

Lemma addExtension_not_empty name ct : name <> [] -> addExtension name ct <> [].
Proof.
  intros Hn. unfold addExtension.
  assert (Happ : forall e, name ++ u "." ++ e <> []) by (intros e; destruct name; [contradiction | discriminate]).
  destruct ct as [ct|]; [|exact Hn].
  destruct (negb _ && truthy ct); [|exact Hn]. cbv zeta.
  destruct (match extMap_get (mimeOf ct) with Some e => _ | None => _ end) as [e|]; [|exact Hn].
  destruct (truthy e && negb _); [apply Happ | exact Hn].
Qed.

(** X15: the inferred file name is never empty, whatever the upstream
    header, the link and the Content-Type are; so a relayed response always
    names a file in its Content-Disposition. *)
Theorem inferred_filename_is_never_empty :
  (forall cd link ct name, inferFilename cd link ct = Ok name -> name <> [])
  /\ (forall file link r,
        relay file link = Ok r ->
        exists name, name <> []
                     /\ Headers_get "Content-Disposition" (headers r) = Some (attachment name)).
Proof.
  assert (H : forall cd link ct name, inferFilename cd link ct = Ok name -> name <> []).
  { intros cd link ct name. unfold inferFilename.
    destruct (filenameFromDisposition cd) as [given|e] eqn:E; [|discriminate].
    apply filenameFromDisposition_not_empty in E.
    destruct (streq given (u "downloaded_file")).
    - intros [= <-]. apply addExtension_not_empty, filenameFromLink_not_empty, E.
    - intros [= <-]. exact E. }
  split; [exact H|].
  intros file link r Hrelay. apply relay_inv in Hrelay.
  destruct Hrelay as (name & E & _ & _ & ->). rewrite normalize_attachment.
  exists name. split; [apply (H _ _ _ _ E)|].
  cbn [headers]. unfold scrub.
  repeat (rewrite get_delete_ne by (vm_compute; discriminate)).
  apply get_set_eq. reflexivity.
Qed.

Lemma inferred_filename_is_never_empty_witness :
  exists name,
    inferFilename None (u "https://www.mediafire.com/") (Some (u "application/octet-stream"))
    = Ok name /\ name <> [].
Proof.
  destruct (inferFilename None (u "https://www.mediafire.com/")
              (Some (u "application/octet-stream"))) as [name|e] eqn:E;
    [|vm_compute in E; discriminate E].
  exists name. split; [reflexivity|].
  destruct inferred_filename_is_never_empty as [H _]. apply (H _ _ _ _ E).
Defined.

(** * The link as a URL *)

Lemma drop_while_app_stop p a c b :
  p c = false -> drop_while p (a ++ c :: b) = drop_while p a ++ c :: b.
Proof.
  intros Hc. induction a as [|x a IH]; cbn [app drop_while].
  - rewrite Hc. reflexivity.
  - destruct (p x); [exact IH | reflexivity].
Qed.

Lemma after_prefix_app p s : after_prefix p (p ++ s) = Some s.
Proof.
  induction p as [|c p IH]; cbn [app after_prefix]; [reflexivity|].
  rewrite N.eqb_refl. exact IH.
Qed.

Lemma close_segment_not_empty buffer path : close_segment false buffer path <> [].
Proof.
  unfold close_segment.
  destruct (is_double_dot buffer); [destruct (removelast path); discriminate|].
  destruct (is_single_dot buffer); destruct path; discriminate.
Qed.

Lemma path_state_not_empty input : forall buffer path, path_state input buffer path <> [].
Proof.
  induction input as [|c input IH]; intros buffer path; cbn [path_state].
  - apply close_segment_not_empty.
  - destruct ((c =? 47) || (c =? 92)); [apply IH|].
    destruct ((c =? 63) || (c =? 35)); [apply close_segment_not_empty | apply IH].
Qed.

(** What the URL parser sees of a link that starts with one of the two
    accepted prefixes: the prefix stays in front. *)
Lemma url_input_keeps_prefix p rest :
  p = u "http://www.mediafire.com/" \/ p = u "https://www.mediafire.com/" ->
  exists rest', url_input (p ++ rest) = p ++ rest'.
Proof.
  intros Hp. unfold url_input.
  exists (filter (fun c => is_tab_or_newline c = false)
            (rev (drop_while is_c0_or_space (rev rest)))).
  assert (H1 : drop_while is_c0_or_space (p ++ rest) = p ++ rest)
    by (destruct Hp as [-> | ->]; reflexivity).
  rewrite H1, rev_app_distr.
  assert (H2 : exists b, rev p = 47 :: b)
    by (destruct Hp as [-> | ->]; eexists; vm_compute; reflexivity).
  destruct H2 as [b Hb]. rewrite Hb, drop_while_app_stop by reflexivity.
  rewrite <- Hb, rev_app_distr, rev_involutive, filter_app. f_equal.
  destruct Hp as [-> | ->]; vm_compute; reflexivity.
Qed.

(** X16: for every link that passed the validation, the URL parser of
    the file-name fallback succeeds, and the path name starts with a slash;
    so what the inner try block can catch is a failure of
    decodeURIComponent only. *)
Theorem valid_link_always_parses link :
  validLink link = true -> exists p, URL_pathname link = Ok (47 :: p).
Proof.
  unfold validLink. intros H. apply orb_true_iff in H.
  assert (Hp : exists p rest,
             (p = u "http://www.mediafire.com/" \/ p = u "https://www.mediafire.com/")
             /\ link = p ++ rest).
  { destruct H as [H | H]; apply startsWith_prefix in H; destruct H as [rest ->];
      eexists _, rest; split; try reflexivity; auto. }
  destruct Hp as (p & rest & Hp & ->).
  destruct (url_input_keeps_prefix p rest Hp) as [rest' Hin].
  unfold URL_pathname. rewrite Hin.
  assert (Hafter :
    match after_prefix (u "http://www.mediafire.com/") (p ++ rest') with
    | Some r => Some r
    | None => after_prefix (u "https://www.mediafire.com/") (p ++ rest')
    end = Some rest').
  { destruct Hp as [-> | ->].
    - rewrite after_prefix_app. reflexivity.
    - change (after_prefix (u "http://www.mediafire.com/")
                (u "https://www.mediafire.com/" ++ rest')) with (@None (list N)).
      apply after_prefix_app. }
  cbv zeta. rewrite Hafter.
  pose proof (path_state_not_empty (scalar_values rest') [] []) as Hne.
  destruct (path_state (scalar_values rest') [] []) as [|seg segs]; [contradiction|].
  eexists. reflexivity.
Qed.

Lemma valid_link_always_parses_witness :
  exists p, URL_pathname (u "https://www.mediafire.com/?a b/../%zz#x") = Ok (47 :: p).
Proof.
  apply valid_link_always_parses. vm_compute. reflexivity.
Defined.


(** * The name of a share link *)

Lemma split_app_no_sep sep seg rest hd tl :
  (sep ∉ seg) -> split sep rest = hd :: tl -> split sep (seg ++ rest) = (seg ++ hd) :: tl.
Proof.
  intros Hseg Hrest. induction seg as [|c seg IH]; cbn [app]; [exact Hrest|].
  apply not_elem_of_cons in Hseg. destruct Hseg as [Hc Hseg].
  cbn [split]. replace (c =? sep) with false by (symmetry; apply N.eqb_neq; congruence).
  rewrite (IH Hseg). reflexivity.
Qed.

(** Splitting a path name at the slashes gives back its segments, after
    the empty string in front of the first slash. *)
Lemma split_pathname segs :
  Forall (fun seg => 47 ∉ seg) segs ->
  split 47 (flat_map (fun seg => 47 :: seg) segs) = [] :: segs.
Proof.
  induction 1 as [|seg segs Hseg Hsegs IH]; [reflexivity|].
  cbn [flat_map app split]. rewrite N.eqb_refl. f_equal.
  rewrite (split_app_no_sep 47 seg _ [] segs Hseg IH), app_nil_r. reflexivity.
Qed.

Lemma scalar_values_ascii s :
  forallb (fun c => c <? 127) s = true -> scalar_values s = s.
Proof.
  induction s as [|c s IH]; [reflexivity|]. cbn [forallb]. intros H.
  apply andb_true_iff in H. destruct H as [Hc Hs]. apply N.ltb_lt in Hc.
  cbn [scalar_values].
  replace (55296 <=? c) with false by (symmetry; apply N.leb_gt; lia).
  replace (56320 <=? c) with false by (symmetry; apply N.leb_gt; lia).
  cbn [andb]. rewrite (IH Hs). reflexivity.
Qed.

Lemma percent_encode_path_no_slash c :
  ((c =? 47) || (c =? 92)) = false -> 47 ∉ percent_encode_path c.
Proof.
  intros Hc. apply orb_false_iff in Hc. destruct Hc as [Hc _]. apply N.eqb_neq in Hc.
  unfold percent_encode_path. destruct (in_path_percent_encode_set c).
  - assert (Hhex : forall d, d < 16 -> hexdigit d <> 47).
    { intros d Hd. unfold hexdigit. destruct (d <? 10) eqn:E; [|lia].
      apply N.ltb_lt in E. lia. }
    assert (Hoct : forall b, 47 ∉ percent_encode_octet b).
    { intros b. unfold percent_encode_octet.
      assert (b mod 16 < 16) by (apply N.mod_lt; lia).
      destruct (N.lt_ge_cases (b / 16) 16) as [Hlt | Hge].
      - repeat (apply not_elem_of_cons; split); try apply not_elem_of_nil;
          [discriminate | apply not_eq_sym, Hhex, Hlt | apply not_eq_sym, Hhex; assumption].
      - repeat (apply not_elem_of_cons; split); try apply not_elem_of_nil;
          [discriminate | | apply not_eq_sym, Hhex; assumption].
        unfold hexdigit. replace (b / 16 <? 10) with false by (symmetry; apply N.ltb_ge; lia). lia. }
    intros Hin. apply list_elem_of_In, in_flat_map in Hin.
    destruct Hin as (b & _ & Hb). apply list_elem_of_In in Hb. apply (Hoct b Hb).
  - apply not_elem_of_cons. split; [congruence | apply not_elem_of_nil].
Qed.

Lemma Forall_removelast {A} (P : A -> Prop) l : Forall P l -> Forall P (removelast l).
Proof.
  induction 1 as [|x l Hx Hl IH]; [constructor|].
  cbn [removelast]. destruct l; [constructor | constructor; assumption].
Qed.

Lemma close_segment_no_slash slash buffer path :
  Forall (fun seg => 47 ∉ seg) path -> (47 ∉ buffer) ->
  Forall (fun seg => 47 ∉ seg) (close_segment slash buffer path).
Proof.
  intros Hpath Hbuf. unfold close_segment.
  assert (Hnil : Forall (fun seg : list N => 47 ∉ seg) [[]])
    by (constructor; [apply not_elem_of_nil | constructor]).
  destruct (is_double_dot buffer).
  { destruct slash; [apply Forall_removelast, Hpath|].
    apply Forall_app. split; [apply Forall_removelast, Hpath | exact Hnil]. }
  destruct (is_single_dot buffer).
  { destruct slash; [exact Hpath|]. apply Forall_app. split; [exact Hpath | exact Hnil]. }
  apply Forall_app. split; [exact Hpath|]. constructor; [exact Hbuf | constructor].
Qed.

(** The path state runs through any characters of a path up to a slash,
    and starts the next segment there. *)
Lemma path_state_through middle rest : forall buffer path,
  forallb path_char middle = true ->
  Forall (fun seg => 47 ∉ seg) path -> (47 ∉ buffer) ->
  exists path', Forall (fun seg => 47 ∉ seg) path'
                /\ path_state (middle ++ 47 :: rest) buffer path = path_state rest [] path'.
Proof.
  induction middle as [|c middle IH]; intros buffer path Hm Hpath Hbuf.
  - exists (close_segment true buffer path). split; [|reflexivity].
    apply close_segment_no_slash; assumption.
  - cbn [forallb] in Hm. apply andb_true_iff in Hm. destruct Hm as [Hc Hm].
    cbn [app path_state].
    destruct ((c =? 47) || (c =? 92)) eqn:Hd.
    + apply IH; [exact Hm | | apply not_elem_of_nil].
      apply close_segment_no_slash; assumption.
    + unfold path_char in Hc. apply andb_true_iff in Hc. destruct Hc as [_ Hc].
      apply negb_true_iff in Hc. rewrite Hc.
      apply IH; [exact Hm | exact Hpath|].
      apply not_elem_of_app. split; [exact Hbuf | apply percent_encode_path_no_slash, Hd].
Qed.

Lemma plain_char_facts c :
  plain_char c = true ->
  ((c =? 47) || (c =? 92)) = false /\ ((c =? 63) || (c =? 35)) = false
  /\ in_path_percent_encode_set c = false /\ c <> 37 /\ c < 127.
Proof.
  unfold plain_char. intros H.
  repeat (apply andb_true_iff in H; destruct H as [H ?]).
  repeat match goal with
         | E : negb _ = true |- _ => apply negb_true_iff in E
         | E : (_ <? _) = true |- _ => apply N.ltb_lt in E
         end.
  match goal with E : (_ || _ || (c =? 37)) = false |- _ =>
    apply orb_false_iff in E; destruct E as [E1 E2]; apply N.eqb_neq in E2 end.
  repeat split; try assumption.
  match goal with E : in_path_percent_encode_set c = false |- _ =>
    unfold in_path_percent_encode_set in E;
    repeat (apply orb_false_iff in E; destruct E as [E ?]) end.
  apply orb_false_iff. split; assumption.
Qed.

(** A segment of plain characters goes into the buffer as it is. *)
Lemma path_state_plain seg rest : forall buffer path,
  forallb plain_char seg = true ->
  path_state (seg ++ rest) buffer path = path_state rest (buffer ++ seg) path.
Proof.
  induction seg as [|c seg IH]; intros buffer path Hs.
  - rewrite app_nil_r. reflexivity.
  - cbn [forallb] in Hs. apply andb_true_iff in Hs. destruct Hs as [Hc Hs].
    destruct (plain_char_facts c Hc) as (H1 & H2 & H3 & _ & _).
    cbn [app path_state]. rewrite H1, H2. unfold percent_encode_path. rewrite H3.
    rewrite (IH _ _ Hs), <- app_assoc. reflexivity.
Qed.

Lemma plain_no_percent seg : forallb plain_char seg = true -> 37 ∉ seg.
Proof.
  induction seg as [|c seg IH]; [intros _; apply not_elem_of_nil|].
  cbn [forallb]. intros H. apply andb_true_iff in H. destruct H as [Hc Hs].
  destruct (plain_char_facts c Hc) as (_ & _ & _ & H37 & _).
  apply not_elem_of_cons. split; [congruence | apply IH, Hs].
Qed.

Lemma lower_no_percent seg : (37 ∉ seg) -> 37 ∉ lower seg.
Proof.
  induction seg as [|c seg IH]; [intros _; apply not_elem_of_nil|].
  intros H. apply not_elem_of_cons in H. destruct H as [Hc Hs].
  unfold lower. cbn [map]. apply not_elem_of_cons. split; [|apply IH, Hs].
  destruct ((65 <=? c) && (c <=? 90)) eqn:E; [|exact Hc].
  apply andb_true_iff in E. destruct E as [E _]. apply N.leb_le in E. lia.
Qed.

(** A segment of plain characters other than the two dot segments is
    appended to the path. *)
Lemma close_segment_plain slash name path :
  forallb plain_char name = true -> name <> u "." -> name <> u ".." ->
  close_segment slash name path = path ++ [name].
Proof.
  intros Hp H1 H2. pose proof (lower_no_percent _ (plain_no_percent _ Hp)) as Hl.
  assert (Hne : forall l, (37 ∈ l) -> streq (lower name) l = false).
  { intros l Hin. apply streq_false. intros E. apply Hl. rewrite E. exact Hin. }
  unfold close_segment, is_double_dot, is_single_dot.
  apply streq_false in H1, H2. rewrite H1, H2.
  rewrite !Hne by (apply (bool_decide_unpack _); vm_compute; reflexivity).
  reflexivity.
Qed.

Lemma forallb_impl {A} (f g : A -> bool) l :
  (forall x, f x = true -> g x = true) -> forallb f l = true -> forallb g l = true.
Proof.
  intros Hfg. induction l as [|x l IH]; [reflexivity|]. cbn [forallb].
  intros H. apply andb_true_iff in H. destruct H as [Hx Hl].
  rewrite (Hfg x Hx), (IH Hl). reflexivity.
Qed.

Lemma plain_visible c : plain_char c = true -> visible c = true.
Proof.
  unfold plain_char, visible. intros H.
  repeat (apply andb_true_iff in H; destruct H as [H ?]).
  apply andb_true_iff. split; assumption.
Qed.

Lemma path_char_visible c : path_char c = true -> visible c = true.
Proof.
  unfold path_char, visible. intros H.
  apply andb_true_iff in H. destruct H as [H _]. exact H.
Qed.

(** The URL parser strips nothing from a string of visible ASCII. *)
Lemma url_input_visible l : forallb visible l = true -> url_input l = l.
Proof.
  intros Hl. unfold url_input.
  assert (Hc : forall c, In c l -> 32 < c).
  { intros c Hin. rewrite forallb_forall in Hl. specialize (Hl c Hin).
    unfold visible in Hl. apply andb_true_iff in Hl. destruct Hl as [Hl _].
    apply N.ltb_lt in Hl. exact Hl. }
  assert (H1 : drop_while is_c0_or_space l = l).
  { destruct l as [|c l']; [reflexivity|]. cbn [drop_while]. unfold is_c0_or_space.
    replace (c <=? 32) with false; [reflexivity|].
    symmetry. apply N.leb_gt, Hc. left. reflexivity. }
  rewrite H1.
  assert (H2 : rev (drop_while is_c0_or_space (rev l)) = l).
  { clear H1 Hl. induction l as [|z a _] using rev_ind; [reflexivity|].
    rewrite rev_app_distr. cbn [rev app drop_while]. unfold is_c0_or_space.
    replace (z <=? 32) with false.
    - cbn [rev]. rewrite rev_involutive. reflexivity.
    - symmetry. apply N.leb_gt, Hc, in_or_app. right. left. reflexivity. }
  rewrite H2. clear H1 H2 Hl.
  induction l as [|c l IH]; [reflexivity|].
  rewrite filter_cons_True.
  - f_equal. apply IH. intros x Hx. apply Hc. right. exact Hx.
  - unfold is_tab_or_newline. pose proof (Hc c (or_introl eq_refl)) as Hgt.
    repeat (apply orb_false_iff; split); apply N.eqb_neq; lia.
Qed.

Lemma plain_no_slash seg : forallb plain_char seg = true -> 47 ∉ seg.
Proof.
  induction seg as [|c seg IH]; [intros _; apply not_elem_of_nil|].
  cbn [forallb]. intros H. apply andb_true_iff in H. destruct H as [Hc Hs].
  destruct (plain_char_facts c Hc) as (H1 & _).
  apply orb_false_iff in H1. destruct H1 as [H1 _]. apply N.eqb_neq in H1.
  apply not_elem_of_cons. split; [congruence | apply IH, Hs].
Qed.

Lemma replace_plus_no_percent seg : (37 ∉ seg) -> 37 ∉ replace_plus_by_space seg.
Proof.
  induction seg as [|c seg IH]; [intros _; apply not_elem_of_nil|].
  intros H. apply not_elem_of_cons in H. destruct H as [Hc Hs].
  unfold replace_plus_by_space. cbn [map]. apply not_elem_of_cons.
  split; [destruct (c =? 43); [discriminate | exact Hc] | apply IH, Hs].
Qed.

(** The path name of a share link that ends in /NAME/file. *)
Lemma share_link_pathname p middle name :
  p = u "http://www.mediafire.com/" \/ p = u "https://www.mediafire.com/" ->
  forallb path_char middle = true -> forallb plain_char name = true ->
  name <> u "." -> name <> u ".." ->
  exists path,
    URL_pathname (p ++ middle ++ 47 :: name ++ u "/file")
    = Ok (flat_map (fun seg => 47 :: seg) ((path ++ [name]) ++ [u "file"]))
    /\ Forall (fun seg => 47 ∉ seg) path.
Proof.
  intros Hp Hm Hn H1 H2.
  assert (Hrest : forallb visible (middle ++ 47 :: name ++ u "/file") = true).
  { rewrite forallb_app. apply andb_true_iff. split.
    - apply (forallb_impl _ _ _ path_char_visible Hm).
    - cbn [forallb]. apply andb_true_iff. split; [reflexivity|].
      rewrite forallb_app. apply andb_true_iff. split; [|reflexivity].
      apply (forallb_impl _ _ _ plain_visible Hn). }
  assert (Hlink : forallb visible (p ++ middle ++ 47 :: name ++ u "/file") = true).
  { rewrite forallb_app. apply andb_true_iff. split; [|exact Hrest].
    destruct Hp as [-> | ->]; reflexivity. }
  unfold URL_pathname. rewrite (url_input_visible _ Hlink).
  assert (Hafter :
    match after_prefix (u "http://www.mediafire.com/") (p ++ middle ++ 47 :: name ++ u "/file") with
    | Some r => Some r
    | None => after_prefix (u "https://www.mediafire.com/") (p ++ middle ++ 47 :: name ++ u "/file")
    end = Some (middle ++ 47 :: name ++ u "/file")).
  { destruct Hp as [-> | ->].
    - rewrite after_prefix_app. reflexivity.
    - change (after_prefix (u "http://www.mediafire.com/")
                (u "https://www.mediafire.com/" ++ middle ++ 47 :: name ++ u "/file"))
        with (@None (list N)).
      apply after_prefix_app. }
  cbv zeta. rewrite Hafter.
  rewrite scalar_values_ascii
    by (apply (forallb_impl visible); [|exact Hrest];
        intros c Hc; unfold visible in Hc; apply andb_true_iff in Hc; apply Hc).
  destruct (path_state_through middle (name ++ u "/file") [] [])
    as (path & Hpath & ->); [exact Hm | constructor | apply not_elem_of_nil|].
  exists path. split; [|exact Hpath]. f_equal. f_equal.
  change (u "/file") with (47 :: u "file" ++ []).
  rewrite (path_state_plain name _ _ _ Hn). cbn [app path_state]. cbn [N.eqb Pos.eqb orb].
  rewrite (close_segment_plain true name path Hn H1 H2).
  rewrite (path_state_plain (u "file") [] _ _ eq_refl). cbn [app path_state].
  apply close_segment_plain; [reflexivity | discriminate | discriminate].
Qed.

(** X17: for a share link of the usual layout, one of the two accepted
    prefixes followed by any path characters and by /NAME/file, where NAME
    is a non-empty segment of plain characters other than file and the dot
    segments, the name recovered from the link is NAME with every plus sign
    turned into a space; without an upstream name, the inferred name is that
    name after the extension step. *)
Theorem share_link_name p middle name filename ct :
  p = u "http://www.mediafire.com/" \/ p = u "https://www.mediafire.com/" ->
  forallb path_char middle = true -> forallb plain_char name = true ->
  name <> [] -> name <> u "file" -> name <> u "." -> name <> u ".." ->
  filenameFromLink (p ++ middle ++ 47 :: name ++ u "/file") filename
  = replace_plus_by_space name
  /\ inferFilename None (p ++ middle ++ 47 :: name ++ u "/file") ct
     = Ok (addExtension (replace_plus_by_space name) ct).
Proof.
  intros Hp Hm Hn Hne Hfile H1 H2.
  assert (Hlink : forall f,
             filenameFromLink (p ++ middle ++ 47 :: name ++ u "/file") f
             = replace_plus_by_space name).
  { intros f. destruct (share_link_pathname p middle name Hp Hm Hn H1 H2) as (path & Hurl & Hpath).
    unfold filenameFromLink. rewrite Hurl. cbv zeta.
    rewrite split_pathname.
    2:{ apply Forall_app. split; [apply Forall_app; split; [exact Hpath|]|].
        - constructor; [apply plain_no_slash, Hn | constructor].
        - constructor; [apply (bool_decide_unpack _); vm_compute; reflexivity | constructor]. }
    assert (Hlen : length ([] :: (path ++ [name]) ++ [u "file"]) = S (S (S (length path))))
      by (cbn [length]; rewrite !length_app; cbn [length]; lia).
    rewrite Hlen.
    replace (2 <=? S (S (S (length path))))%nat with true by (symmetry; apply Nat.leb_le; lia).
    replace (S (S (S (length path))) - 2)%nat with (S (length path)) by lia.
    assert (Hel : element ([] :: (path ++ [name]) ++ [u "file"]) (S (length path)) = Some name).
    { unfold element.
      change (((path ++ [name]) ++ [u "file"]) !! length path = Some name).
      rewrite lookup_app_l by (rewrite length_app; cbn [length]; lia).
      apply list_lookup_middle. reflexivity. }
    rewrite Hel. cbv iota. simpl default.
    replace (truthy name) with true by (destruct name; [contradiction | reflexivity]).
    apply streq_false in Hfile. rewrite Hfile. cbn [negb andb].
    unfold decodeURIComponent. rewrite decode_plain; [reflexivity | | lia].
    apply replace_plus_no_percent, plain_no_percent, Hn. }
  split; [apply Hlink|].
  rewrite inferFilename_fallback by reflexivity. rewrite Hlink. reflexivity.
Qed.

Lemma share_link_name_witness :
  filenameFromLink (u "https://www.mediafire.com/" ++ u "file/abc123" ++ 47 :: u "My+Holiday+Photos.zip" ++ u "/file")
    (u "downloaded_file")
  = u "My Holiday Photos.zip".
Proof.
  destruct (share_link_name (u "https://www.mediafire.com/") (u "file/abc123")
              (u "My+Holiday+Photos.zip") (u "downloaded_file") None) as [H _];
    [right; reflexivity | reflexivity | reflexivity
    | discriminate | discriminate | discriminate | discriminate |].
  rewrite H. reflexivity.
Defined.


(** * The alternatives of pattern 4 that are never taken *)

Section Alternatives.
Context {A : Type}.
Variable ci : bool.

Lemma star_g_ext p s (k1 k2 : jsstring -> option A) :
  (forall s', k1 s' = k2 s') -> star_g p s k1 = star_g p s k2.
Proof.
  intros Hk. induction s as [|c s IH]; cbn [star_g]; [apply Hk|].
  rewrite IH, Hk. reflexivity.
Qed.

Lemma star_l_ext p s (k1 k2 : jsstring -> option A) :
  (forall s', k1 s' = k2 s') -> star_l p s k1 = star_l p s k2.
Proof.
  intros Hk. induction s as [|c s IH]; cbn [star_l]; rewrite Hk; [reflexivity|].
  rewrite IH. reflexivity.
Qed.

(** The matcher depends on its continuation through its values only. *)
Lemma m_ext r : forall s cap (k1 k2 : jsstring -> option jsstring -> option A),
  (forall s' c, k1 s' c = k2 s' c) -> m ci r s cap k1 = m ci r s cap k2.
Proof.
  induction r as [l|cl|cl|cl|cl|r IH|r1 IH1 r2 IH2|r1 IH1 r2 IH2|r IH];
    intros s cap k1 k2 Hk; cbn [m].
  - destruct (lit_match ci (u l) s); [apply Hk | reflexivity].
  - destruct s as [|c s]; [reflexivity|]. rewrite Hk. reflexivity.
  - apply star_g_ext. intros s'. apply Hk.
  - destruct s as [|c s]; [reflexivity|].
    destruct (in_class ci cl c); [|reflexivity]. apply star_g_ext. intros s'. apply Hk.
  - apply star_l_ext. intros s'. apply Hk.
  - rewrite (IH s cap k1 k2 Hk), Hk. reflexivity.
  - rewrite (IH1 s cap k1 k2 Hk), (IH2 s cap k1 k2 Hk). reflexivity.
  - apply IH1. intros s' c. apply IH2, Hk.
  - apply IH. intros s' c. apply Hk.
Qed.

Lemma lit_match_app_lit l1 l2 s :
  lit_match ci (l1 ++ l2) s
  = match lit_match ci l1 s with Some s1 => lit_match ci l2 s1 | None => None end.
Proof.
  revert s. induction l1 as [|c l1 IH]; intros s; cbn [app lit_match]; [reflexivity|].
  destruct s as [|d s]; [reflexivity|].
  destruct (canon ci c =? canon ci d); [apply IH | reflexivity].
Qed.

Variable k : jsstring -> option jsstring -> option A.

Lemma m_literal_alternatives others : forall r s cap,
  m ci (fold_left (fun r e => Alt r (Lit e)) others r) s cap k
  = match m ci r s cap k with
    | Some a => Some a
    | None => try_literals ci k others s cap
    end.
Proof.
  induction others as [|e others IH]; intros r s cap; cbn [fold_left try_literals].
  - destruct (m ci r s cap k); reflexivity.
  - rewrite IH. cbn [m]. destruct (m ci r s cap k); reflexivity.
Qed.

Lemma try_literals_app l1 l2 s cap :
  try_literals ci k (l1 ++ l2) s cap
  = match try_literals ci k l1 s cap with
    | Some a => Some a
    | None => try_literals ci k l2 s cap
    end.
Proof.
  induction l1 as [|e l1 IH]; cbn [app try_literals]; [reflexivity|].
  destruct (m ci (Lit e) s cap k); [reflexivity | exact IH].
Qed.

Lemma try_literals_none l s cap e :
  try_literals ci k l s cap = None -> In e l -> m ci (Lit e) s cap k = None.
Proof.
  induction l as [|x l IH]; cbn [try_literals In]; [tauto|].
  destruct (m ci (Lit x) s cap k) eqn:E; [discriminate|].
  intros H [<- | Hin]; [exact E | apply IH; assumption].
Qed.

(** The continuation accepts whatever is put in front of an input that it
    accepts. *)
Hypothesis absorbing : forall x s' c, is_Some (k s' c) -> is_Some (k (x :: s') c).

Lemma absorbing_many w s' c : is_Some (k s' c) -> is_Some (k (w ++ s') c).
Proof.
  intros H. induction w as [|x w IH]; cbn [app]; [exact H | apply absorbing, IH].
Qed.

(** A literal that extends an earlier alternative is never taken: where it
    would match, the earlier one has matched already. *)
Lemma longer_literal_fails l e e' t s cap :
  In e l -> u e' = u e ++ t ->
  try_literals ci k l s cap = None -> m ci (Lit e') s cap k = None.
Proof.
  intros Hin He Hnone. assert (Hshort := try_literals_none _ _ _ _ Hnone Hin).
  cbn [m] in *. rewrite He, lit_match_app_lit.
  destruct (lit_match ci (u e) s) as [s1|] eqn:E1; [|reflexivity].
  destruct (lit_match ci t s1) as [s'|] eqn:E2; [|reflexivity].
  destruct (lit_match_suffix ci _ _ _ E2) as (w & -> & _).
  destruct (k s' cap) eqn:Ek; [|reflexivity].
  destruct (absorbing_many w s' cap) as [b Hb]; [rewrite Ek; eexists; reflexivity|].
  congruence.
Qed.

Lemma try_literals_without l1 e' l2 e t s cap :
  In e l1 -> u e' = u e ++ t ->
  try_literals ci k (l1 ++ e' :: l2) s cap = try_literals ci k (l1 ++ l2) s cap.
Proof.
  intros Hin He. rewrite !try_literals_app. cbn [try_literals].
  destruct (try_literals ci k l1 s cap) eqn:E; [reflexivity|].
  rewrite (longer_literal_fails l1 e e' t s cap Hin He E). reflexivity.
Qed.

(** With such a continuation, [file_extension] decides as its alternatives
    without docx, xlsx and pptx do. *)
Lemma file_extension_short_eq s cap :
  m ci file_extension s cap k = m ci file_extension_short s cap k.
Proof.
  change file_extension with
    (literal_alternatives "zip"
       ["rar"; "7z"; "exe"; "mp4"; "mp3"; "pdf"; "doc"; "docx"; "xls"; "xlsx"; "ppt"; "pptx";
        "jpg"; "jpeg"; "png"; "gif"; "txt"; "iso"; "apk"; "dmg"; "deb"; "rpm"; "tar.gz";
        "gz"; "bz2"; "xz"]%string).
  change file_extension_short with
    (literal_alternatives "zip"
       ["rar"; "7z"; "exe"; "mp4"; "mp3"; "pdf"; "doc"; "xls"; "ppt";
        "jpg"; "jpeg"; "png"; "gif"; "txt"; "iso"; "apk"; "dmg"; "deb"; "rpm"; "tar.gz";
        "gz"; "bz2"; "xz"]%string).
  unfold literal_alternatives. rewrite !m_literal_alternatives.
  destruct (m ci (Lit "zip") s cap k); [reflexivity|].
  set (others := ["jpg"; "jpeg"; "png"; "gif"; "txt"; "iso"; "apk"; "dmg"; "deb"; "rpm";
                  "tar.gz"; "gz"; "bz2"; "xz"]%string).
  set (first := ["rar"; "7z"; "exe"; "mp4"; "mp3"; "pdf"]%string).
  change (try_literals ci k (first ++ ["doc"]%string ++ "docx"%string
                          :: "xls"%string :: "xlsx"%string :: "ppt"%string
                          :: "pptx"%string :: others) s cap
          = try_literals ci k (first ++ ["doc"; "xls"; "ppt"]%string ++ others) s cap).
  rewrite app_assoc.
  rewrite (try_literals_without _ "docx" _ "doc" (u "x") s cap);
    [|apply in_or_app; right; left; reflexivity | reflexivity].
  change (try_literals ci k (((first ++ ["doc"]%string) ++ ["xls"]%string) ++ "xlsx"%string
                          :: "ppt"%string :: "pptx"%string :: others) s cap
          = try_literals ci k (first ++ ["doc"; "xls"; "ppt"]%string ++ others) s cap).
  rewrite (try_literals_without _ "xlsx" _ "xls" (u "x") s cap);
    [|apply in_or_app; right; left; reflexivity | reflexivity].
  change (try_literals ci k ((((first ++ ["doc"]%string) ++ ["xls"]%string) ++ ["ppt"]%string)
                          ++ "pptx"%string :: others) s cap
          = try_literals ci k (first ++ ["doc"; "xls"; "ppt"]%string ++ others) s cap).
  rewrite (try_literals_without _ "pptx" _ "ppt" (u "x") s cap);
    [|apply in_or_app; right; left; reflexivity | reflexivity].
  reflexivity.
Qed.
End Alternatives.

Lemma star_l_accepts {A} p s (k1 k2 : jsstring -> option A) :
  (forall s', is_Some (k1 s') -> is_Some (k2 s')) ->
  is_Some (star_l p s k1) -> is_Some (star_l p s k2).
Proof.
  intros Hk. induction s as [|c s IH]; cbn [star_l].
  - specialize (Hk []). destruct (k1 []) as [a1|]; [|intros [? [=]]].
    intros _. destruct Hk as [a2 ->]; eauto.
  - specialize (Hk (c :: s)). destruct (k1 (c :: s)) as [a1|].
    + intros _. destruct Hk as [a2 ->]; eauto.
    + destruct (k2 (c :: s)) as [a2|]; [eauto|].
      destruct (p c); [exact IH | intros [? [=]]].
Qed.

Lemma any_accepts c : in_class true any c = true.
Proof. unfold in_class, any. cbn. destruct (is_space c); reflexivity. Qed.

(** What follows the link in pattern 4 accepts any longer rest. *)
Lemma script_tail_absorbs {A} (k0 : jsstring -> option jsstring -> option A)
    x s' cap1 cap2 :
  (forall s c, is_Some (k0 s c)) ->
  is_Some (m true (LazyStar any ++ Lit "</script>") s' cap1 k0) ->
  is_Some (m true (LazyStar any ++ Lit "</script>") (x :: s') cap2 k0).
Proof.
  intros Hk0. rewrite !m_seq. cbn [m]. intros H.
  cbn [star_l].
  match goal with |- is_Some (match ?e with _ => _ end) => destruct e; [eauto|] end.
  rewrite any_accepts. revert H. apply star_l_accepts.
  intros s''. destruct (lit_match true (u "</script>") s''); [|intros [? [=]]].
  intros _. apply Hk0.
Qed.

Lemma match_here_short s :
  match_here true directLinkInScriptRegex s
  = match_here true directLinkInScriptRegex_short s.
Proof.
  unfold match_here, directLinkInScriptRegex, directLinkInScriptRegex_short.
  rewrite !m_seq. apply m_ext. intros s1 c1.
  rewrite !m_seq. apply m_ext. intros s2 c2.
  rewrite !m_seq. apply m_ext. intros s3 c3.
  rewrite !m_seq. apply m_ext. intros s4 c4.
  rewrite !m_seq, !m_group. rewrite !m_seq. apply m_ext. intros s5 c5.
  rewrite !m_seq. apply m_ext. intros s6 c6.
  rewrite !m_seq. apply m_ext. intros s7 c7.
  apply file_extension_short_eq.
  intros x s' c. apply script_tail_absorbs. intros; eauto.
Qed.

Lemma exec_short html :
  exec true directLinkInScriptRegex html = exec true directLinkInScriptRegex_short html.
Proof.
  induction html as [|c html IH]; cbn [exec]; rewrite match_here_short;
    destruct (match_here true directLinkInScriptRegex_short _); congruence.
Qed.

Lemma lit_match_length ci l w : lit_match ci l w = Some [] -> length w = length l.
Proof.
  intros H. destruct (lit_match_suffix ci _ _ _ H) as (a & -> & Hlen).
  rewrite app_nil_r. exact Hlen.
Qed.

(** The characters of a text of known length. *)
Ltac exact_shape w H :=
  vm_compute in H;
  repeat (destruct w as [|? w]; [discriminate H | cbn [length] in H; apply eq_add_S in H]);
  destruct w; [clear H | discriminate H].

(** Two literal characters that differ, compared with the same character. *)
Ltac clash :=
  match goal with
  | H1 : (canon true ?k1 =? canon true ?v) = true,
    H2 : (canon true ?k2 =? canon true ?v) = true |- _ =>
      apply N.eqb_eq in H1; apply N.eqb_eq in H2; rewrite <- H2 in H1;
      vm_compute in H1; discriminate H1
  end.

(** No text that ends with a dot and one of the remaining extensions ends
    in docx, xlsx or pptx. *)
Lemma no_office_suffix x wdot we a t o cap cap' :
  lit_match true (u ".") wdot = Some [] ->
  Match true file_extension_short we cap cap' ->
  In o ["docx"; "xlsx"; "pptx"]%string ->
  x ++ wdot ++ we = a ++ t -> lit_match true (u o) t = Some [] -> False.
Proof.
  intros Hd He Ho Heq Ht.
  assert (Ld := lit_match_length _ _ _ Hd). exact_shape wdot Ld. lit_inversion Hd.
  apply (f_equal (@rev N)) in Heq. rewrite !rev_app_distr in Heq.
  cbn [In] in Ho. destruct Ho as [<- | [<- | [<- | []]]];
    (assert (Lt := lit_match_length _ _ _ Ht); exact_shape t Lt; lit_inversion Ht;
     unfold file_extension_short in He; invert_match;
     match goal with
     | H : lit_match true _ ?w = Some [] |- _ =>
         let L := fresh "L" in
         assert (L := lit_match_length _ _ _ H); exact_shape w L; lit_inversion H
     end;
     cbn [rev app] in Heq; injection Heq as Heq; subst; clash).
Qed.

(** X18: pattern 4 never takes its alternatives docx, xlsx and pptx: they
    come after doc, xls and ppt, and what follows the link accepts any text
    up to the end of the script.  On every page, pattern 4 gives what the
    pattern without these three alternatives gives, and the link it
    captures never ends in docx, xlsx or pptx, in any letter case: a link
    to a .docx file is returned without its last letter. *)
Theorem office_extensions_are_cut html :
  exec true directLinkInScriptRegex html = exec true directLinkInScriptRegex_short html
  /\ forall c a t e,
       exec true directLinkInScriptRegex html = Some (Some c) ->
       c = a ++ t -> In e ["docx"; "xlsx"; "pptx"]%string ->
       lit_match true (u e) t <> Some [].
Proof.
  split; [apply exec_short|].
  intros c a t e Hex Hc He Ht. rewrite exec_short in Hex. apply exec_sound in Hex.
  destruct Hex as (pre & w & post & _ & HM).
  unfold directLinkInScriptRegex_short in HM. invert_match.
  match goal with
  | Hd : lit_match true (u ".") _ = Some [], Hx : Match true file_extension_short _ _ _,
    Heq : ?x1 ++ ?x2 ++ _ ++ _ = a ++ t |- _ =>
      apply (no_office_suffix (x1 ++ x2) _ _ a t e _ _ Hd Hx He); [|exact Ht];
      rewrite <- app_assoc; exact Heq
  end.
Qed.

Lemma office_extensions_are_cut_witness :
  exec true directLinkInScriptRegex (u "<script>open('http://h.example/a.docx')</script>")
  = Some (Some (u "http://h.example/a.doc"))
  /\ lit_match true (u "docx") (u ".doc") <> Some [].
Proof.
  split; [vm_compute; reflexivity|].
  apply (proj2 (office_extensions_are_cut
                  (u "<script>open('http://h.example/a.docx')</script>"))
           (u "http://h.example/a.doc") (u "http://h.example/a") (u ".doc") "docx"%string);
    [vm_compute; reflexivity | reflexivity | cbn [In]; tauto].
Defined.

(** * The hash of a share link *)

Lemma alphanumeric_range c :
  alphanumeric c = true -> 48 <= c <= 57 \/ 65 <= c <= 90 \/ 97 <= c <= 122.
Proof.
  unfold alphanumeric. intros H.
  repeat match goal with
         | E : (_ || _) = true |- _ => apply orb_true_iff in E; destruct E as [E | E]
         | E : (_ && _) = true |- _ => apply andb_true_iff in E; destruct E
         | E : (_ <=? _) = true |- _ => apply N.leb_le in E
         end; lia.
Qed.

(** The comparisons of the goal that follow from the hypotheses. *)
Ltac decide_comparisons :=
  repeat match goal with
         | |- context [?a =? ?b] =>
             first [ replace (a =? b) with false by (symmetry; apply N.eqb_neq; lia)
                   | replace (a =? b) with true by (symmetry; apply N.eqb_eq; lia) ]
         | |- context [?a <=? ?b] =>
             first [ replace (a <=? b) with false by (symmetry; apply N.leb_gt; lia)
                   | replace (a <=? b) with true by (symmetry; apply N.leb_le; lia) ]
         | |- context [?a <? ?b] =>
             first [ replace (a <? b) with false by (symmetry; apply N.ltb_ge; lia)
                   | replace (a <? b) with true by (symmetry; apply N.ltb_lt; lia) ]
         end.

Lemma alphanumeric_plain c : alphanumeric c = true -> plain_char c = true.
Proof.
  intros H. apply alphanumeric_range in H.
  unfold plain_char, in_path_percent_encode_set.
  destruct H as [H | [H | H]]; decide_comparisons; reflexivity.
Qed.

Lemma alphanumeric_in_class c :
  alphanumeric c = true ->
  in_class false (Class false [CRange "a" "z"; CRange "A" "Z"; CRange "0" "9"]) c = true.
Proof.
  intros H. apply alphanumeric_range in H.
  unfold in_class. cbn [negated items existsb in_item xorb]. unfold in_range.
  change (chr "a") with 97. change (chr "z") with 122. change (chr "A") with 65.
  change (chr "Z") with 90. change (chr "0") with 48. change (chr "9") with 57.
  cbn [andb]. rewrite !orb_false_r.
  destruct H as [H | [H | H]]; decide_comparisons; reflexivity.
Qed.

Lemma replace_plus_alphanumeric hash :
  forallb alphanumeric hash = true -> replace_plus_by_space hash = hash.
Proof.
  induction hash as [|c hash IH]; [reflexivity|]. cbn [forallb]. intros H.
  apply andb_true_iff in H. destruct H as [Hc Hh]. apply alphanumeric_range in Hc.
  unfold replace_plus_by_space. cbn [map].
  replace (c =? 43) with false by (symmetry; apply N.eqb_neq; lia).
  f_equal. apply IH, Hh.
Qed.

Lemma path_state_segments segs last : forall path,
  Forall plain_segment segs -> plain_segment last ->
  path_state (flat_map (fun seg => seg ++ [47]) segs ++ last) [] path
  = path ++ segs ++ [last].
Proof.
  induction segs as [|seg segs IH]; intros path Hsegs (Hl & Hl1 & Hl2).
  - cbn [flat_map app]. rewrite <- (app_nil_r last) at 1.
    rewrite (path_state_plain last [] [] path Hl). cbn [app path_state].
    apply close_segment_plain; assumption.
  - inversion Hsegs as [|? ? (Hs & Hs1 & Hs2) Hrest]; subst.
    cbn [flat_map]. rewrite <- !app_assoc.
    rewrite (path_state_plain seg _ [] path Hs). cbn [app path_state].
    cbn [N.eqb Pos.eqb orb].
    rewrite (close_segment_plain true seg path Hs Hs1 Hs2).
    rewrite IH by (try assumption; repeat split; assumption).
    rewrite <- app_assoc. reflexivity.
Qed.

(** The path name of a link made of plain segments. *)
Lemma plain_link_pathname p segs last :
  p = u "http://www.mediafire.com/" \/ p = u "https://www.mediafire.com/" ->
  Forall plain_segment segs -> plain_segment last ->
  URL_pathname (p ++ flat_map (fun seg => seg ++ [47]) segs ++ last)
  = Ok (flat_map (fun seg => 47 :: seg) (segs ++ [last])).
Proof.
  intros Hp Hsegs Hlast.
  set (rest := flat_map (fun seg => seg ++ [47]) segs ++ last).
  assert (Hrest : forallb visible rest = true).
  { unfold rest. rewrite forallb_app. apply andb_true_iff. split.
    - clear Hlast. induction Hsegs as [|seg segs' (Hs & _) _ IH]; [reflexivity|].
      cbn [flat_map]. rewrite !forallb_app, IH, (forallb_impl _ _ _ plain_visible Hs).
      reflexivity.
    - destruct Hlast as (Hl & _). apply (forallb_impl _ _ _ plain_visible Hl). }
  assert (Hlink : forallb visible (p ++ rest) = true).
  { rewrite forallb_app. apply andb_true_iff. split; [|exact Hrest].
    destruct Hp as [-> | ->]; reflexivity. }
  unfold URL_pathname. rewrite (url_input_visible _ Hlink).
  assert (Hafter :
    match after_prefix (u "http://www.mediafire.com/") (p ++ rest) with
    | Some r => Some r
    | None => after_prefix (u "https://www.mediafire.com/") (p ++ rest)
    end = Some rest).
  { destruct Hp as [-> | ->].
    - rewrite after_prefix_app. reflexivity.
    - change (after_prefix (u "http://www.mediafire.com/")
                (u "https://www.mediafire.com/" ++ rest))
        with (@None (list N)).
      apply after_prefix_app. }
  cbv zeta. rewrite Hafter.
  rewrite scalar_values_ascii
    by (apply (forallb_impl visible); [|exact Hrest];
        intros c Hc; unfold visible in Hc; apply andb_true_iff in Hc; apply Hc).
  unfold rest. rewrite (path_state_segments segs last [] Hsegs Hlast). reflexivity.
Qed.

Lemma lit_match_case_sensitive l w : lit_match false l w = Some [] -> w = l.
Proof.
  revert w. induction l as [|c l IH]; intros w; cbn [lit_match].
  - intros [= ->]. reflexivity.
  - destruct w as [|d w]; [discriminate|]. unfold canon. cbn [andb].
    destruct (c =? d) eqn:E; [|discriminate]. apply N.eqb_eq in E. subst d.
    intros H. f_equal. apply IH, H.
Qed.

(** A text in which the pattern of the hash matches has three slashes. *)
Lemma hash_needs_three_slashes s cap :
  matches_in false hashRegex s cap -> (3 <= count_occ N.eq_dec s 47%N)%nat.
Proof.
  intros (a & w & b & -> & HM). unfold hashRegex in HM. invert_match.
  repeat match goal with
         | H : lit_match false _ _ = Some [] |- _ => apply lit_match_case_sensitive in H; subst
         end.
  rewrite !count_occ_app.
  change (count_occ N.eq_dec (u "/file/") 47) with 2%nat.
  change (count_occ N.eq_dec (u "/") 47) with 1%nat. lia.
Qed.

Lemma no_slash_count s : (47 ∉ s) -> count_occ N.eq_dec s 47 = 0%nat.
Proof. intros H. apply count_occ_not_In. intros Hin. apply H, list_elem_of_In, Hin. Qed.

Lemma hashRegex_captures hash rest :
  hash <> [] -> forallb alphanumeric hash = true ->
  exec false hashRegex (u "/file/" ++ hash ++ 47 :: rest) = Some (Some hash).
Proof.
  intros Hne Hh. apply exec_here. unfold match_here, hashRegex.
  rewrite m_seq, m_lit. cbv beta. rewrite m_seq, m_group. apply m_plus_all.
  - exact Hne.
  - apply (forallb_impl _ _ _ alphanumeric_in_class Hh).
  - reflexivity.
  - cbv beta. change (47 :: rest) with (u "/" ++ rest). rewrite m_lit.
    f_equal. f_equal. apply take_captured.
Qed.

Lemma alphanumeric_segment hash : forallb alphanumeric hash = true -> plain_segment hash.
Proof.
  intros Hh. split; [apply (forallb_impl _ _ _ alphanumeric_plain Hh)|].
  split; intros ->; discriminate Hh.
Qed.

Ltac all_segments :=
  repeat (constructor;
          [first [assumption | apply plain_no_slash; first [assumption | reflexivity]]|]);
  constructor.

(** X19: the name of a link that carries only the hash.  When the last
    segment but one of the path is literally file, as in
    /file/HASH/file/X, the name is mediafire_file_HASH; but for the short
    link /file/HASH the pattern of the hash, which asks for a slash after
    the hash, does not match and the name stays as it was; and for
    /file/HASH/ the name is the hash itself. *)
Theorem hash_of_share_link p hash x filename :
  p = u "http://www.mediafire.com/" \/ p = u "https://www.mediafire.com/" ->
  hash <> [] -> forallb alphanumeric hash = true -> plain_segment x ->
  filenameFromLink (p ++ u "file/" ++ hash ++ u "/file/" ++ x) filename
  = u "mediafire_file_" ++ hash
  /\ filenameFromLink (p ++ u "file/" ++ hash) filename = filename
  /\ (hash <> u "file" ->
      filenameFromLink (p ++ u "file/" ++ hash ++ u "/") filename = hash).
Proof.
  intros Hp Hne Hh Hx.
  assert (Hseg := alphanumeric_segment hash Hh).
  assert (Hfile : plain_segment (u "file")) by (repeat split; discriminate).
  assert (Hempty : plain_segment []) by (repeat split; discriminate).
  assert (Hx' : forallb plain_char x = true) by apply Hx.
  assert (Hh' : forallb plain_char hash = true) by apply Hseg.
  split; [|split].
  - replace (p ++ u "file/" ++ hash ++ u "/file/" ++ x)
      with (p ++ flat_map (fun seg => seg ++ [47]) [u "file"; hash; u "file"] ++ x)
      by (cbn [flat_map]; rewrite <- !app_assoc; reflexivity).
    unfold filenameFromLink.
    rewrite plain_link_pathname; [|exact Hp | all_segments | exact Hx].
    cbv zeta. rewrite split_pathname by all_segments.
    change (default [] _) with (u "file").
    replace (streq (u "file") (u "file")) with true by (symmetry; apply streq_true; reflexivity).
    cbn [negb andb truthy]. rewrite andb_false_r.
    change (flat_map _ _) with (u "/file/" ++ hash ++ 47 :: (u "file" ++ 47 :: x ++ [])).
    rewrite hashRegex_captures by assumption.
    destruct hash; [contradiction | reflexivity].
  - replace (p ++ u "file/" ++ hash)
      with (p ++ flat_map (fun seg => seg ++ [47]) [u "file"] ++ hash)
      by (cbn [flat_map]; rewrite <- !app_assoc; reflexivity).
    unfold filenameFromLink.
    rewrite plain_link_pathname; [|exact Hp | all_segments | exact Hseg].
    cbv zeta. rewrite split_pathname by all_segments.
    change (default [] _) with (u "file").
    replace (streq (u "file") (u "file")) with true by (symmetry; apply streq_true; reflexivity).
    cbn [negb andb truthy]. rewrite andb_false_r.
    destruct (exec false hashRegex _) as [cap|] eqn:E; [exfalso | reflexivity].
    apply exec_sound, hash_needs_three_slashes in E.
    change (flat_map _ _) with (u "/file/" ++ hash ++ []) in E.
    rewrite !count_occ_app in E.
    rewrite (no_slash_count hash) in E by (apply plain_no_slash, Hh').
    change (count_occ N.eq_dec (u "/file/") 47) with 2%nat in E.
    cbn [count_occ] in E. lia.
  - intros Hnf.
    replace (p ++ u "file/" ++ hash ++ u "/")
      with (p ++ flat_map (fun seg => seg ++ [47]) [u "file"; hash] ++ [])
      by (cbn [flat_map]; rewrite <- !app_assoc; reflexivity).
    unfold filenameFromLink.
    rewrite plain_link_pathname; [|exact Hp | all_segments | exact Hempty].
    cbv zeta. rewrite split_pathname by all_segments.
    change (default [] _) with hash.
    replace (truthy hash) with true by (destruct hash; [contradiction | reflexivity]).
    apply streq_false in Hnf. rewrite Hnf. cbn [negb andb].
    rewrite (replace_plus_alphanumeric hash Hh).
    unfold decodeURIComponent. rewrite decode_plain; [reflexivity | | lia].
    apply plain_no_percent, Hh'.
Qed.

Lemma hash_of_share_link_witness :
  filenameFromLink (u "https://www.mediafire.com/file/abc123/file/") (u "downloaded_file")
  = u "mediafire_file_abc123"
  /\ filenameFromLink (u "https://www.mediafire.com/file/abc123") (u "downloaded_file")
     = u "downloaded_file"
  /\ filenameFromLink (u "https://www.mediafire.com/file/abc123/") (u "downloaded_file")
     = u "abc123".
Proof.
  destruct (hash_of_share_link (u "https://www.mediafire.com/") (u "abc123") []
              (u "downloaded_file")) as (H1 & H2 & H3);
    [right; reflexivity | discriminate | reflexivity | repeat split; discriminate|].
  split; [exact H1 | split; [exact H2 | apply H3; discriminate]].
Defined.

(** * The extension step, in general *)

Lemma split_no_sep sep s : (sep ∉ s) -> split sep s = [s].
Proof.
  intros H. rewrite <- (app_nil_r s) at 1.
  rewrite (split_app_no_sep sep s [] [] [] H eq_refl), app_nil_r. reflexivity.
Qed.

Lemma split_at_sep sep s rest :
  (sep ∉ s) -> exists tl, split sep (s ++ sep :: rest) = s :: tl /\ split sep rest = tl.
Proof.
  intros H. exists (split sep rest). split; [|reflexivity].
  rewrite (split_app_no_sep sep s (sep :: rest) [] (split sep rest) H), app_nil_r; [reflexivity|].
  cbn [split]. rewrite N.eqb_refl. reflexivity.
Qed.

Lemma mimeOf_plain mime : (59 ∉ mime) -> mimeOf mime = mime.
Proof. intros H. unfold mimeOf. rewrite (split_no_sep 59 mime H). reflexivity. Qed.

Lemma mimeOf_parameters mime params : (59 ∉ mime) -> mimeOf (mime ++ 59 :: params) = mime.
Proof.
  intros H. unfold mimeOf. destruct (split_at_sep 59 mime params H) as (tl & -> & _).
  reflexivity.
Qed.

Lemma includes_app s1 s2 p : startsWith s2 p = true -> includes (s1 ++ s2) p = true.
Proof.
  intros H. induction s1 as [|c s1 IH]; cbn [app].
  - destruct s2; cbn [includes]; rewrite H; reflexivity.
  - cbn [includes]. rewrite IH. apply orb_true_r.
Qed.

(** What the extension step does to a name: nothing, or a dot and an
    extension at its end. *)
Lemma addExtension_cases name ct :
  addExtension name ct = name
  \/ exists e, addExtension name ct = name ++ u "." ++ e.
Proof.
  unfold addExtension. destruct ct as [ct|]; [|left; reflexivity].
  destruct (negb _ && truthy ct); [|left; reflexivity]. cbv zeta.
  destruct (match extMap_get (mimeOf ct) with Some e => _ | None => _ end) as [e|];
    [|left; reflexivity].
  destruct (truthy e && negb _); [right; exists e; reflexivity | left; reflexivity].
Qed.

Lemma addExtension_dotted name ct : includes name (u ".") = true -> addExtension name ct = name.
Proof.
  intros H. unfold addExtension. destruct ct as [ct|]; [|reflexivity].
  rewrite H. reflexivity.
Qed.

(** X20: the extension step looks at the media type only, not at the
    parameters that follow its first semicolon; it only ever appends to
    the name; and applying it twice changes nothing more. *)
Theorem extension_step name ct :
  (forall mime params,
      (59 ∉ mime) ->
      addExtension name (Some (mime ++ 59 :: params)) = addExtension name (Some mime))
  /\ (exists tail, addExtension name ct = name ++ tail)
  /\ addExtension (addExtension name ct) ct = addExtension name ct.
Proof.
  split; [|split].
  - intros mime params Hm. unfold addExtension.
    rewrite (mimeOf_parameters mime params Hm), (mimeOf_plain mime Hm).
    destruct mime as [|c mime]; [|reflexivity].
    cbn [app truthy]. rewrite !andb_false_r, andb_true_r.
    destruct (negb (includes name (u "."))); reflexivity.
  - destruct (addExtension_cases name ct) as [-> | (e & ->)].
    + exists []. rewrite app_nil_r. reflexivity.
    + eexists. reflexivity.
  - destruct (addExtension_cases name ct) as [E | (e & E)].
    + rewrite E. exact E.
    + rewrite E. apply addExtension_dotted.
      apply includes_app. reflexivity.
Qed.

Lemma extension_step_witness :
  addExtension (u "notes") (Some (u "text/plain; charset=utf-8")) = u "notes.txt".
Proof.
  change (u "text/plain; charset=utf-8") with (u "text/plain" ++ 59 :: u " charset=utf-8").
  rewrite (proj1 (extension_step (u "notes") None) (u "text/plain") (u " charset=utf-8"));
    [reflexivity | apply (bool_decide_unpack _); vm_compute; reflexivity].
Defined.

Lemma no_slash_not_a_key key name : (47 ∈ key) -> (47 ∉ u name) -> streq (u name) key = false.
Proof. intros Hk Hn. apply streq_false. intros E. apply Hn. rewrite E. exact Hk. Qed.

(** Nothing is inherited from Object.prototype under a key with a slash. *)
Lemma inherited_entry_slash key : (47 ∈ key) -> inherited_entry key = None.
Proof.
  intros Hk. unfold inherited_entry.
  replace (streq key (u "__proto__")) with false.
  2:{ symmetry. apply streq_false. intros E. rewrite E in Hk. revert Hk.
      apply (bool_decide_unpack _). vm_compute. reflexivity. }
  unfold inherited_functions.
  repeat (rewrite filter_cons_False;
          [|rewrite no_slash_not_a_key;
            [discriminate | exact Hk | apply (bool_decide_unpack _); vm_compute; reflexivity]]).
  reflexivity.
Qed.

(** X21: for a media type TYPE/SUBTYPE that is not a key of the table, the
    extension is the subtype as it stands: a name without a dot gets a dot
    and the subtype appended, unless the subtype already occurs in it. *)
Theorem subtype_becomes_extension name type subtype :
  includes name (u ".") = false ->
  (47 ∉ type) -> (47 ∉ subtype) -> (59 ∉ type ++ 47 :: subtype) -> subtype <> [] ->
  own_entry extMap (type ++ 47 :: subtype) = None ->
  addExtension name (Some (type ++ 47 :: subtype))
  = if includes name subtype then name else name ++ u "." ++ subtype.
Proof.
  intros Hdot Ht Hs Hsemi Hne Hown. unfold addExtension.
  rewrite Hdot, (mimeOf_plain _ Hsemi). unfold extMap_get. rewrite Hown.
  rewrite inherited_entry_slash by (apply elem_of_app; right; apply elem_of_cons; left; reflexivity).
  destruct (split_at_sep 47 type subtype Ht) as (tl & -> & <-).
  rewrite (split_no_sep 47 subtype Hs).
  replace (truthy (type ++ 47 :: subtype)) with true by (destruct type; reflexivity).
  cbn [negb andb]. change (element (type :: [subtype]) 1) with (Some subtype).
  cbv iota beta.
  replace (truthy subtype) with true by (destruct subtype; [contradiction | reflexivity]).
  cbn [andb]. destruct (includes name subtype); reflexivity.
Qed.

Lemma subtype_becomes_extension_witness :
  addExtension (u "drawing") (Some (u "image/svg+xml")) = u "drawing.svg+xml".
Proof.
  apply (subtype_becomes_extension (u "drawing") (u "image") (u "svg+xml"));
    [ reflexivity
    | apply (bool_decide_unpack _); vm_compute; reflexivity
    | apply (bool_decide_unpack _); vm_compute; reflexivity
    | apply (bool_decide_unpack _); vm_compute; reflexivity
    | discriminate
    | vm_compute; reflexivity ].
Defined.
